(** * univ-fs: the backend-independent file-system layer

    A shallow embedding of the orchestration layer of univ-fs
    (src/core/core.ts and the later revisions of the same classes) and the
    properties its specification states about it.

    Asynchronous code is modelled sequentially: an [await]ed call is a bind
    in a state-and-exception monad; a call whose promise is not awaited
    keeps its effects and loses its outcome.  Backend primitives (the
    abstract methods [_head], [_list], ...) are the fields of a [Backend]
    record acting on an abstract world; every invocation of a primitive and
    of a hook is recorded in a log, which is what the statements about
    "the primitive is never invoked" or "the hook fires" are about. *)

From Stdlib Require Import String List ZArith Bool Lia Ascii.
From Stdlib Require HexString.
Import ListNotations.
Open Scope string_scope.

Set Implicit Arguments.

(** ** Errors and outcomes *)

(** Modelled from the spec: the error classes of errors.ts, which is not
    among the sources.  They are the kinds of the taxonomy (4.5), one
    class per kind and none a subclass of another, so that [instanceof]
    and the comparison of [name]s tell them apart.  [RangeError] is what
    a JS engine throws when the call stack is exhausted; [BackendError]
    stands for any other thrown value. *)
Inductive Err : Type :=
| NotFoundError
| PathExistsError
| InvalidModificationError
| NotReadableError
| TypeMismatchError
| SecurityError
| SyntaxError
| NotSupportedError
| NoModificationAllowedError
| RangeError
| BackendError (code : string).

Definition Err_eqb (a b : Err) : bool :=
  match a, b with
  | NotFoundError, NotFoundError
  | PathExistsError, PathExistsError
  | InvalidModificationError, InvalidModificationError
  | NotReadableError, NotReadableError
  | TypeMismatchError, TypeMismatchError
  | SecurityError, SecurityError
  | SyntaxError, SyntaxError
  | NotSupportedError, NotSupportedError
  | NoModificationAllowedError, NoModificationAllowedError
  | RangeError, RangeError => true
  | BackendError x, BackendError y => String.eqb x y
  | _, _ => false
  end.

(** [e instanceof NotFoundError] *)
Definition instanceof_NotFoundError (e : Err) : bool :=
  match e with NotFoundError => true | _ => false end.

(** The outcome of running a piece of code: it returns, it throws, or the
    model ran out of fuel.  [Diverge] is not an exception: no [catch]
    sees it. *)
Inductive Outcome (A : Type) : Type :=
| Ok (a : A)
| Throw (e : Err)
| Diverge.
Arguments Ok {A} a.
Arguments Throw {A} e.
Arguments Diverge {A}.

(** A promise that has been created but is not (yet) awaited. *)
Inductive Promise (A : Type) : Type :=
| promise (settled : Outcome A).
Arguments promise {A} settled.

(** What the call of a callback typed to return a promise gives when it
    is not awaited: the callback throws before it returns, or it hands
    back a promise, settled or not.  Under [await] the two are the same
    and an [Outcome] is enough. *)
Inductive Called (A : Type) : Type :=
| throws (e : Err)
| returns (settled : Outcome A).
Arguments throws {A} e.
Arguments returns {A} settled.

(** ** The state-and-exception monad *)

Section Monad.
Context {S : Type}.

Definition M (A : Type) : Type := S -> Outcome A * S.

Definition ret {A} (a : A) : M A := fun s => (Ok a, s).

Definition bind {A B} (m : M A) (k : A -> M B) : M B :=
  fun s =>
    match m s with
    | (Ok a, s1) => k a s1
    | (Throw e, s1) => (Throw e, s1)
    | (Diverge, s1) => (Diverge, s1)
    end.

Definition throw {A} (e : Err) : M A := fun s => (Throw e, s).

Definition diverge {A} : M A := fun s => (Diverge, s).

(** [try { m } catch (e) { h e }] *)
Definition try_catch {A} (m : M A) (h : Err -> M A) : M A :=
  fun s =>
    match m s with
    | (Throw e, s1) => h e s1
    | r => r
    end.

(** [try { m } finally { f }]: [f] runs on return and on throw; an
    exception of [f] replaces the outcome of [m]. *)
Definition try_finally {A} (m : M A) (f : M unit) : M A :=
  fun s =>
    match m s with
    | (Diverge, s1) => (Diverge, s1)
    | (r, s1) =>
        match f s1 with
        | (Ok _, s2) => (r, s2)
        | (Throw e, s2) => (Throw e, s2)
        | (Diverge, s2) => (Diverge, s2)
        end
    end.

(** A call to an async function without [await]: the callee's effects
    happen, the caller gets a promise and never observes the outcome. *)
Definition no_await {A} (m : M A) : M (Promise A) :=
  fun s => let (r, s1) := m s in (Ok (promise r), s1).

(** [await p] for an outcome that is already known. *)
Definition await {A} (o : Outcome A) : M A := fun s => (o, s).
End Monad.

Declare Scope monad_scope.
Delimit Scope monad_scope with monad.
Notation "x <- m ;; k" := (bind m (fun x => k))
  (at level 61, m at next level, right associativity) : monad_scope.
Notation "m ;;; k" := (bind m (fun _ => k))
  (at level 61, right associativity) : monad_scope.
Open Scope monad_scope.

(** ** JavaScript values the code tests for truthiness *)

(** [!!n] for a number ([NaN] does not occur among sizes). *)
Definition truthy_number (n : Z) : bool := negb (n =? 0)%Z.

(** [p == null] where [p] is a Promise object: an object is never
    loosely equal to [null]. *)
Definition promise_eq_null {A} (p : Promise A) : bool := false.

(** [Source] of univ-conv as far as the core tells its values apart: a
    text is a JS string, binary data and encoded strings
    ([{ value, encoding }]) are objects. *)
Inductive Source : Type :=
| Text (s : string)
| Binary (b : list Byte.byte)
| Encoded (value encoding : string).

(** [!!source]: the empty string is the one falsy [Source]. *)
Definition truthy_Source (s : Source) : bool :=
  match s with
  | Text EmptyString => false
  | _ => true
  end.

(** ** Data model (core.ts) *)

Record Stats : Type := {
  size : option Z;
  accessed : option Z;
  modified : option Z
}.

(** [!!stats.size] *)
Definition truthy_size (stats : Stats) : bool :=
  match size stats with
  | Some n => truthy_number n
  | None => false
  end.

Record HeadOptions : Type := { head_ignoreHook : bool }.
Record DeleteOptions : Type :=
  { del_force : bool; del_recursive : bool; del_ignoreHook : bool }.
Record ListOptions : Type := { list_ignoreHook : bool }.
Record MkcolOptions : Type := { mk_recursive : bool; mk_ignoreHook : bool }.
Record OpenOptions : Type :=
  { bufferSize : option nat; open_ignoreHook : bool }.
(** [create] is tested with [=== true] and [=== false]: three values. *)
Record OpenWriteOptions : Type :=
  { w_bufferSize : option nat; w_ignoreHook : bool; create : option bool }.
Record XmitOptions : Type := { x_bufferSize : option nat }.

(** The empty options object [{}]. *)
Definition no_HeadOptions : HeadOptions := {| head_ignoreHook := false |}.
Definition no_DeleteOptions : DeleteOptions :=
  {| del_force := false; del_recursive := false; del_ignoreHook := false |}.
Definition no_ListOptions : ListOptions := {| list_ignoreHook := false |}.
Definition no_MkcolOptions : MkcolOptions :=
  {| mk_recursive := false; mk_ignoreHook := false |}.

(** [!!options.create] *)
Definition truthy_create (o : OpenWriteOptions) : bool :=
  match create o with Some true => true | _ => false end.

Definition set_create (o : OpenWriteOptions) (c : bool) : OpenWriteOptions :=
  {| w_bufferSize := w_bufferSize o; w_ignoreHook := w_ignoreHook o;
     create := Some c |}.

(** The two kinds of file-system object; the constructor tells what
    [instanceof AbstractFile] and [instanceof AbstractDirectory] answer. *)
Inductive Fso : Type :=
| AbstractFile (path : string)
| AbstractDirectory (path : string).

Definition fso_path (f : Fso) : string :=
  match f with AbstractFile p => p | AbstractDirectory p => p end.

Record XmitError : Type := { from : Fso; to : Fso; error : Err }.

(** Stream objects.  [rs_position]/[ws_position] is the cursor kept by the
    backend's subclass; [handled] is the flag of core.ts. *)
Record ReadStream : Type := {
  rs_path : string;
  rs_options : OpenOptions;
  rs_position : nat;
  rs_handled : bool
}.

Record WriteStream : Type := {
  ws_path : string;
  ws_options : OpenWriteOptions;
  ws_position : nat;
  ws_handled : bool
}.

(** [Stream]'s constructor: [64 * 1024] unless [options.bufferSize] is
    truthy. *)
Definition stream_bufferSize (b : option nat) : nat :=
  match b with
  | Some n => if Nat.eqb n 0 then 64 * 1024 else n
  | None => 64 * 1024
  end.

(** ** The log of primitive and hook invocations *)

Inductive PrimName : Type :=
| P_head | P_delete | P_list | P_mkcol
| P_openReadStream | P_openWriteStream
| P_read | P_close_read | P_write | P_close_write
| P_truncate | P_getSource.

Inductive HookName : Type :=
| beforeHead_ | afterHead_ | beforeDelete_ | afterDelete_
| beforeList_ | afterList_ | beforeMkcol_ | afterMkcol_
| beforeGet_ | afterGet_ | beforePost_ | afterPost_
| beforePut_ | afterPut_.

Inductive Event : Type :=
| EvPrim (p : PrimName) (path : string)
| EvWrite (path : string) (data : list Byte.byte)
| EvHook (h : HookName) (path : string).

Definition is_prim (p : PrimName) (path : string) (e : Event) : bool :=
  match e with
  | EvPrim q x =>
      match p, q with
      | P_head, P_head | P_delete, P_delete | P_list, P_list
      | P_mkcol, P_mkcol | P_openReadStream, P_openReadStream
      | P_openWriteStream, P_openWriteStream | P_read, P_read
      | P_close_read, P_close_read | P_write, P_write
      | P_close_write, P_close_write | P_truncate, P_truncate
      | P_getSource, P_getSource => String.eqb path x
      | _, _ => false
      end
  | _ => false
  end.

Definition is_write (e : Event) : bool :=
  match e with EvWrite _ _ => true | _ => false end.

(** The write notifications: a call of [afterPost] or of [afterPut]. *)
Definition is_notification (e : Event) : bool :=
  match e with
  | EvHook afterPost_ _ | EvHook afterPut_ _ => true
  | _ => false
  end.

(** An attempt to delete: the primitive or one of its hooks. *)
Definition is_delete (e : Event) : bool :=
  match e with
  | EvPrim P_delete _ | EvHook beforeDelete_ _ | EvHook afterDelete_ _ => true
  | _ => false
  end.

(** Neither a write nor an attempt to delete. *)
Definition inert (e : Event) : Prop :=
  is_write e = false /\ is_delete e = false.

(** All bytes handed to [_write] for [path], in order. *)
Fixpoint written (path : string) (l : list Event) : list Byte.byte :=
  match l with
  | [] => []
  | EvWrite p d :: l' =>
      if String.eqb p path then d ++ written path l' else written path l'
  | _ :: l' => written path l'
  end.

(** ** Backends and hooks *)

(** The abstract methods a backend implements, as functions on its world
    [W].  The methods of the Directory, File and stream subclasses take the
    path (and cursor) of the object they belong to. *)
Record Backend (W : Type) : Type := {
  _head : string -> HeadOptions -> W -> Outcome Stats * W;
  _delete : string -> DeleteOptions -> W -> Outcome unit * W;
  _list : string -> ListOptions -> W -> Outcome (list string) * W;
  _mkcol : string -> MkcolOptions -> W -> Outcome unit * W;
  _openReadStream : string -> OpenOptions -> W -> Outcome ReadStream * W;
  _openWriteStream :
    string -> OpenWriteOptions -> W -> Outcome WriteStream * W;
  _read : ReadStream -> W -> Outcome (option (list Byte.byte) * nat) * W;
  _close_read : ReadStream -> W -> Outcome unit * W;
  _write : WriteStream -> list Byte.byte -> W -> Outcome nat * W;
  _close_write : WriteStream -> W -> Outcome unit * W
}.

(** The hook object of [FileSystemOptions]; an absent callback is [None],
    a callback resolving to [null] returns [Ok None]. *)
Record Hook : Type := {
  beforeHead : option (string -> HeadOptions -> Outcome (option Stats));
  afterHead : option (string -> Stats -> Outcome unit);
  beforeDelete : option (string -> DeleteOptions -> Outcome bool);
  afterDelete : option (string -> Outcome unit);
  beforeList : option (string -> ListOptions -> Outcome (option (list string)));
  afterList : option (string -> list string -> Outcome unit);
  beforeMkcol : option (string -> MkcolOptions -> Outcome bool);
  afterMkcol : option (string -> Outcome unit);
  beforeGet : option (string -> OpenOptions -> Outcome (option ReadStream));
  afterGet : option (string -> Called unit);
  beforePost :
    option (string -> OpenWriteOptions -> Outcome (option WriteStream));
  afterPost : option (string -> Outcome unit);
  beforePut :
    option (string -> OpenWriteOptions -> Outcome (option WriteStream));
  afterPut : option (string -> Outcome unit)
}.

Definition no_hook : Hook :=
  {| beforeHead := None; afterHead := None; beforeDelete := None;
     afterDelete := None; beforeList := None; afterList := None;
     beforeMkcol := None; afterMkcol := None; beforeGet := None;
     afterGet := None; beforePost := None; afterPost := None;
     beforePut := None; afterPut := None |}.

(** The state threaded through every operation: the backend's world, the
    log, and the array that collects errors ([copyErrors] in [_xmit],
    [errors] in the later revisions), whose entries have type [E]. *)
Record St (W E : Type) : Type := {
  world : W;
  log : list Event;
  copyErrors : list E
}.

Definition init_St {W E} (w : W) : St W E :=
  {| world := w; log := []; copyErrors := [] |}.

(** The events a computation appends to the log. *)
Definition trace {W E A} (m : St W E -> Outcome A * St W E) (s : St W E)
  : list Event :=
  skipn (length (log s)) (log (snd (m s))).

Section Effects.
Context {W E : Type}.

(** Invocation of a backend primitive. *)
Definition prim {A} (ev : Event) (f : W -> Outcome A * W)
  : @M (St W E) A :=
  fun s =>
    let (r, w) := f (world s) in
    (r, {| world := w; log := log s ++ [ev]; copyErrors := copyErrors s |}).

(** Invocation of a hook callback. *)
Definition call_hook {A} (h : HookName) (path : string) (o : Outcome A)
  : @M (St W E) A :=
  fun s =>
    (o, {| world := world s; log := log s ++ [EvHook h path];
           copyErrors := copyErrors s |}).

(** Invocation of a hook callback without [await]: an exception thrown
    by the callback itself is thrown here, the promise it returns is
    handed on as it is. *)
Definition call_unawaited {A} (h : HookName) (path : string)
    (c : Called A) : @M (St W E) (Promise A) :=
  fun s =>
    (match c with
     | throws e => Throw e
     | returns o => Ok (promise o)
     end,
     {| world := world s; log := log s ++ [EvHook h path];
        copyErrors := copyErrors s |}).

(** [copyErrors.push(x)] *)
Definition push (x : E) : @M (St W E) unit :=
  fun s =>
    (Ok tt, {| world := world s; log := log s;
               copyErrors := copyErrors s ++ [x] |}).

(** [for (const x of l) { body x }] *)
Fixpoint for_of {A} (l : list A) (body : A -> @M (St W E) unit)
  : @M (St W E) unit :=
  match l with
  | [] => ret tt
  | x :: l' => body x ;;; for_of l' body
  end.

(** [m] only appends to the log, and every event it appends has [P]. *)
Definition emits (P : Event -> Prop) {A} (m : @M (St W E) A) : Prop :=
  forall s, exists evs,
    log (snd (m s)) = (log s ++ evs)%list /\ Forall P evs.
End Effects.

(** * util.ts: paths *)

Module Path.

(** [s.split(sep)] for a one-character separator *)
Fixpoint split (sep : ascii) (s : string) : list string :=
  match s with
  | EmptyString => [EmptyString]
  | String c s' =>
      if Ascii.eqb c sep then EmptyString :: split sep s'
      else
        match split sep s' with
        | x :: xs => String c x :: xs
        | [] => [String c EmptyString]
        end
  end.

(** The [for] loop of [getPathParts]; [pathParts.pop()] on a non-empty
    array is [removelast], [push] appends. *)
Fixpoint getPathParts_loop (parts pathParts : list string)
  : Outcome (list string) :=
  match parts with
  | [] => Ok pathParts
  | part :: rest =>
      if String.eqb part ".." then
        match pathParts with
        | [] => Throw SyntaxError
        | _ => getPathParts_loop rest (removelast pathParts)
        end
      else if String.eqb part "." then getPathParts_loop rest pathParts
      else if negb (String.eqb part "") then
        getPathParts_loop rest (pathParts ++ [part])
      else getPathParts_loop rest pathParts
  end.

Definition getPathParts (path : string) : Outcome (list string) :=
  getPathParts_loop (split "/"%char path) [].

Definition bindO {A B} (o : Outcome A) (k : A -> Outcome B) : Outcome B :=
  match o with
  | Ok a => k a
  | Throw e => Throw e
  | Diverge => Diverge
  end.

(** ["/" + parts.join("/")] *)
Definition absolute (parts : list string) : string :=
  "/" ++ String.concat "/" parts.

Definition getParentPath (path : string) : Outcome string :=
  bindO (getPathParts path) (fun parts =>
    if Nat.leb (length parts) 1 then Ok "/"
    else Ok (absolute (removelast parts))).

Definition getName (path : string) : Outcome string :=
  bindO (getPathParts path) (fun parts =>
    match parts with
    | [] => Ok ""
    | _ => Ok (last parts "")
    end).

Definition joinPaths (path1 path2 : string) : Outcome string :=
  bindO (getPathParts path1) (fun parts1 =>
  bindO (getPathParts path2) (fun parts2 =>
    Ok (absolute (parts1 ++ parts2)))).

Definition normalizePath (path : string) : Outcome string :=
  bindO (getPathParts path) (fun parts => Ok (absolute parts)).

End Path.

(** * core.ts *)

Module Core.
Section WithBackend.
Context {W : Type} (B : Backend W) (hook : Hook).

Definition FS (A : Type) : Type := @M (St W XmitError) A.

(** [if (!options.ignoreHook && this.before<Op>) r = await before<Op>(path, options)] *)
Definition before {A O} (ignoreHook : bool) (name : HookName)
    (cb : option (string -> O -> Outcome (option A)))
    (path : string) (options : O) : FS (option A) :=
  if negb ignoreHook then
    match cb with
    | Some h => call_hook name path (h path options)
    | None => ret None
    end
  else ret None.

(** What the before phase yields, as a value: [Ok None] when the hook is
    ignored, absent, or resolves to [null]. *)
Definition supplied {A O} (ignoreHook : bool)
    (cb : option (string -> O -> Outcome (option A)))
    (path : string) (options : O) : Outcome (option A) :=
  if negb ignoreHook then
    match cb with
    | Some h => h path options
    | None => Ok None
    end
  else Ok None.

(** What [beforeDelete] answers: [Ok false] when it is ignored or
    absent. *)
Definition delete_handled (path : string) (options : DeleteOptions)
  : Outcome bool :=
  if negb (del_ignoreHook options) then
    match beforeDelete hook with
    | Some h => h path options
    | None => Ok false
    end
  else Ok false.

(** What [beforeMkcol] answers: [Ok false] when it is ignored or
    absent. *)
Definition mkcol_handled (path : string) (options : MkcolOptions)
  : Outcome bool :=
  if negb (mk_ignoreHook options) then
    match beforeMkcol hook with
    | Some h => h path options
    | None => Ok false
    end
  else Ok false.

(** [if (!options.ignoreHook && this.after<Op>) await after<Op>(...)] *)
Definition after (ignoreHook : bool) (name : HookName)
    (cb : option (Outcome unit)) (path : string) : FS unit :=
  if negb ignoreHook then
    match cb with
    | Some o => call_hook name path o
    | None => ret tt
    end
  else ret tt.

(** ** AbstractFileSystem *)

Definition head (path : string) (options : HeadOptions) : FS Stats :=
  stats <- before (head_ignoreHook options) beforeHead_
             (beforeHead hook) path options ;;
  stats <- match stats with
           | Some st => ret st            (* [!stats] is false: an object *)
           | None => prim (EvPrim P_head path) (_head B path options)
           end ;;
  after (head_ignoreHook options) afterHead_
    (option_map (fun h => h path stats) (afterHead hook)) path ;;;
  ret stats.

Definition stat := head.

Definition delete (path : string) (options : DeleteOptions) : FS unit :=
  handled <-
    (if negb (del_ignoreHook options) then
       match beforeDelete hook with
       | Some h => call_hook beforeDelete_ path (h path options)
       | None => ret false
       end
     else ret false) ;;
  if handled : bool then ret tt
  else
    prim (EvPrim P_delete path) (_delete B path options) ;;;
    after (del_ignoreHook options) afterDelete_
      (option_map (fun h => h path) (afterDelete hook)) path.

(** ** AbstractFileSystemObject *)

(** [this.head()], [this.stat()] with the default [options = {}] *)
Definition fso_head (this : Fso) : FS Stats :=
  head (fso_path this) no_HeadOptions.

(** [this.delete()] *)
Definition fso_delete (this : Fso) : FS unit :=
  delete (fso_path this) no_DeleteOptions.

(** ** AbstractDirectory: [list] (alias [ls]) and [mkcol] *)

Definition ls (path : string) (options : ListOptions) : FS (list string) :=
  l <- before (list_ignoreHook options) beforeList_
         (beforeList hook) path options ;;
  l <- match l with
       | Some l => ret l                  (* [!list] is false: an array *)
       | None => prim (EvPrim P_list path) (_list B path options)
       end ;;
  after (list_ignoreHook options) afterList_
    (option_map (fun h => h path l) (afterList hook)) path ;;;
  ret l.

Definition mkcol (path : string) (options : MkcolOptions) : FS unit :=
  handled <-
    (if negb (mk_ignoreHook options) then
       match beforeMkcol hook with
       | Some h => call_hook beforeMkcol_ path (h path options)
       | None => ret false
       end
     else ret false) ;;
  if handled : bool then ret tt
  else
    prim (EvPrim P_mkcol path) (_mkcol B path options) ;;;
    after (mk_ignoreHook options) afterMkcol_
      (option_map (fun h => h path) (afterMkcol hook)) path.

(** ** ReadStream *)

Definition set_rs (rs : ReadStream) (pos : nat) (handled : bool)
  : ReadStream :=
  {| rs_path := rs_path rs; rs_options := rs_options rs;
     rs_position := pos; rs_handled := handled |}.

(** [close]: the [afterGet] callback is called without [await]: what
    the callback throws itself makes [close] reject, the promise it
    returns is dropped. *)
Definition rs_close (rs : ReadStream) : FS unit :=
  prim (EvPrim P_close_read (rs_path rs)) (_close_read B rs) ;;;
  if negb (open_ignoreHook (rs_options rs)) then
    match afterGet hook with
    | Some h =>
        call_unawaited afterGet_ (rs_path rs) (h (rs_path rs)) ;;;
        ret tt
    | None => ret tt
    end
  else ret tt.

(** [read]: the buffer ([None] is [null]) and the stream afterwards. *)
Definition rs_read (rs : ReadStream)
  : FS (option (list Byte.byte) * ReadStream) :=
  r <- prim (EvPrim P_read (rs_path rs)) (_read B rs) ;;
  ret (fst r, set_rs rs (snd r) true).

(** ** WriteStream *)

Definition set_ws (ws : WriteStream) (pos : nat) (handled : bool)
  : WriteStream :=
  {| ws_path := ws_path ws; ws_options := ws_options ws;
     ws_position := pos; ws_handled := handled |}.

(** [this.afterX] is truthy *)
Definition registered {A} (cb : option A) : bool :=
  match cb with Some _ => true | None => false end.

(** [await this.afterX(path)] for a callback known to be registered *)
Definition call_cb (name : HookName)
    (cb : option (string -> Outcome unit)) (path : string) : FS unit :=
  match cb with
  | Some h => call_hook name path (h path)
  | None => ret tt
  end.

Definition ws_close (ws : WriteStream) : FS unit :=
  prim (EvPrim P_close_write (ws_path ws)) (_close_write B ws) ;;;
  if negb (ws_handled ws) then ret tt
  else if negb (w_ignoreHook (ws_options ws))
          && registered (afterPost hook)
          && truthy_create (ws_options ws)
  then call_cb afterPost_ (afterPost hook) (ws_path ws)
  else if negb (w_ignoreHook (ws_options ws))
          && registered (afterPut hook)
          && negb (truthy_create (ws_options ws))
  then call_cb afterPut_ (afterPut hook) (ws_path ws)
  else ret tt.

(** [setLength] awaits [this.setLength(len)], itself, not [_setLength]:
    the calls nest until the call stack ([stack] frames) is used up and
    the engine throws [RangeError]; [handled = true] is never reached. *)
Fixpoint ws_setLength (stack : nat) (ws : WriteStream) (len : nat)
  : FS WriteStream :=
  match stack with
  | 0 => throw RangeError
  | S stack' =>
      ws' <- ws_setLength stack' ws len ;;
      ret (set_ws ws' (ws_position ws') true)
  end.

Definition ws_write (ws : WriteStream) (buffer : list Byte.byte)
  : FS WriteStream :=
  n <- (fun s =>
          let (r, w) := _write B ws buffer (world s) in
          (r, {| world := w;
                 log := log s ++ [EvPrim P_write (ws_path ws);
                                  EvWrite (ws_path ws) buffer];
                 copyErrors := copyErrors s |})) ;;
  ret (set_ws ws (ws_position ws + n) true).

(** ** AbstractFile: opening streams *)

Definition openReadStream (path : string) (options : OpenOptions)
  : FS ReadStream :=
  rs <- before (open_ignoreHook options) beforeGet_
          (beforeGet hook) path options ;;
  match rs with
  | Some rs => ret rs                     (* [!rs] is false: an object *)
  | None =>
      prim (EvPrim P_openReadStream path) (_openReadStream B path options)
  end.

(** The [catch (e)] clause of [openWriteStream], entered with the options
    object as it is when the exception is thrown. *)
Definition openWriteStream_catch (path : string)
    (options : OpenWriteOptions) (e : Err)
  : FS (OpenWriteOptions * option WriteStream) :=
  if instanceof_NotFoundError e then
    match create options with
    | Some false => throw e
    | _ =>
        let options := set_create options true in
        ws <- before (w_ignoreHook options) beforePost_
                (beforePost hook) path options ;;
        ret (options, ws)
    end
  else throw e.

(** [openWriteStream]: the [try] block assigns [options.create = false]
    before it calls [beforePut], so every point of the block that can
    throw hands the exception to the [catch] clause together with the
    options as they are at that point. *)
Definition openWriteStream (path : string) (options : OpenWriteOptions)
  : FS WriteStream :=
  r <- (st <- try_catch (head path no_HeadOptions ;;; ret None)
                (fun e => ret (Some e)) ;;
        match st with
        | Some e => openWriteStream_catch path options e
        | None =>
            match create options with
            | Some true =>
                openWriteStream_catch path options PathExistsError
            | _ =>
                let options := set_create options false in
                p <- try_catch
                       (ws <- before (w_ignoreHook options) beforePut_
                                (beforePut hook) path options ;;
                        ret (inl ws))
                       (fun e => ret (inr e)) ;;
                match p with
                | inl ws => ret (options, ws)
                | inr e => openWriteStream_catch path options e
                end
            end
        end) ;;
  match snd r with
  | Some ws => ret ws                     (* [!ws] is false: an object *)
  | None =>
      prim (EvPrim P_openWriteStream path)
        (_openWriteStream B path (fst r))
  end.

(** Opening in a mode already decided: the before hook of the mode
    ([beforePost] to create, [beforePut] to overwrite), then the
    primitive, both with [options.create] set to the mode. *)
Definition open_in_mode (create_mode : bool) (path : string)
    (options : OpenWriteOptions) : FS WriteStream :=
  let options := set_create options create_mode in
  ws <- (if create_mode
         then before (w_ignoreHook options) beforePost_
                (beforePost hook) path options
         else before (w_ignoreHook options) beforePut_
                (beforePut hook) path options) ;;
  match ws with
  | Some ws => ret ws
  | None =>
      prim (EvPrim P_openWriteStream path) (_openWriteStream B path options)
  end.

(** ** [_xmit], [copy], [move] *)

(** The copy loop of [AbstractFile._xmit]:
    [while ((buffer = rs.read()) == null) { ws.write(buffer); }].
    [rs.read()] is not awaited, so [buffer] is the promise; the body is
    entered only with [buffer == null], when there is no byte to hand to
    [ws.write], which is called without [await] as well. *)
Fixpoint copy_loop (fuel : nat) (rs : ReadStream) (ws : WriteStream)
  : FS unit :=
  match fuel with
  | 0 => diverge
  | S fuel' =>
      buffer <- no_await (rs_read rs) ;;
      if promise_eq_null buffer then
        no_await (ws_write ws []) ;;;
        copy_loop fuel' rs ws
      else ret tt
  end.

(** [AbstractFile._xmit] for the file at path [this] *)
Definition file_xmit (fuel : nat) (this : string) (fso : Fso)
    (move : bool) (options : XmitOptions) : FS unit :=
  head this no_HeadOptions ;;;
  match fso with
  | AbstractDirectory _ => throw InvalidModificationError
  | AbstractFile to_ =>
      rs <- openReadStream this
              {| bufferSize := x_bufferSize options;
                 open_ignoreHook := false |} ;;
      try_finally
        (create_ <- try_catch
                      (head to_ no_HeadOptions ;;; ret false)
                      (fun e =>
                         if instanceof_NotFoundError e then ret true
                         else throw e) ;;
         ws <- openWriteStream to_
                 {| w_bufferSize := x_bufferSize options;
                    w_ignoreHook := false;
                    create := Some create_ |} ;;
         try_finally
           (copy_loop fuel rs ws)
           (no_await (ws_close ws) ;;; ret tt))
        (no_await (rs_close rs) ;;; ret tt) ;;;
      if move then
        (* [try { } catch (error) { copyErrors.push(...) }]: the block
           is empty *)
        try_catch (ret tt)
          (fun error =>
             push {| from := AbstractFile this; to := AbstractFile to_;
                     error := error |})
      else ret tt
  end.

(** [stats.size ? this.fs.getFile(p) : this.fs.getDirectory(p)] *)
Definition dispatch (stats : Stats) (p : string) : Fso :=
  if truthy_size stats then AbstractFile p else AbstractDirectory p.

(** The body of the [for] loop of [AbstractDirectory._xmit]; [xmit] is
    the dynamically dispatched [fromFso._xmit]. *)
Definition dir_xmit_child
    (xmit : Fso -> Fso -> bool -> XmitOptions -> FS unit)
    (toDir : string) (move : bool) (options : XmitOptions)
    (child : string) : FS unit :=
  stats <- head child no_HeadOptions ;;
  let fromFso := dispatch stats child in
  name <- await (Path.getName child) ;;
  toPath <- await (Path.joinPaths toDir name) ;;
  let toFso := dispatch stats toPath in
  try_catch
    (xmit fromFso toFso move options ;;;
     if move then
       try_catch (fso_delete fromFso)
         (fun error =>
            push {| from := fromFso; to := toFso; error := error |})
     else ret tt)
    (fun error =>
       push {| from := fromFso; to := toFso; error := error |}).

(** [AbstractDirectory._xmit] for the directory at path [this] *)
Definition dir_xmit
    (xmit : Fso -> Fso -> bool -> XmitOptions -> FS unit)
    (this : string) (fso : Fso) (move : bool) (options : XmitOptions)
  : FS unit :=
  head this no_HeadOptions ;;;
  match fso with
  | AbstractFile _ => throw InvalidModificationError
  | AbstractDirectory toDir =>
      mkcol toDir no_MkcolOptions ;;;
      children <- ls this no_ListOptions ;;
      for_of children (dir_xmit_child xmit toDir move options)
  end.

(** [this._xmit(fso, move, copyErrors, options)], dispatched on the
    class of [this]; [fuel] bounds the nesting of calls and the
    iterations of the copy loop. *)
Fixpoint _xmit (fuel : nat) (this fso : Fso) (move : bool)
    (options : XmitOptions) : FS unit :=
  match fuel with
  | 0 => diverge
  | S fuel' =>
      match this with
      | AbstractFile p => file_xmit fuel' p fso move options
      | AbstractDirectory p => dir_xmit (_xmit fuel') p fso move options
      end
  end.

(** [const copyErrors: XmitError[] = []] *)
Definition new_copyErrors : FS unit :=
  fun s => (Ok tt, {| world := world s; log := log s; copyErrors := [] |}).

Definition return_copyErrors : FS (list XmitError) :=
  fun s => (Ok (copyErrors s), s).

(** [AbstractFileSystemObject.copy] and [move] *)
Definition copy (fuel : nat) (this fso : Fso) (options : XmitOptions)
  : FS (list XmitError) :=
  new_copyErrors ;;;
  _xmit fuel this fso false options ;;;
  return_copyErrors.

Definition move (fuel : nat) (this fso : Fso) (options : XmitOptions)
  : FS (list XmitError) :=
  new_copyErrors ;;;
  _xmit fuel this fso true options ;;;
  return_copyErrors.

(** [AbstractFileSystem._prepareXmit], [copy], [move] *)
Definition _prepareXmit (fromPath toPath : string) : FS (Fso * Fso) :=
  stats <- stat fromPath no_HeadOptions ;;
  ret (dispatch stats fromPath, dispatch stats toPath).

Definition fs_copy (fuel : nat) (fromPath toPath : string)
    (options : XmitOptions) : FS (list XmitError) :=
  ft <- _prepareXmit fromPath toPath ;;
  copy fuel (fst ft) (snd ft) options.

Definition fs_move (fuel : nat) (fromPath toPath : string)
    (options : XmitOptions) : FS (list XmitError) :=
  ft <- _prepareXmit fromPath toPath ;;
  move fuel (fst ft) (snd ft) options.

End WithBackend.
End Core.

(** * A reference backend kept in memory

    The core is abstract in its backend; concrete runs use this one: a
    table from normalized paths to nodes.  Opening a write stream in create
    mode makes an empty file, in overwrite mode empties the existing one;
    [_write] stores the bytes at the cursor. *)

Module MemFS.

Inductive Node : Type :=
| FileNode (content : list Byte.byte)
| DirNode.

Definition World : Type := list (string * Node).

Fixpoint lookup (path : string) (w : World) : option Node :=
  match w with
  | [] => None
  | (p, n) :: w' => if String.eqb p path then Some n else lookup path w'
  end.

Fixpoint remove (path : string) (w : World) : World :=
  match w with
  | [] => []
  | (p, n) :: w' =>
      if String.eqb p path then remove path w' else (p, n) :: remove path w'
  end.

Fixpoint update (path : string) (n : Node) (w : World) : World :=
  match w with
  | [] => [(path, n)]
  | (p, m) :: w' =>
      if String.eqb p path then (p, n) :: w' else (p, m) :: update path n w'
  end.

Definition exists_ (path : string) (w : World) : bool :=
  match lookup path w with Some _ => true | None => false end.

Definition content (path : string) (w : World) : option (list Byte.byte) :=
  match lookup path w with
  | Some (FileNode c) => Some c
  | _ => None
  end.

Definition stats_of (n : Node) : Stats :=
  match n with
  | FileNode c =>
      {| size := Some (Z.of_nat (length c)); accessed := None;
         modified := None |}
  | DirNode => {| size := None; accessed := None; modified := None |}
  end.

Definition is_child (dir : string) (entry : string * Node) : bool :=
  match Path.getParentPath (fst entry) with
  | Ok parent => String.eqb parent dir && negb (String.eqb (fst entry) "/")
  | _ => false
  end.

Definition backend : Backend World :=
  {| _head := fun path _ w =>
       match lookup path w with
       | Some n => (Ok (stats_of n), w)
       | None => (Throw NotFoundError, w)
       end;
     _delete := fun path _ w =>
       if exists_ path w then (Ok tt, remove path w)
       else (Throw NotFoundError, w);
     _list := fun path _ w =>
       match lookup path w with
       | Some DirNode => (Ok (map fst (filter (is_child path) w)), w)
       | Some (FileNode _) => (Throw NotReadableError, w)
       | None => (Throw NotFoundError, w)
       end;
     _mkcol := fun path _ w =>
       match lookup path w with
       | Some _ => (Ok tt, w)
       | None => (Ok tt, update path DirNode w)
       end;
     _openReadStream := fun path options w =>
       match lookup path w with
       | Some (FileNode _) =>
           (Ok {| rs_path := path; rs_options := options;
                  rs_position := 0; rs_handled := false |}, w)
       | Some DirNode => (Throw NotReadableError, w)
       | None => (Throw NotFoundError, w)
       end;
     _openWriteStream := fun path options w =>
       (Ok {| ws_path := path; ws_options := options;
              ws_position := 0; ws_handled := false |},
        update path (FileNode []) w);
     _read := fun rs w =>
       match content (rs_path rs) w with
       | Some c =>
           let chunk :=
             firstn (stream_bufferSize (bufferSize (rs_options rs)))
               (skipn (rs_position rs) c) in
           match chunk with
           | [] => (Ok (None, rs_position rs), w)
           | _ => (Ok (Some chunk, rs_position rs + length chunk), w)
           end
       | None => (Throw NotReadableError, w)
       end;
     _close_read := fun _ w => (Ok tt, w);
     _write := fun ws data w =>
       match content (ws_path ws) w with
       | Some c =>
           (Ok (length data),
            update (ws_path ws)
              (FileNode (firstn (ws_position ws) c ++ data
                         ++ skipn (ws_position ws + length data) c)) w)
       | None => (Throw NoModificationAllowedError, w)
       end;
     _close_write := fun _ w => (Ok tt, w) |}.

(** Bytes of an ASCII text *)
Definition bytes (s : string) : list Byte.byte := list_byte_of_string s.

(** [/a.txt] holding "hi", and the directory [/d] with the empty file
    [/d/e] and the file [/d/f]. *)
Definition sample : World :=
  [ ("/", DirNode);
    ("/a.txt", FileNode (bytes "hi"));
    ("/d", DirNode);
    ("/d/e", FileNode []);
    ("/d/f", FileNode (bytes "f")) ].

End MemFS.

(** * Sessions on a core.ts write stream

    A caller holds one [WriteStream] and calls its methods in some order,
    going on after a rejected call if it likes.  [write] and [setLength]
    assign [handled] as their last statement and [close] assigns nothing,
    so a call that throws leaves the object as it was. *)

Module WriteSession.
Section WithBackend.
Context {W : Type} (B : Backend W) (hook : Hook) (stack : nat).

Inductive Call : Type :=
| write (buffer : list Byte.byte)
| setLength (len : nat)
| close.

Definition is_mutating (c : Call) : bool :=
  match c with close => false | _ => true end.

Definition step (c : Call) (x : WriteStream * St W XmitError)
  : WriteStream * St W XmitError :=
  let (ws, s) := x in
  match c with
  | write buffer =>
      match Core.ws_write B ws buffer s with
      | (Ok ws', s') => (ws', s')
      | (_, s') => (ws, s')
      end
  | setLength len =>
      match Core.ws_setLength stack ws len s with
      | (Ok ws', s') => (ws', s')
      | (_, s') => (ws, s')
      end
  | close => (ws, snd (Core.ws_close B hook ws s))
  end.

Definition run (calls : list Call) (x : WriteStream * St W XmitError)
  : WriteStream * St W XmitError :=
  fold_left (fun x c => step c x) calls x.


(** The events of a session. *)
Definition events (calls : list Call) (ws : WriteStream)
    (s : St W XmitError) : list Event :=
  skipn (length (log s)) (log (snd (run calls (ws, s)))).

End WithBackend.
End WriteSession.

(** * AbstractWriteStream.ts *)

Module AbstractWriteStream.

(** The fields of the object: [file.path], [options], [position],
    [changed]. *)
Record Object : Type := {
  path : string;
  options : OpenWriteOptions;
  position : nat;
  changed : bool
}.

(** The abstract methods [_close], [_truncate], [_write]. *)
Record Subclass (W : Type) : Type := {
  _close : Object -> W -> Outcome unit * W;
  _truncate : Object -> nat -> W -> Outcome unit * W;
  _write : Object -> Source -> W -> Outcome nat * W
}.

(** The object is part of the state its methods run in. *)
Record State (W : Type) : Type := {
  this : Object;
  world : W;
  log : list Event
}.

Section WithSubclass.
Context {W : Type} (B : Subclass W) (hook : Hook).

Definition Method (A : Type) : Type := @M (State W) A.

Definition prim {A} (p : PrimName) (f : Object -> W -> Outcome A * W)
  : Method A :=
  fun s =>
    let (r, w) := f (this s) (world s) in
    (r, {| this := this s; world := w;
           log := log s ++ [EvPrim p (path (this s))] |}).

Definition call_hook (h : HookName) (cb : string -> Outcome unit)
  : Method unit :=
  fun s =>
    (cb (path (this s)),
     {| this := this s; world := world s;
        log := log s ++ [EvHook h (path (this s))] |}).

(** [await this.afterX(this.file.path)] for a registered callback *)
Definition call_cb (h : HookName) (cb : option (string -> Outcome unit))
  : Method unit :=
  match cb with
  | Some f => call_hook h f
  | None => ret tt
  end.

Definition get {A} (field : Object -> A) : Method A :=
  fun s => (Ok (field (this s)), s).

Definition set_position (n : nat) : Method unit :=
  fun s =>
    (Ok tt,
     {| this := {| path := path (this s); options := options (this s);
                   position := n; changed := changed (this s) |};
        world := world s; log := log s |}).

Definition set_changed (b : bool) : Method unit :=
  fun s =>
    (Ok tt,
     {| this := {| path := path (this s); options := options (this s);
                   position := position (this s); changed := b |};
        world := world s; log := log s |}).

Definition close : Method unit :=
  prim P_close_write (_close B) ;;;
  set_position 0 ;;;
  changed_ <- get changed ;;
  if negb changed_ then ret tt
  else
    o <- get options ;;
    if negb (w_ignoreHook o)
       && Core.registered (afterPost hook)
       && truthy_create o
    then call_cb afterPost_ (afterPost hook)
    else if negb (w_ignoreHook o)
            && Core.registered (afterPut hook)
            && negb (truthy_create o)
    then call_cb afterPut_ (afterPut hook)
    else ret tt.

Definition truncate (size : nat) : Method unit :=
  prim P_truncate (fun o => _truncate B o size) ;;;
  pos <- get position ;;
  (if Nat.ltb size pos then set_position size else ret tt) ;;;
  set_changed true.

Definition write (src : Source) : Method nat :=
  written_ <- prim P_write (fun o => _write B o src) ;;
  pos <- get position ;;
  set_position (pos + written_) ;;;
  set_changed true ;;;
  ret written_.

(** A session: the calls a holder of the stream makes, whatever the
    outcome of each. *)
Inductive Call : Type :=
| call_write (src : Source)
| call_truncate (size : nat)
| call_close.

Definition is_mutating (c : Call) : bool :=
  match c with call_close => false | _ => true end.

Definition step (c : Call) (s : State W) : State W :=
  match c with
  | call_write src => snd (write src s)
  | call_truncate size => snd (truncate size s)
  | call_close => snd (close s)
  end.

Definition run (calls : list Call) (s : State W) : State W :=
  fold_left (fun s c => step c s) calls s.

End WithSubclass.

(** The events of a session. *)
Definition events {W} (B : Subclass W) (hook : Hook) (calls : list Call)
    (s : State W) : list Event :=
  skipn (length (log s)) (log (run B hook calls s)).

(** A stream straight from its constructor. *)
Definition fresh {W} (p : string) (o : OpenWriteOptions) (w : W)
  : State W :=
  {| this := {| path := p; options := o; position := 0;
                changed := false |};
     world := w; log := [] |}.

End AbstractWriteStream.

(** * AbstractFile.ts: [_xmit] *)

Module AbstractFile_ts.

Record XmitOptions : Type := {
  force : bool;
  move : bool;
  bufferSize : option nat
}.

Section WithStreams.
(** AbstractFileSystemObject.ts and AbstractReadStream.ts of this
    revision are not among the sources: [head], [delete], the streams
    ([createReadStream] and [createWriteStream] below their hooks, [pipe],
    the two [close]) are taken as they come. *)
Context {W RS WS : Type}.
Local Abbreviation FS := (@M (St W XmitError)).
Context (head : string -> FS Stats)
        (delete : string -> FS unit)
        (createReadStream : string -> option nat -> FS RS)
        (createWriteStream : string -> bool -> option nat -> FS WS)
        (pipe : RS -> WS -> FS unit)
        (rs_close : RS -> FS unit)
        (ws_close : WS -> FS unit).

(** The part of [_xmit] that transfers the content. *)
Definition transfer (this to_ : string) (options : XmitOptions) : FS unit :=
  (if negb (force options) then
     (* [try { await to.head(); throw new PathExistsError(...) }
         catch (e) { if (!(e instanceof NotFoundError)) throw e }] *)
     try_catch
       (head to_ ;;; throw PathExistsError)
       (fun e => if instanceof_NotFoundError e then ret tt else throw e)
   else ret tt) ;;;
  rs <- createReadStream this (bufferSize options) ;;
  try_finally
    (create_ <- try_catch
                  (head to_ ;;; ret false)
                  (fun e =>
                     if instanceof_NotFoundError e then ret true
                     else throw e) ;;
     ws <- createWriteStream to_ create_ (bufferSize options) ;;
     try_finally (pipe rs ws) (ws_close ws))
    (rs_close rs).

Definition _xmit (this : string) (toFso : Fso) (options : XmitOptions)
  : FS unit :=
  head this ;;;
  match toFso with
  | AbstractDirectory _ => throw InvalidModificationError
  | AbstractFile to_ =>
      transfer this to_ options ;;;
      if move options then
        try_catch (delete this)
          (fun error =>
             push {| from := AbstractFile this; to := AbstractFile to_;
                     error := error |})
      else ret tt
  end.

End WithStreams.
End AbstractFile_ts.

(** * errors.ts *)

(** Modelled from the spec: [createError] of errors.ts, which is not among
    the sources.  The specification has every failure classified into
    exactly one kind of the taxonomy, and has [head] fail with [NotFound]
    or [TypeMismatch] where those arise and with [NotReadable] "for any
    other reason": an error that already belongs to the taxonomy keeps its
    kind, anything else is classified under the requested name. *)
Definition createError (name : Err) (e : option Err) : Err :=
  match e with
  | None => name
  | Some (BackendError _) => name
  | Some RangeError => name
  | Some classified => classified
  end.

(** * src/unnamed/part_000: AbstractFile with [getSource] and [write] *)

Module Part000.

(** [options?: WriteOptions]; [None] is a field left out. *)
Record WriteOptions : Type := {
  append : option bool;
  create : option bool
}.

(** What the class gets from elsewhere: [head] is [AbstractEntry.head]
    (the stat of this entry through its file system), [_getSource] and
    [_write] are the abstract methods. *)
Record Subclass (W : Type) : Type := {
  head : string -> W -> Outcome Stats * W;
  _getSource : string -> OpenOptions -> W -> Outcome Source * W;
  _write : string -> Source -> WriteOptions -> W -> Outcome unit * W
}.

Record Hook : Type := {
  beforeGet : option (string -> OpenOptions -> Outcome (option Source));
  afterGet : option (string -> Source -> Called unit);
  beforePost : option (string -> Source -> WriteOptions -> Outcome bool);
  afterPost : option (string -> Source -> Called unit);
  beforePut : option (string -> Source -> WriteOptions -> Outcome bool);
  afterPut : option (string -> Source -> Called unit)
}.

Section WithSubclass.
Context {W : Type} (B : Subclass W) (hook : Hook)
        (createError : Err -> option Err -> Err).

Definition FS (A : Type) : Type := @M (St W Err) A.

(** What [beforeGet] yields: [Ok None] when ignored or absent. *)
Definition supplied (path : string) (options : OpenOptions)
  : Outcome (option Source) :=
  if negb (open_ignoreHook options) then
    match beforeGet hook with
    | Some h => h path options
    | None => Ok None
    end
  else Ok None.

(** [getSource]: [afterGet] is called without [await]: what the
    callback throws itself is thrown by [getSource], the rejection of
    the promise it returns goes to [console.warn]. *)
Definition getSource (path : string) (options : OpenOptions) : FS Source :=
  let ignoreHook := open_ignoreHook options in
  source <- (if negb ignoreHook then
               match beforeGet hook with
               | Some h => call_hook beforeGet_ path (h path options)
               | None => ret None
               end
             else ret None) ;;
  source <- match source with
            | Some src =>
                if truthy_Source src then ret src       (* [!source] *)
                else prim (EvPrim P_getSource path)
                       (_getSource B path options)
            | None =>
                prim (EvPrim P_getSource path) (_getSource B path options)
            end ;;
  (if negb ignoreHook then
     match afterGet hook with
     | Some h => call_unawaited afterGet_ path (h path source) ;;; ret tt
     | None => ret tt
     end
   else ret tt) ;;;
  ret source.

(** [options?.create] and [options?.append] *)
Definition opt_create (options : option WriteOptions) : option bool :=
  match options with Some o => create o | None => None end.
Definition opt_append (options : option WriteOptions) : option bool :=
  match options with Some o => append o | None => None end.

(** The [catch (e)] clause of [write]; it yields the value of [create]. *)
Definition write_catch (options : option WriteOptions) (e : Err) : FS bool :=
  if Err_eqb e NotFoundError then
    match opt_create options with
    | Some false => throw (createError NotFoundError (Some e))
    | _ => ret true
    end
  else throw (createError NotReadableError (Some e)).

(** [write]: the [PathExistError] is thrown inside the [try] block, so
    it passes through the [catch] clause like a failure of [head].  The
    after hooks are called without [await], as in [getSource]. *)
Definition write (path : string) (src : Source)
    (options : option WriteOptions) : FS unit :=
  create_ <-
    (st <- try_catch
             (prim (EvPrim P_head path) (head B path) ;;; ret None)
             (fun e => ret (Some e)) ;;
     match st with
     | Some e => write_catch options e
     | None =>
         match opt_create options with
         | Some true =>
             write_catch options (createError PathExistsError None)
         | _ => ret false
         end
     end) ;;
  let options :=
    {| append := Some (match opt_append options with
                       | Some b => b
                       | None => false
                       end);
       create := Some create_ |} in
  handled <-
    (if create_ : bool then
       match beforePost hook with
       | Some h => call_hook beforePost_ path (h path src options)
       | None => ret false
       end
     else
       match beforePut hook with
       | Some h => call_hook beforePut_ path (h path src options)
       | None => ret false
       end) ;;
  if handled : bool then ret tt
  else
    prim (EvPrim P_write path) (_write B path src options) ;;;
    if create_ then
      match afterPost hook with
      | Some h => call_unawaited afterPost_ path (h path src) ;;; ret tt
      | None => ret tt
      end
    else
      match afterPut hook with
      | Some h => call_unawaited afterPut_ path (h path src) ;;; ret tt
      | None => ret tt
      end.

(** [write] from [options = { append: options?.append ?? false, create }]
    on, that is once the [try] statement has settled [create]. *)
Definition write_in_mode (create_ : bool) (path : string) (src : Source)
    (options : option WriteOptions) : FS unit :=
  let options :=
    {| append := Some (match opt_append options with
                       | Some b => b
                       | None => false
                       end);
       create := Some create_ |} in
  handled <-
    (if create_ then
       match beforePost hook with
       | Some h => call_hook beforePost_ path (h path src options)
       | None => ret false
       end
     else
       match beforePut hook with
       | Some h => call_hook beforePut_ path (h path src options)
       | None => ret false
       end) ;;
  if handled : bool then ret tt
  else
    prim (EvPrim P_write path) (_write B path src options) ;;;
    if create_ then
      match afterPost hook with
      | Some h => call_unawaited afterPost_ path (h path src) ;;; ret tt
      | None => ret tt
      end
    else
      match afterPut hook with
      | Some h => call_unawaited afterPut_ path (h path src) ;;; ret tt
      | None => ret tt
      end.

End WithSubclass.
End Part000.

(** * src/unnamed/part_006: AbstractFileSystem.head *)

Module Part006.

Inductive EntryType : Type := File | Directory.

Record HeadOptions : Type := {
  ignoreHook : bool;
  type : option EntryType
}.

Record Subclass (W : Type) : Type := {
  _head : string -> HeadOptions -> W -> Outcome Stats * W;
  supportDirectory : bool
}.

Record Hook : Type := {
  beforeHead : option (string -> HeadOptions -> Outcome (option Stats));
  afterHead : option (string -> Stats -> Outcome unit)
}.

(** [path.endsWith("/")] *)
Fixpoint endsWith_slash (path : string) : bool :=
  match path with
  | EmptyString => false
  | String c EmptyString => Ascii.eqb c "/"%char
  | String _ rest => endsWith_slash rest
  end.

Definition is_type (t : EntryType) (o : HeadOptions) : bool :=
  match type o, t with
  | Some File, File | Some Directory, Directory => true
  | _, _ => false
  end.

(** [stats.size != null] *)
Definition has_size (stats : Stats) : bool :=
  match size stats with Some _ => true | None => false end.

(** [if (!options.type) { if (path.endsWith("/")) options.type = Directory }] *)
Definition with_type (path : string) (options : HeadOptions) : HeadOptions :=
  match type options with
  | None =>
      if endsWith_slash path
      then {| ignoreHook := ignoreHook options; type := Some Directory |}
      else options
  | Some _ => options
  end.

(** The object [{}] *)
Definition empty_Stats : Stats :=
  {| size := None; accessed := None; modified := None |}.

Section WithSubclass.
Context {W : Type} (B : Subclass W) (hook : Hook)
        (createError : Err -> option Err -> Err)
        (INVALID_CHARS : string -> bool).

Definition FS (A : Type) : Type := @M (St W Err) A.

(** What [beforeHead] yields: [Ok None] when ignored or absent. *)
Definition supplied (checked : string) (options : HeadOptions)
  : Outcome (option Stats) :=
  if negb (ignoreHook options) then
    match beforeHead hook with
    | Some h => h checked options
    | None => Ok None
    end
  else Ok None.

(** [errors] tells whether the caller handed in an array. *)
Definition _handleFileSystemError (error : Err) (errors : bool) : FS unit :=
  if errors then push error else throw error.

Definition _handleError (name : Err) (errors : bool) (e : option Err)
  : FS unit :=
  _handleFileSystemError (createError name e) errors.

(** [_checkPath(path)] as [head] calls it, without an array *)
Definition _checkPath (path : string) : FS string :=
  if INVALID_CHARS path then
    _handleError SyntaxError false None ;;; ret path
  else await (Path.normalizePath path).

(** The [try] block of [head] *)
Definition head_try (path : string) (options : HeadOptions) : FS Stats :=
  let options := with_type path options in
  checked <- _checkPath path ;;
  if is_type Directory options && negb (supportDirectory B)
  then ret empty_Stats
  else
    stats <- (if negb (ignoreHook options) then
                match beforeHead hook with
                | Some h => call_hook beforeHead_ checked (h checked options)
                | None => ret None
                end
              else ret None) ;;
    stats <- match stats with
             | Some st => ret st
             | None => prim (EvPrim P_head checked) (_head B checked options)
             end ;;
    if has_size stats && is_type Directory options
    then throw (createError TypeMismatchError None)
    else if negb (has_size stats) && is_type File options
    then throw (createError TypeMismatchError None)
    else
      (if negb (ignoreHook options) then
         match afterHead hook with
         | Some h => call_hook afterHead_ checked (h checked stats)
         | None => ret tt
         end
       else ret tt) ;;;
      ret stats.

(** [head]: [None] is the [null] returned after the error went into the
    caller's array. *)
Definition head (path : string) (options : HeadOptions) (errors : bool)
  : FS (option Stats) :=
  try_catch
    (stats <- head_try path options ;; ret (Some stats))
    (fun e => _handleError NotReadableError errors (Some e) ;;; ret None).

End WithSubclass.
End Part006.

(** * src/unnamed/part_007: AbstractDirectory._xmit *)

Module Part007.

(** [{ ...e, from: fromPath, to: toPath }]; [to] is [undefined] while
    [toPath] has not been assigned. *)
Record ErrorLike : Type := {
  error : Err;
  from : string;
  to : option string
}.

Record XmitOptions : Type := {
  force : bool;
  recursive : bool;
  ignoreHook : bool
}.

Definition FS (W A : Type) : Type := @M (St W ErrorLike) A.

Section WithFileSystem.
(** The file system and the entries of this revision are not among the
    sources: [head], [mkcol], [list], [getFile], [getDirectory] and the
    dispatched [_xmit] of the children are taken as they come. *)
Context {W : Type}.
Local Abbreviation FS := (FS W).
Context (head : string -> XmitOptions -> FS Stats)
        (mkcol : string -> XmitOptions -> FS unit)
        (list_ : string -> FS (list string))
        (getFile getDirectory : string -> FS Fso)
        (xmit : Fso -> Fso -> XmitOptions -> FS unit).

(** [stats.size != null ? this.fs.getFile(p) : this.fs.getDirectory(p)] *)
Definition dispatch (stats : Stats) (p : string) : FS Fso :=
  match size stats with
  | Some _ => getFile p
  | None => getDirectory p
  end.

(** The body of the [for] loop: everything is inside the [try]; the
    [catch] clause sees [toPath] as assigned so far. *)
Definition xmit_child (toDir : string) (options : XmitOptions)
    (fromPath : string) : FS unit :=
  try_catch
    (stats <- head fromPath options ;;
     fromEntry <- dispatch stats fromPath ;;
     name <- await (Path.getName fromPath) ;;
     toPath <- await (Path.joinPaths toDir name) ;;
     try_catch
       (toEntry <- dispatch stats toPath ;;
        xmit fromEntry toEntry options)
       (fun e =>
          push {| error := e; from := fromPath; to := Some toPath |}))
    (fun e => push {| error := e; from := fromPath; to := None |}).

Definition _xmit (this : string) (to_ : Fso) (options : XmitOptions)
  : FS unit :=
  match to_ with
  | AbstractFile _ => throw TypeMismatchError
  | AbstractDirectory toDir =>
      mkcol toDir
        {| force := force options; recursive := false;
           ignoreHook := ignoreHook options |} ;;;
      if negb (recursive options) then ret tt
      else
        fromPaths <- list_ this ;;
        for_of fromPaths (xmit_child toDir options)
  end.

End WithFileSystem.
End Part007.

(** * Concrete hooks, backends and runs used below *)

Module Instances.

Definition some_stats : Stats :=
  {| size := Some 2%Z; accessed := None; modified := None |}.

(** A caching [beforeHead] that answers every path, with an [afterHead]
    that only observes. *)
Definition caching_hook : Hook :=
  {| beforeHead := Some (fun _ _ => Ok (Some some_stats));
     afterHead := Some (fun _ _ => Ok tt);
     beforeDelete := None; afterDelete := None;
     beforeList := None; afterList := None;
     beforeMkcol := None; afterMkcol := None;
     beforeGet := None; afterGet := None;
     beforePost := None; afterPost := None;
     beforePut := None; afterPut := None |}.

(** Observers on every after hook, no before hook. *)
Definition observing_hook : Hook :=
  {| beforeHead := None;
     afterHead := Some (fun _ _ => Ok tt);
     beforeDelete := None; afterDelete := Some (fun _ => Ok tt);
     beforeList := None; afterList := Some (fun _ _ => Ok tt);
     beforeMkcol := None; afterMkcol := Some (fun _ => Ok tt);
     beforeGet := None; afterGet := Some (fun _ => returns (Ok tt));
     beforePost := None; afterPost := Some (fun _ => Ok tt);
     beforePut := None; afterPut := Some (fun _ => Ok tt) |}.

(** The in-memory backend with one path whose stat is refused. *)
Definition denying (denied : string) : Backend MemFS.World :=
  {| _head := fun path o w =>
       if String.eqb path denied then (Throw NotReadableError, w)
       else _head MemFS.backend path o w;
     _delete := _delete MemFS.backend;
     _list := _list MemFS.backend;
     _mkcol := _mkcol MemFS.backend;
     _openReadStream := _openReadStream MemFS.backend;
     _openWriteStream := _openWriteStream MemFS.backend;
     _read := _read MemFS.backend;
     _close_read := _close_read MemFS.backend;
     _write := _write MemFS.backend;
     _close_write := _close_write MemFS.backend |}.

Definition start : St MemFS.World XmitError := init_St MemFS.sample.

Definition default_XmitOptions : XmitOptions := {| x_bufferSize := None |}.

(** The subclass of AbstractWriteStream.ts on the in-memory world: every
    primitive succeeds, [_write] reports the length of a text. *)
Definition mem_stream : AbstractWriteStream.Subclass MemFS.World :=
  {| AbstractWriteStream._close := fun _ w => (Ok tt, w);
     AbstractWriteStream._truncate := fun _ _ w => (Ok tt, w);
     AbstractWriteStream._write := fun _ src w =>
       (Ok (match src with
            | Text t => String.length t
            | Binary b => length b
            | Encoded v _ => String.length v
            end), w) |}.

Definition overwrite_options : OpenWriteOptions :=
  {| w_bufferSize := None; w_ignoreHook := false; create := Some false |}.

(** part_000 on the in-memory world: a file's source is its bytes. *)
Definition mem_file : Part000.Subclass MemFS.World :=
  {| Part000.head := fun path w => _head MemFS.backend path no_HeadOptions w;
     Part000._getSource := fun path _ w =>
       match MemFS.content path w with
       | Some c => (Ok (Binary c), w)
       | None => (Throw NotFoundError, w)
       end;
     Part000._write := fun path src _ w =>
       (Ok tt,
        MemFS.update path
          (MemFS.FileNode
             (match src with
              | Text t => MemFS.bytes t
              | Binary b => b
              | Encoded v _ => MemFS.bytes v
              end)) w) |}.

(** A [beforeGet] that serves a cached, empty text. *)
Definition empty_text_hook : Part000.Hook :=
  {| Part000.beforeGet := Some (fun _ _ => Ok (Some (Text "")));
     Part000.afterGet := None;
     Part000.beforePost := None; Part000.afterPost := None;
     Part000.beforePut := None; Part000.afterPut := None |}.

(** A read stream as [_openReadStream] hands it out: nothing read yet. *)
Definition unread_stream : ReadStream :=
  {| rs_path := "/a.txt";
     rs_options := {| bufferSize := None; open_ignoreHook := false |};
     rs_position := 0; rs_handled := false |}.

Definition write_options (c : option bool) : OpenWriteOptions :=
  {| w_bufferSize := None; w_ignoreHook := false; create := c |}.

Definition default_OpenOptions : OpenOptions :=
  {| bufferSize := None; open_ignoreHook := false |}.

(** The in-memory backend with a [_close] of read streams that rejects. *)
Definition failing_close : Backend MemFS.World :=
  {| _head := _head MemFS.backend;
     _delete := _delete MemFS.backend;
     _list := _list MemFS.backend;
     _mkcol := _mkcol MemFS.backend;
     _openReadStream := _openReadStream MemFS.backend;
     _openWriteStream := _openWriteStream MemFS.backend;
     _read := _read MemFS.backend;
     _close_read := fun _ w => (Throw NotReadableError, w);
     _write := _write MemFS.backend;
     _close_write := _close_write MemFS.backend |}.

(** part_006 on the in-memory world, directories supported. *)
Definition mem_fs : Part006.Subclass MemFS.World :=
  {| Part006._head := fun path _ w =>
       _head MemFS.backend path no_HeadOptions w;
     Part006.supportDirectory := true |}.

Definition no_later_hook : Part006.Hook :=
  {| Part006.beforeHead := None; Part006.afterHead := None |}.

Definition later_HeadOptions : Part006.HeadOptions :=
  {| Part006.ignoreHook := false; Part006.type := None |}.

(** An [INVALID_CHARS] that matches the backslash only. *)
Fixpoint has_backslash (path : string) : bool :=
  match path with
  | EmptyString => false
  | String c rest => Ascii.eqb c "\"%char || has_backslash rest
  end.

Definition no_WriteOptions : option Part000.WriteOptions := None.

Definition whole_options (c : option bool) : option Part000.WriteOptions :=
  Some {| Part000.append := None; Part000.create := c |}.

Definition no_file_hook : Part000.Hook :=
  {| Part000.beforeGet := None; Part000.afterGet := None;
     Part000.beforePost := None; Part000.afterPost := None;
     Part000.beforePut := None; Part000.afterPut := None |}.

End Instances.

(** * Statements that are refuted below *)

Module Statements.

(** "When the before hook supplies the result, the after hook does not
    fire", for [head]. *)
Definition after_hook_silent_on_short_circuit : Prop :=
  forall (W : Type) (B : Backend W) (hook : Hook) (path : string)
         (options : HeadOptions) (s : St W XmitError) (st : Stats),
    Core.supplied (head_ignoreHook options) (beforeHead hook) path options
    = Ok (Some st) ->
    ~ In (EvHook afterHead_ path) (trace (Core.head B hook path options) s).

(** "Wherever copy/move dispatches on Stats, an entry whose Stats carry a
    defined size, 0 included, is treated as a File", for the dispatch of
    core.ts. *)
Definition defined_size_is_File : Prop :=
  forall (stats : Stats) (n : Z) (p : string),
    size stats = Some n -> Core.dispatch stats p = AbstractFile p.

(** "Opening a write stream with create === false on a path that does not
    exist fails with NotFound", for [openWriteStream] of core.ts; a path
    does not exist when the backend's [_head] raises [NotFoundError] for
    it. *)
Definition create_false_on_absent_path_fails : Prop :=
  forall (W : Type) (B : Backend W) (hook : Hook) (path : string)
         (options : OpenWriteOptions) (s : St W XmitError),
    fst (_head B path no_HeadOptions (world s)) = Throw NotFoundError ->
    create options = Some false ->
    fst (Core.openWriteStream B hook path options s) = Throw NotFoundError.

(** "For every path that does not exist in the backend, head on that path
    fails with a NotFound error", for [head] of core.ts. *)
Definition head_of_absent_path_fails : Prop :=
  forall (W : Type) (B : Backend W) (hook : Hook) (path : string)
         (options : HeadOptions) (s : St W XmitError),
    fst (_head B path options (world s)) = Throw NotFoundError ->
    fst (Core.head B hook path options s) = Throw NotFoundError.

(** "For every read stream with a registered afterGet hook and ignoreHook
    not set, close() always invokes the afterGet hook". *)
Definition close_always_invokes_afterGet : Prop :=
  forall (W : Type) (B : Backend W) (hook : Hook) (rs : ReadStream)
         (s : St W XmitError) (h : string -> Called unit),
    open_ignoreHook (rs_options rs) = false ->
    afterGet hook = Some h ->
    In (EvHook afterGet_ (rs_path rs)) (trace (Core.rs_close B hook rs) s).

End Statements.

(** * Path segments *)

Module Segments.

(** [s.includes(c)] for a character *)
Fixpoint contains (c : ascii) (s : string) : bool :=
  match s with
  | EmptyString => false
  | String d s' => Ascii.eqb d c || contains c s'
  end.

(** A name that [getPathParts] keeps as it is: not empty, not ["."], not
    [".."], no separator inside. *)
Definition is_name (part : string) : bool :=
  negb (String.eqb part "")
  && negb (String.eqb part ".")
  && negb (String.eqb part "..")
  && negb (contains "/"%char part).

End Segments.

(** * util.ts: [toHex] *)

Module Hex.

(** [n.toString(16)] for a non-negative integer *)
Definition toString16 (n : N) : string :=
  match n with
  | N0 => "0"
  | Npos p => HexString.Raw.of_pos p ""
  end.

(** [`${a[i]}`] and [a[i]] used as a string: an index past the end gives
    [undefined]. *)
Definition at_index (a : list string) (i : N) : string :=
  nth (N.to_nat i) a "undefined".

(** [for (let n = 0; n < 0x10; n++) LUT_HEX_4b[n] = n.toString(16)] *)
Definition LUT_HEX_4b : list string :=
  map (fun n => toString16 (N.of_nat n)) (seq 0 16).

(** [LUT_HEX_8b[n] = `${LUT_HEX_4b[(n >>> 4) & 0xf]}${LUT_HEX_4b[n & 0xf]}`] *)
Definition LUT_HEX_8b : list string :=
  map (fun n =>
         at_index LUT_HEX_4b (N.land (N.shiftr (N.of_nat n) 4) 15)
         ++ at_index LUT_HEX_4b (N.land (N.of_nat n) 15))
    (seq 0 256).

(** [u8.reduce((result, i) => result + LUT_HEX_8b[i], "")]; the elements
    of a [Uint8Array] are bytes. *)
Definition toHex (u8 : list Byte.byte) : string :=
  fold_left (fun result i => result ++ at_index LUT_HEX_8b (Byte.to_N i))
    u8 "".

End Hex.

(** * src/unnamed/part_001: AbstractStream.seek *)

Module AbstractStream.

(** The numbers [seek] computes with: the integers among the IEEE
    doubles, the two infinities their sums can overflow to, and [NaN],
    which is what [+] and [<] make of [undefined].  [Int 0] stands for
    both zeros, which [<] and [===] do not tell apart. *)
Inductive Num : Type :=
| Int (z : Z)
| PosInf
| NegInf
| NaN.

(** Rounding of an integer to 53 significant bits, to nearest, ties to
    even: below [2^53] every integer is a double, from there on the
    doubles are the multiples of [2^e] that have 53 bits. *)
Definition round53 (z : Z) : Z :=
  let a := Z.abs z in
  if (a <? 2 ^ 53)%Z then z
  else
    let e := (Z.log2 a - 52)%Z in
    let q := (a / 2 ^ e)%Z in
    let r := (a mod 2 ^ e)%Z in
    let half := (2 ^ (e - 1))%Z in
    let q' := if (r <? half)%Z then q
              else if (half <? r)%Z then (q + 1)%Z
              else if Z.even q then q else (q + 1)%Z in
    (Z.sgn z * (q' * 2 ^ e))%Z.

(** The integer is a double: it has at most 53 significant bits and is
    below [2^1024]. *)
Definition is_double (z : Z) : bool :=
  (round53 z =? z)%Z && (Z.abs z <? 2 ^ 1024)%Z.

(** The double nearest to an integer; what rounds to [2^1024] or beyond
    is an infinity. *)
Definition number (z : Z) : Num :=
  let r := round53 z in
  if (2 ^ 1024 <=? r)%Z then PosInf
  else if (r <=? - 2 ^ 1024)%Z then NegInf
  else Int r.

(** [a + b] *)
Definition add (a b : Num) : Num :=
  match a, b with
  | Int x, Int y => number (x + y)
  | NaN, _ | _, NaN => NaN
  | PosInf, NegInf | NegInf, PosInf => NaN
  | PosInf, _ | _, PosInf => PosInf
  | NegInf, _ | _, NegInf => NegInf
  end.

(** [a < b]: false as soon as one side is [NaN] *)
Definition lt (a b : Num) : bool :=
  match a, b with
  | NaN, _ | _, NaN => false
  | Int x, Int y => (x <? y)%Z
  | NegInf, NegInf => false
  | NegInf, _ => true
  | _, NegInf => false
  | PosInf, _ => false
  | Int _, PosInf => true
  end.

Inductive SeekOrigin : Type := Begin | Current | End_.

(** [stats.size as number]: the cast does nothing, an absent size stays
    [undefined] and enters the computation as [NaN]. *)
Definition size_as_number (stats : Stats) : Num :=
  match size stats with
  | Some n => Int n
  | None => NaN
  end.

(** [this.file.head()] and the abstract [_seek]. *)
Record Subclass (W : Type) : Type := {
  head : W -> Outcome Stats * W;
  _seek : Num -> W -> Outcome unit * W
}.

(** The stream's [position], the backend's world and the arguments
    [_seek] has been called with. *)
Record State (W : Type) : Type := {
  position : Num;
  world : W;
  sought : list Num
}.

Section WithSubclass.
Context {W : Type} (B : Subclass W).

Definition Method (A : Type) : Type := @M (State W) A.

Definition file_head : Method Stats :=
  fun s =>
    let (r, w) := head B (world s) in
    (r, {| position := position s; world := w; sought := sought s |}).

Definition call_seek (start : Num) : Method unit :=
  fun s =>
    let (r, w) := _seek B start (world s) in
    (r, {| position := position s; world := w;
           sought := sought s ++ [start] |}).

Definition get_position : Method Num := fun s => (Ok (position s), s).

Definition set_position (n : Num) : Method unit :=
  fun s => (Ok tt, {| position := n; world := world s; sought := sought s |}).

(** The clamping of [start]:
    [if (start < 0) start = 0; else if (size < start) start = size;] *)
Definition clamp (size start : Num) : Num :=
  if lt start (Int 0) then Int 0
  else if lt size start then size
  else start.

Definition seek (offset : Num) (origin : SeekOrigin) : Method unit :=
  stats <- file_head ;;
  let size := size_as_number stats in
  pos <- get_position ;;
  let start :=
    match origin with
    | Begin => offset
    | Current => add pos offset
    | End_ => add size offset
    end in
  let start := clamp size start in
  set_position start ;;;
  call_seek start.

End WithSubclass.

(** A stream on a file of [2^54] bytes whose [_seek] always succeeds. *)
Definition huge : Subclass unit :=
  {| head := fun w =>
       (Ok {| size := Some (2 ^ 54)%Z; accessed := None;
              modified := None |}, w);
     _seek := fun _ w => (Ok tt, w) |}.

(** A stream on a file of ten bytes whose [_seek] always succeeds. *)
Definition ten_bytes : Subclass unit :=
  {| head := fun w =>
       (Ok {| size := Some 10%Z; accessed := None; modified := None |}, w);
     _seek := fun _ w => (Ok tt, w) |}.

End AbstractStream.

(** * Hook sets used in the statements about hooks *)

Module HookSets.

(** A hook set that only observes: every before hook declines ([null],
    [false]), every after hook that is awaited resolves, and [afterGet],
    which is not awaited, returns its promise (instead of throwing),
    whatever the promise settles to. *)
Definition observes (hook : Hook) : Prop :=
  (forall h path o, beforeHead hook = Some h -> h path o = Ok None)
  /\ (forall h path st, afterHead hook = Some h -> h path st = Ok tt)
  /\ (forall h path o, beforeDelete hook = Some h -> h path o = Ok false)
  /\ (forall h path, afterDelete hook = Some h -> h path = Ok tt)
  /\ (forall h path o, beforeList hook = Some h -> h path o = Ok None)
  /\ (forall h path l, afterList hook = Some h -> h path l = Ok tt)
  /\ (forall h path o, beforeMkcol hook = Some h -> h path o = Ok false)
  /\ (forall h path, afterMkcol hook = Some h -> h path = Ok tt)
  /\ (forall h path o, beforeGet hook = Some h -> h path o = Ok None)
  /\ (forall h path o, beforePost hook = Some h -> h path o = Ok None)
  /\ (forall h path, afterPost hook = Some h -> h path = Ok tt)
  /\ (forall h path o, beforePut hook = Some h -> h path o = Ok None)
  /\ (forall h path, afterPut hook = Some h -> h path = Ok tt)
  /\ (forall h path, afterGet hook = Some h -> exists o, h path = returns o).

(** Observers on every hook, before hooks included; the promise of
    [afterGet] rejects. *)
Definition watching_hook : Hook :=
  {| beforeHead := Some (fun _ _ => Ok None);
     afterHead := Some (fun _ _ => Ok tt);
     beforeDelete := Some (fun _ _ => Ok false);
     afterDelete := Some (fun _ => Ok tt);
     beforeList := Some (fun _ _ => Ok None);
     afterList := Some (fun _ _ => Ok tt);
     beforeMkcol := Some (fun _ _ => Ok false);
     afterMkcol := Some (fun _ => Ok tt);
     beforeGet := Some (fun _ _ => Ok None);
     afterGet := Some (fun _ => returns (Throw (BackendError "observer")));
     beforePost := Some (fun _ _ => Ok None);
     afterPost := Some (fun _ => Ok tt);
     beforePut := Some (fun _ _ => Ok None);
     afterPut := Some (fun _ => Ok tt) |}.

(** A [beforeDelete] and a [beforeMkcol] that take the operation over. *)
Definition taking_over_hook : Hook :=
  {| beforeHead := None; afterHead := None;
     beforeDelete := Some (fun _ _ => Ok true);
     afterDelete := Some (fun _ => Ok tt);
     beforeList := None; afterList := None;
     beforeMkcol := Some (fun _ _ => Ok true);
     afterMkcol := Some (fun _ => Ok tt);
     beforeGet := None; afterGet := None;
     beforePost := None; afterPost := None;
     beforePut := None; afterPut := None |}.

(** An [afterDelete] that rejects. *)
Definition rejecting_afterDelete : Hook :=
  {| beforeHead := None; afterHead := None;
     beforeDelete := None;
     afterDelete := Some (fun _ => Throw (BackendError "journal"));
     beforeList := None; afterList := None;
     beforeMkcol := None; afterMkcol := None;
     beforeGet := None; afterGet := None;
     beforePost := None; afterPost := None;
     beforePut := None; afterPut := None |}.

(** An [afterGet] that throws instead of returning a promise. *)
Definition throwing_afterGet : Hook :=
  {| beforeHead := None; afterHead := None;
     beforeDelete := None; afterDelete := None;
     beforeList := None; afterList := None;
     beforeMkcol := None; afterMkcol := None;
     beforeGet := None;
     afterGet := Some (fun _ => throws (BackendError "observer"));
     beforePost := None; afterPost := None;
     beforePut := None; afterPut := None |}.

(** Write options with [ignoreHook] set. *)
Definition ignoring (c : option bool) : OpenWriteOptions :=
  {| w_bufferSize := None; w_ignoreHook := true; create := c |}.

End HookSets.

(** * Runs that differ in their logs only *)

Module Similar.
Section WithState.
Context {W E : Type}.

(** Two states with the same world and the same collected errors. *)
Definition same (s1 s2 : St W E) : Prop :=
  world s1 = world s2 /\ copyErrors s1 = copyErrors s2.

(** Two computations that, started in such states, settle alike and end
    in such states. *)
Definition alike {A} (m1 m2 : @M (St W E) A) : Prop :=
  forall s1 s2,
    same s1 s2 ->
    fst (m1 s1) = fst (m2 s2) /\ same (snd (m1 s1)) (snd (m2 s2)).

End WithState.
End Similar.

(** * core.ts: [AbstractFile.hash] *)

Module Hashing.

(** Modelled from the spec: [toUint8Array] of util/buffer, which is not
    among the sources.  The specification has the content hash built by
    driving a stream end to end, and equal for files with identical
    bytes: the view of a buffer holds the buffer's bytes. *)
Definition toUint8Array (buffer : list Byte.byte) : list Byte.byte := buffer.

Section WithHash.
Context {W : Type} (B : Backend W) (hook : Hook).
(** [createHash()] of the package sha256-uint8array: an incremental hash
    with [update] and [digest]. *)
Context {H : Type} (createHash : H)
        (update : H -> list Byte.byte -> H)
        (digest : H -> list Byte.byte).

(** [while ((buffer = await rs.read()) != null) hash.update(toUint8Array(buffer))];
    [read] assigns fields of the stream object, so the loop goes on with
    the object as [read] left it. *)
Fixpoint hash_loop (fuel : nat) (rs : ReadStream) (hash : H)
  : Core.FS H :=
  match fuel with
  | 0 => diverge
  | S fuel' =>
      r <- Core.rs_read B rs ;;
      match fst r with
      | Some buffer =>
          hash_loop fuel' (snd r) (update hash (toUint8Array buffer))
      | None => ret hash
      end
  end.

(** [hash(bufferSize)]; [rs.close()] in the [finally] block is not
    awaited.  [close] looks at the path and the options of the stream,
    which [read] never assigns. *)
Definition hash (fuel : nat) (path : string) (bufferSize_ : option nat)
  : Core.FS string :=
  rs <- Core.openReadStream B hook path
          {| bufferSize := bufferSize_; open_ignoreHook := false |} ;;
  try_finally
    (h <- hash_loop fuel rs createHash ;;
     ret (Hex.toHex (digest h)))
    (no_await (Core.rs_close B hook rs) ;;; ret tt).

(** Successive reads of the stream deliver the chunks [cs], then [null]. *)
Inductive delivers
  : ReadStream -> St W XmitError -> list (list Byte.byte) -> Prop :=
| delivers_null rs s rs' s' :
    Core.rs_read B rs s = (Ok (None, rs'), s') ->
    delivers rs s []
| delivers_chunk rs s c rs1 s1 cs :
    Core.rs_read B rs s = (Ok (Some c, rs1), s1) ->
    delivers rs1 s1 cs ->
    delivers rs s (c :: cs).

End WithHash.

(** A stand-in for the hash function that keeps what it is fed. *)
Definition keep_all : list Byte.byte -> list Byte.byte -> list Byte.byte :=
  fun h buffer => (h ++ buffer)%list.

End Hashing.

(** * Hook sets of the whole-file operations (part_000) *)

Module WholeFileHookSets.



(** An [afterPut] that throws instead of returning a promise. *)
Definition throwing_afterPut : Part000.Hook :=
  {| Part000.beforeGet := None; Part000.afterGet := None;
     Part000.beforePost := None; Part000.afterPost := None;
     Part000.beforePut := None;
     Part000.afterPut :=
       Some (fun _ _ => throws (BackendError "observer")) |}.

End WholeFileHookSets.

(** * src/unnamed/part_006: [_fixProps] *)

Module Props.

(** The JavaScript values a [Stats] object holds.  The numbers are the
    integers (sizes, times in milliseconds) and [NaN], the one number
    that is not [===] to itself; [VObject] stands for any object,
    compared by identity. *)
Inductive Value : Type :=
| VUndefined
| VNull
| VNumber (n : Z)
| VNaN
| VString (s : string)
| VBoolean (b : bool)
| VObject (identity : nat).

(** [typeof v] *)
Definition typeof (v : Value) : string :=
  match v with
  | VUndefined => "undefined"
  | VNull => "object"
  | VNumber _ => "number"
  | VNaN => "number"
  | VString _ => "string"
  | VBoolean _ => "boolean"
  | VObject _ => "object"
  end.

(** [a === b]: [NaN] is not equal to anything, itself included *)
Definition strict_eq (a b : Value) : bool :=
  match a, b with
  | VUndefined, VUndefined => true
  | VNull, VNull => true
  | VNumber x, VNumber y => (x =? y)%Z
  | VString x, VString y => String.eqb x y
  | VBoolean x, VBoolean y => Bool.eqb x y
  | VObject x, VObject y => Nat.eqb x y
  | _, _ => false
  end.

(** [v != null] *)
Definition not_nullish (v : Value) : bool :=
  match v with
  | VUndefined | VNull => false
  | _ => true
  end.

(** An object as the list of its own properties, in insertion order. *)
Definition Object : Type := list (string * Value).

(** [o[key]]: [undefined] for a property the object does not have *)
Fixpoint get (o : Object) (key : string) : Value :=
  match o with
  | [] => VUndefined
  | (k, v) :: o' => if String.eqb k key then v else get o' key
  end.

(** [delete o[key]] *)
Fixpoint delete (key : string) (o : Object) : Object :=
  match o with
  | [] => []
  | (k, v) :: o' =>
      if String.eqb k key then delete key o' else (k, v) :: delete key o'
  end.

(** [Object.keys(o)] *)
Definition keys (o : Object) : list string := map fst o.

Section WithFileSystem.
(** The abstract methods [canPatchAccessed], [canPatchCreated],
    [canPatchModified]. *)
Context (canPatchAccessed canPatchCreated canPatchModified : bool).

(** The treatment of one timestamp: kept only when the file system can
    patch it and the value is a number. *)
Definition fix_time (can : bool) (key : string) (props : Object) : Object :=
  if can then
    if negb (String.eqb (typeof (get props key)) "number")
    then delete key props
    else props
  else delete key props.

(** The body of [for (const key of Object.keys(stats))] *)
Definition fix_key (stats props : Object) (key : string) : Object :=
  if strict_eq (get stats key) (get props key) then delete key props
  else if negb (String.eqb (typeof (get stats key)) (typeof (get props key)))
          && negb (String.eqb (typeof (get props key)) "undefined")
  then delete key props
  else props.

(** [_fixProps(path, props, stats)]: [props] is changed in place, the
    result here is [props] afterwards.  The calls of [console.warn] are
    left out. *)
Definition _fixProps (props stats : Object) : Object :=
  let props :=
    if not_nullish (get props "size") then delete "size" props else props in
  let props :=
    if not_nullish (get props "etag") then delete "etag" props else props in
  let props := fix_time canPatchAccessed "accessed" props in
  let props := fix_time canPatchCreated "created" props in
  let props := fix_time canPatchModified "modified" props in
  fold_left (fix_key stats) (keys stats) props.

End WithFileSystem.

(** What a property of the outcome may be: absent, or a value with [Q]. *)
Definition absent_or (Q : Value -> Prop) (o : Object) (key : string)
  : Prop :=
  get o key = VUndefined \/ Q (get o key).

End Props.

(** * src/unnamed/part_007: [AbstractDirectory._delete] and [list] *)

Module DirectoryDelete.

(** [DeleteOptions], [ListOptions] and [Options] as this class reads
    them. *)
Definition Options : Type := Part007.XmitOptions.

Section WithFileSystem.
(** The file system and the child entries are not among the sources of
    this revision: [fs.head], [fs.getEntry] and the [delete] of a child
    are taken as they come; [_list] and [_rmdir] are the abstract methods
    of the class, [_rmdir] being logged as the delete primitive. *)
Context {W : Type}.
Local Abbreviation FS := (@M (St W Err)).
Context (path : string)
        (fs_head : string -> Options -> FS Stats)
        (getEntry : string -> FS Fso)
        (entry_delete : Fso -> Options -> FS unit)
        (_list : W -> Outcome (list string) * W)
        (_rmdir : W -> Outcome unit * W)
        (beforeList :
           option (string -> Options -> Outcome (option (list string))))
        (afterList : option (string -> list string -> Outcome unit)).

(** [_checkDirectory]: the message object handed to [createError] is no
    error of its own. *)
Definition _checkDirectory (options : Options) : FS unit :=
  stats <- fs_head path options ;;
  if Part006.has_size stats
  then throw (createError TypeMismatchError None)
  else ret tt.

Definition list (options : Options) : FS (list string) :=
  l <- (if negb (Part007.ignoreHook options) then
          match beforeList with
          | Some h => call_hook beforeList_ path (h path options)
          | None => ret None
          end
        else ret None) ;;
  l <- match l with
       | Some l => ret l                  (* [!list] is false: an array *)
       | None =>
           (if negb (String.eqb path "/") then _checkDirectory options
            else ret tt) ;;;
           prim (EvPrim P_list path) _list
       end ;;
  (if negb (Part007.ignoreHook options) then
     match afterList with
     | Some h => call_hook afterList_ path (h path l)
     | None => ret tt
     end
   else ret tt) ;;;
  ret l.

(** The body of the loop over the children *)
Definition delete_child (options : Options) (child : string) : FS unit :=
  try_catch
    (childEntry <- getEntry child ;;
     entry_delete childEntry options)
    (fun e => if Part007.force options then push e else throw e).

(** [_delete]; the first [try] yields whether the method goes on
    ([false] is the [return] of the [catch] clause). *)
Definition _delete (options : Options) : FS unit :=
  go_on <- try_catch
             (_checkDirectory options ;;; ret true)
             (fun e =>
                if Err_eqb e TypeMismatchError then throw e
                else if Err_eqb e NotFoundError then
                  if negb (Part007.force options) then throw e
                  else ret false
                else throw (createError NotReadableError (Some e))) ;;
  if negb go_on then ret tt
  else
    (if Part007.recursive options then
       children <- list options ;;
       for_of children (delete_child options)
     else ret tt) ;;;
    prim (EvPrim P_delete path) _rmdir.

End WithFileSystem.

End DirectoryDelete.

Module DirectoryInstances.

(** A directory [/d] of the in-memory world seen through this class: the
    children are deleted by the backend, the one at [locked] refuses. *)
Definition mem_delete (locked : string) (options : DirectoryDelete.Options)
  : @M (St MemFS.World Err) unit :=
  DirectoryDelete._delete "/d"
    (fun p _ => prim (EvPrim P_head p) (_head MemFS.backend p no_HeadOptions))
    (fun p => ret (AbstractFile p))
    (fun entry _ =>
       if String.eqb (fso_path entry) locked
       then throw NoModificationAllowedError
       else prim (EvPrim P_delete (fso_path entry))
              (_delete MemFS.backend (fso_path entry) no_DeleteOptions))
    (_list MemFS.backend "/d" no_ListOptions)
    (_delete MemFS.backend "/d" no_DeleteOptions)
    None None options.

End DirectoryInstances.

(** * NodeDirectory: [_list] *)

Module NodeDirectory.

(** [a.map(f)] for an [f] that may throw: the first exception ends the
    call. *)
Fixpoint map_throwing {A B} (f : A -> Outcome B) (l : list A)
  : Outcome (list B) :=
  match l with
  | [] => Ok []
  | x :: l' =>
      Path.bindO (f x) (fun y =>
      Path.bindO (map_throwing f l') (fun ys => Ok (y :: ys)))
  end.

(** What [_list] resolves with once [fs.readdir] has delivered [names]:
    [names.map((name) => joinPaths(this.path, name))]. *)
Definition listed (path : string) (names : list string)
  : Outcome (list string) :=
  map_throwing (fun name => Path.joinPaths path name) names.

End NodeDirectory.

(** * src/unnamed/part_007: [AbstractDirectory.mkcol] *)

Module DirectoryMkcol.

Section WithFileSystem.
(** [fs.head] and [fs.canCreateDirectory()] belong to the file system,
    [parent_mkcol] is [getParent()] followed by the call of [mkcol] on the
    parent entry; [_mkcol] is the abstract method. *)
Context {W : Type}.
Local Abbreviation FS := (@M (St W Err)).
Local Abbreviation Options := Part007.XmitOptions.
Context (path : string)
        (canCreateDirectory : bool)
        (fs_head : string -> Options -> FS Stats)
        (parent_mkcol : Options -> FS unit)
        (_mkcol : W -> Outcome unit * W)
        (beforeMkcol : option (string -> Options -> Outcome bool))
        (afterMkcol : option (string -> Outcome unit)).

(** [mkcol]; the [try] statement yields whether the method has returned
    from inside the [try] block.  The [SecurityError] for an existing
    directory is thrown inside the block and passes through its [catch]
    clause. *)
Definition mkcol (options : Options) : FS unit :=
  if negb canCreateDirectory
  then throw (createError NotSupportedError None)
  else
    returned <-
      try_catch
        (DirectoryDelete._checkDirectory path fs_head options ;;;
         if negb (Part007.force options)
         then throw (createError SecurityError None)
         else ret true)
        (fun e =>
           if Err_eqb e NotFoundError then
             (if Part007.recursive options then
                parent_mkcol
                  {| Part007.force := true; Part007.recursive := true;
                     Part007.ignoreHook := Part007.ignoreHook options |}
              else ret tt) ;;;
             ret false
           else throw (createError NotReadableError (Some e))) ;;
    if returned : bool then ret tt
    else
      handled <-
        (if negb (Part007.ignoreHook options) then
           match beforeMkcol with
           | Some h => call_hook beforeMkcol_ path (h path options)
           | None => ret false
           end
         else ret false) ;;
      if handled : bool then ret tt
      else
        prim (EvPrim P_mkcol path) _mkcol ;;;
        if negb (Part007.ignoreHook options) then
          match afterMkcol with
          | Some h => call_hook afterMkcol_ path (h path)
          | None => ret tt
          end
        else ret tt.

End WithFileSystem.
End DirectoryMkcol.

(** * Properties *)

Open Scope list_scope.

(** ** The path functions against the repository's tests *)

Module PathFacts.

Example getParentPath_tests :
  map Path.getParentPath ["/hoge/fuga"; "/hoge/fuga/"; "/"; "hoge"; ""]
  = [Ok "/hoge"; Ok "/hoge"; Ok "/"; Ok "/"; Ok "/"].
Proof. reflexivity. Qed.

Example getName_tests :
  map Path.getName ["/hoge/fuga"; "hoge/fuga"; "/hoge/fuga/"; "/"; "test"]
  = [Ok "fuga"; Ok "fuga"; Ok "fuga"; Ok ""; Ok "test"].
Proof. reflexivity. Qed.

Example normalizePath_tests :
  map Path.normalizePath
    ["/hoge/fuga"; "/hoge//fuga/"; "/hoge/fuga/"; "./hoge/fuga/";
     "/hoge/../fuga/"; "/"; ""]
  = [Ok "/hoge/fuga"; Ok "/hoge/fuga"; Ok "/hoge/fuga"; Ok "/hoge/fuga";
     Ok "/fuga"; Ok "/"; Ok "/"].
Proof. reflexivity. Qed.

Example joinPaths_child :
  Path.joinPaths "/folder2" "sample.txt" = Ok "/folder2/sample.txt".
Proof. reflexivity. Qed.

Example above_root_is_SyntaxError :
  Path.normalizePath "/.." = Throw SyntaxError.
Proof. reflexivity. Qed.

(** The sample world of the in-memory backend. *)
Example list_d :
  fst (_list MemFS.backend "/d" no_ListOptions MemFS.sample)
  = Ok ["/d/e"; "/d/f"].
Proof. reflexivity. Qed.

Example head_empty_file :
  fst (_head MemFS.backend "/d/e" no_HeadOptions MemFS.sample)
  = Ok {| size := Some 0%Z; accessed := None; modified := None |}.
Proof. reflexivity. Qed.

End PathFacts.

(** ** What a computation appends to the log *)

Lemma skipn_length_app {A} (l x : list A) : skipn (length l) (l ++ x) = x.
Proof. induction l; simpl; auto. Qed.

Section Emits.
Context {W E : Type}.
Local Abbreviation FS := (@M (St W E)).

Variable P : Event -> Prop.

Lemma emits_nothing {A} (m : FS A) :
  (forall s, log (snd (m s)) = log s) -> emits P m.
Proof.
  intros H s. exists []. rewrite H, app_nil_r. auto.
Qed.

Lemma emits_ret {A} (a : A) : emits P (ret a : FS A).
Proof. apply emits_nothing. reflexivity. Qed.

Lemma emits_throw {A} (e : Err) : emits P (throw e : FS A).
Proof. apply emits_nothing. reflexivity. Qed.

Lemma emits_diverge {A} : emits P (diverge : FS A).
Proof. apply emits_nothing. reflexivity. Qed.

Lemma emits_await {A} (o : Outcome A) : emits P (await o : FS A).
Proof. apply emits_nothing. reflexivity. Qed.

Lemma emits_push (x : E) : emits P (push x : FS unit).
Proof. apply emits_nothing. reflexivity. Qed.

Lemma emits_prim {A} (ev : Event) (f : W -> Outcome A * W) :
  P ev -> emits P (prim ev f : FS A).
Proof.
  intros H s. exists [ev]. unfold prim.
  destruct (f (world s)); simpl. auto.
Qed.

Lemma emits_call_hook {A} h path (o : Outcome A) :
  P (EvHook h path) -> emits P (call_hook h path o : FS A).
Proof. intros H s. exists [EvHook h path]. simpl. auto. Qed.

Lemma emits_call_unawaited {A} h path (c : Called A) :
  P (EvHook h path) -> emits P (call_unawaited h path c : FS (Promise A)).
Proof. intros H s. exists [EvHook h path]. simpl. auto. Qed.

Lemma emits_bind {A B} (m : FS A) (k : A -> FS B) :
  emits P m -> (forall a, emits P (k a)) -> emits P (bind m k).
Proof.
  intros Hm Hk s. unfold bind.
  destruct (Hm s) as (e1 & L1 & F1).
  destruct (m s) as [[a | e |] s1]; simpl in *.
  - destruct (Hk a s1) as (e2 & L2 & F2).
    exists (e1 ++ e2). rewrite L2, L1, app_assoc. split; auto.
    apply Forall_app; auto.
  - exists e1; auto.
  - exists e1; auto.
Qed.

Lemma emits_try_catch {A} (m : FS A) (h : Err -> FS A) :
  emits P m -> (forall e, emits P (h e)) -> emits P (try_catch m h).
Proof.
  intros Hm Hh s. unfold try_catch.
  destruct (Hm s) as (e1 & L1 & F1).
  destruct (m s) as [[a | e |] s1]; simpl in *.
  - exists e1; auto.
  - destruct (Hh e s1) as (e2 & L2 & F2).
    exists (e1 ++ e2). rewrite L2, L1, app_assoc. split; auto.
    apply Forall_app; auto.
  - exists e1; auto.
Qed.

Lemma emits_try_finally {A} (m : FS A) (f : FS unit) :
  emits P m -> emits P f -> emits P (try_finally m f).
Proof.
  intros Hm Hf s. unfold try_finally.
  destruct (Hm s) as (e1 & L1 & F1).
  destruct (m s) as [[a | e |] s1]; simpl in *;
    try (exists e1; now auto);
    destruct (Hf s1) as (e2 & L2 & F2);
    destruct (f s1) as [[[] | e' |] s2]; simpl in *;
    exists (e1 ++ e2); rewrite L2, L1, app_assoc;
    (split; [reflexivity | apply Forall_app; auto]).
Qed.

Lemma emits_no_await {A} (m : FS A) : emits P m -> emits P (no_await m).
Proof.
  intros Hm s. unfold no_await.
  destruct (Hm s) as (e1 & L1 & F1).
  destruct (m s) as [r s1]; simpl in *. exists e1; auto.
Qed.

Lemma emits_for_of {A} (l : list A) (body : A -> FS unit) :
  (forall x, emits P (body x)) -> emits P (for_of l body).
Proof.
  intros H. induction l; simpl.
  - apply emits_ret.
  - apply emits_bind; auto.
Qed.

Lemma emits_trace {A} (m : FS A) s : emits P m -> Forall P (trace m s).
Proof.
  intros H. destruct (H s) as (evs & L & F).
  unfold trace. rewrite L, skipn_length_app. exact F.
Qed.
End Emits.

Create HintDb emits.

#[export] Hint Resolve emits_ret emits_throw emits_diverge emits_await
  emits_push emits_prim emits_call_hook emits_bind emits_try_catch
  emits_try_finally emits_no_await emits_for_of : emits.

(** Breaks a computation into its parts, leaving the conditions on the
    single events. *)
Ltac emits_step :=
  match goal with
  | |- emits _ (bind _ _) => apply emits_bind; [ | intros ]
  | |- emits _ (try_catch _ _) => apply emits_try_catch; [ | intros ]
  | |- emits _ (try_finally _ _) => apply emits_try_finally
  | |- emits _ (no_await _) => apply emits_no_await
  | |- emits _ (for_of _ _) => apply emits_for_of; intros
  | |- emits _ (ret _) => apply emits_ret
  | |- emits _ (throw _) => apply emits_throw
  | |- emits _ diverge => apply emits_diverge
  | |- emits _ (await _) => apply emits_await
  | |- emits _ (push _) => apply emits_push
  | |- emits _ (prim _ _) => apply emits_prim
  | |- emits _ (call_hook _ _ _) => apply emits_call_hook
  | |- emits _ (call_unawaited _ _ _) => apply emits_call_unawaited
  | |- emits _ (let _ := _ in _) => cbv zeta
  | |- emits _ (if ?b then _ else _) => destruct b
  | |- emits _ (match ?x with _ => _ end) => destruct x
  end.

(** Case analysis on the innermost scrutinee of the goal. *)
Ltac break_match :=
  match goal with
  | |- context [match ?x with _ => _ end] =>
      lazymatch x with
      | context [match _ with _ => _ end] => fail
      | _ => destruct x eqn:?
      end
  end.

(** Reduces a [trace] to the events appended. *)
Ltac trace_simpl :=
  unfold trace; simpl;
  repeat rewrite <- app_assoc;
  repeat rewrite skipn_length_app.

(** ** The hook pipeline of core.ts *)

Module HookPipeline.
Section WithBackend.
Context {W : Type} (B : Backend W) (hook : Hook).
Implicit Types s : St W XmitError.

(** Case analysis on the three callbacks and outcomes [head] depends
    on. *)
Ltac head_cases path options s :=
  unfold trace, Core.supplied, Core.head, Core.before, Core.after;
  destruct (head_ignoreHook options);
  destruct (beforeHead hook) as [h|];
  destruct (afterHead hook) as [a|]; simpl;
  unfold bind, ret, prim, call_hook; simpl;
  repeat match goal with
         | |- context [h path options] =>
             destruct (h path options) as [[?|] | ? |]; simpl
         | |- context [_head B path options (world s)] =>
             destruct (_head B path options (world s))
               as [[? | ? |] ?]; simpl
         | |- context [a path ?st] =>
             destruct (a path st) as [[] | ? |]; simpl
         end.

(** [head] invokes the primitive exactly when the before phase has
    yielded nothing. *)
Lemma head_reaches_primitive_iff path options s :
  In (EvPrim P_head path) (trace (Core.head B hook path options) s)
  <-> Core.supplied (head_ignoreHook options) (beforeHead hook) path options
      = Ok None.
Proof.
  head_cases path options s; trace_simpl;
    (split;
     [ intros HIn; simpl in HIn;
       repeat match goal with
              | H : _ \/ _ |- _ => destruct H
              | H : False |- _ => destruct H
              end;
       try discriminate; reflexivity
     | intros H; try discriminate; simpl; auto 6 ]).
Qed.

(** Whatever the primitive throws once it is reached is what [head]
    throws: there is no [catch] on the way. *)
Lemma head_surfaces_primitive_error path options s e :
  Core.supplied (head_ignoreHook options) (beforeHead hook) path options
  = Ok None ->
  fst (_head B path options (world s)) = Throw e ->
  fst (Core.head B hook path options s) = Throw e.
Proof.
  head_cases path options s; intros Hs Hp;
    try discriminate; try (injection Hp as ->); reflexivity.
Qed.

(** A result supplied by [beforeHead] keeps [_head] from being invoked;
    it is what [head] returns when the after hook (if any) resolves. *)
Lemma head_short_circuit path options s st :
  Core.supplied (head_ignoreHook options) (beforeHead hook) path options
  = Ok (Some st) ->
  Forall (fun ev => is_prim P_head path ev = false)
    (trace (Core.head B hook path options) s)
  /\ (fst (Core.head B hook path options s) = Ok st
      \/ (exists h e, afterHead hook = Some h /\ h path st = Throw e
                      /\ fst (Core.head B hook path options s) = Throw e)
      \/ (exists h, afterHead hook = Some h /\ h path st = Diverge)).
Proof.
  unfold Core.supplied, Core.head, Core.before, Core.after.
  destruct (negb (head_ignoreHook options)); [ | discriminate ].
  destruct (beforeHead hook) as [h|]; [ | discriminate ].
  intros Hsup. unfold bind, call_hook at 1. rewrite Hsup. simpl.
  destruct (afterHead hook) as [a|]; simpl.
  - unfold call_hook. destruct (a path st) as [[] | e |] eqn:Ha.
    + split; [ trace_simpl; repeat constructor | left; reflexivity ].
    + split; [ trace_simpl; repeat constructor | ].
      right; left. exists a, e. auto.
    + split; [ trace_simpl; repeat constructor | ].
      right; right. exists a. auto.
  - split; [ trace_simpl; repeat constructor | left; reflexivity ].
Qed.

(** The same for [openReadStream]: a stream supplied by [beforeGet] is
    returned and [_openReadStream] is not invoked. *)
Lemma openReadStream_short_circuit path options s rs :
  Core.supplied (open_ignoreHook options) (beforeGet hook) path options
  = Ok (Some rs) ->
  Forall (fun ev => is_prim P_openReadStream path ev = false)
    (trace (Core.openReadStream B hook path options) s)
  /\ fst (Core.openReadStream B hook path options s) = Ok rs.
Proof.
  unfold Core.supplied, Core.openReadStream, Core.before.
  destruct (negb (open_ignoreHook options)); [ | discriminate ].
  destruct (beforeGet hook) as [h|]; [ | discriminate ].
  intros Hsup. unfold bind, call_hook. rewrite Hsup. simpl.
  split; [ trace_simpl; repeat constructor | reflexivity ].
Qed.

(** When [afterHead] fires: exactly when it is registered and not
    ignored and [head] has obtained Stats, from the before hook or from
    the primitive. *)
Lemma afterHead_fires_iff path options s :
  In (EvHook afterHead_ path) (trace (Core.head B hook path options) s)
  <-> (head_ignoreHook options = false
       /\ Core.registered (afterHead hook) = true
       /\ exists st,
           Core.supplied (head_ignoreHook options) (beforeHead hook)
             path options = Ok (Some st)
           \/ (Core.supplied (head_ignoreHook options) (beforeHead hook)
                 path options = Ok None
               /\ fst (_head B path options (world s)) = Ok st)).
Proof.
  unfold trace, Core.supplied, Core.head, Core.before, Core.after,
    Core.registered.
  destruct (head_ignoreHook options), (beforeHead hook) as [h|],
    (afterHead hook) as [a|]; simpl;
    unfold bind, ret, prim, call_hook; simpl;
    repeat match goal with
           | |- context [h path options] => destruct (h path options) as [[?|] | ? |]; simpl
           | |- context [_head B path options (world s)] =>
               destruct (_head B path options (world s)) as [[? | ? |] ?]; simpl
           | |- context [a path ?st] => destruct (a path st) as [[] | ? |]; simpl
           end;
    trace_simpl;
    (split;
     [ intros HIn; simpl in HIn;
       repeat match goal with
              | H : _ \/ _ |- _ => destruct H
              | H : False |- _ => destruct H
              end;
       try discriminate;
       (split; [ reflexivity | split; [ reflexivity | ] ]);
       eexists; first [ left; reflexivity | right; split; reflexivity ]
     | intros (H1 & H2 & st' & [H3 | [H3 H4]]);
       try discriminate; simpl; auto 6 ]).
Qed.

(** When [afterDelete] fires: exactly when it is registered and not
    ignored, [beforeDelete] has not taken the operation over, and the
    primitive [_delete] has succeeded. *)
Lemma afterDelete_fires_iff path options s :
  In (EvHook afterDelete_ path) (trace (Core.delete B hook path options) s)
  <-> (del_ignoreHook options = false
       /\ Core.registered (afterDelete hook) = true
       /\ Core.delete_handled hook path options = Ok false
       /\ fst (_delete B path options (world s)) = Ok tt).
Proof.
  unfold trace, Core.delete_handled, Core.delete, Core.after,
    Core.registered.
  destruct (del_ignoreHook options), (beforeDelete hook) as [h|],
    (afterDelete hook) as [a|]; simpl;
    unfold bind, ret, prim, call_hook; simpl;
    repeat match goal with
           | |- context [h path options] =>
               destruct (h path options) as [[|] | ? |]; simpl
           | |- context [_delete B path options (world s)] =>
               destruct (_delete B path options (world s))
                 as [[[] | ? |] ?]; simpl
           | |- context [a path] => destruct (a path) as [[] | ? |]; simpl
           end;
    trace_simpl;
    (split;
     [ intros HIn; simpl in HIn;
       repeat match goal with
              | H : _ \/ _ |- _ => destruct H
              | H : False |- _ => destruct H
              end;
       try discriminate; auto
     | intros (H1 & H2 & H3 & H4); try discriminate; simpl; auto 6 ]).
Qed.

(** A [beforeDelete] answering [true] ends [delete] before the primitive
    and before [afterDelete]. *)
Lemma delete_short_circuit path options s :
  Core.delete_handled hook path options = Ok true ->
  fst (Core.delete B hook path options s) = Ok tt
  /\ trace (Core.delete B hook path options) s = [EvHook beforeDelete_ path].
Proof.
  unfold trace, Core.delete_handled, Core.delete.
  destruct (negb (del_ignoreHook options)); [ | discriminate ].
  destruct (beforeDelete hook) as [h|]; [ | discriminate ].
  intros H. unfold bind, call_hook. rewrite H. simpl.
  rewrite skipn_length_app. auto.
Qed.

(** [list] follows the pattern of [head]. *)
Lemma afterList_fires_iff path options s :
  In (EvHook afterList_ path) (trace (Core.ls B hook path options) s)
  <-> (list_ignoreHook options = false
       /\ Core.registered (afterList hook) = true
       /\ exists l,
           Core.supplied (list_ignoreHook options) (beforeList hook)
             path options = Ok (Some l)
           \/ (Core.supplied (list_ignoreHook options) (beforeList hook)
                 path options = Ok None
               /\ fst (_list B path options (world s)) = Ok l)).
Proof.
  unfold trace, Core.supplied, Core.ls, Core.before, Core.after,
    Core.registered.
  destruct (list_ignoreHook options), (beforeList hook) as [h|],
    (afterList hook) as [a|]; simpl;
    unfold bind, ret, prim, call_hook; simpl;
    repeat match goal with
           | |- context [h path options] =>
               destruct (h path options) as [[?|] | ? |]; simpl
           | |- context [_list B path options (world s)] =>
               destruct (_list B path options (world s))
                 as [[? | ? |] ?]; simpl
           | |- context [a path ?l] =>
               destruct (a path l) as [[] | ? |]; simpl
           end;
    trace_simpl;
    (split;
     [ intros HIn; simpl in HIn;
       repeat match goal with
              | H : _ \/ _ |- _ => destruct H
              | H : False |- _ => destruct H
              end;
       try discriminate;
       (split; [ reflexivity | split; [ reflexivity | ] ]);
       eexists; first [ left; reflexivity | right; split; reflexivity ]
     | intros (H1 & H2 & l' & [H3 | [H3 H4]]);
       try discriminate; simpl; auto 6 ]).
Qed.

(** [mkcol] follows the pattern of [delete]. *)
Lemma afterMkcol_fires_iff path options s :
  In (EvHook afterMkcol_ path) (trace (Core.mkcol B hook path options) s)
  <-> (mk_ignoreHook options = false
       /\ Core.registered (afterMkcol hook) = true
       /\ Core.mkcol_handled hook path options = Ok false
       /\ fst (_mkcol B path options (world s)) = Ok tt).
Proof.
  unfold trace, Core.mkcol_handled, Core.mkcol, Core.after,
    Core.registered.
  destruct (mk_ignoreHook options), (beforeMkcol hook) as [h|],
    (afterMkcol hook) as [a|]; simpl;
    unfold bind, ret, prim, call_hook; simpl;
    repeat match goal with
           | |- context [h path options] =>
               destruct (h path options) as [[|] | ? |]; simpl
           | |- context [_mkcol B path options (world s)] =>
               destruct (_mkcol B path options (world s))
                 as [[[] | ? |] ?]; simpl
           | |- context [a path] => destruct (a path) as [[] | ? |]; simpl
           end;
    trace_simpl;
    (split;
     [ intros HIn; simpl in HIn;
       repeat match goal with
              | H : _ \/ _ |- _ => destruct H
              | H : False |- _ => destruct H
              end;
       try discriminate; auto
     | intros (H1 & H2 & H3 & H4); try discriminate; simpl; auto 6 ]).
Qed.

(** C7, as amended: for the operations whose before hook supplies the
    result ([head], [list]), the after hook fires whenever a result has
    been obtained, be it supplied by the before hook or produced by the
    backend primitive, and never after a failed primitive; for the
    operations whose before hook answers with a boolean ([delete],
    [mkcol]), the after hook fires only when the before hook has not
    taken the operation over and the backend primitive was executed and
    succeeded. *)
Theorem after_hook_fires_with_result :
  (forall path options s,
      In (EvHook afterHead_ path) (trace (Core.head B hook path options) s)
      <-> (head_ignoreHook options = false
           /\ Core.registered (afterHead hook) = true
           /\ exists st,
               Core.supplied (head_ignoreHook options) (beforeHead hook)
                 path options = Ok (Some st)
               \/ (Core.supplied (head_ignoreHook options) (beforeHead hook)
                     path options = Ok None
                   /\ fst (_head B path options (world s)) = Ok st)))
  /\ (forall path options s,
        In (EvHook afterList_ path) (trace (Core.ls B hook path options) s)
        <-> (list_ignoreHook options = false
             /\ Core.registered (afterList hook) = true
             /\ exists l,
                 Core.supplied (list_ignoreHook options) (beforeList hook)
                   path options = Ok (Some l)
                 \/ (Core.supplied (list_ignoreHook options)
                       (beforeList hook) path options = Ok None
                     /\ fst (_list B path options (world s)) = Ok l)))
  /\ (forall path options s,
        In (EvHook afterDelete_ path)
          (trace (Core.delete B hook path options) s)
        <-> (del_ignoreHook options = false
             /\ Core.registered (afterDelete hook) = true
             /\ Core.delete_handled hook path options = Ok false
             /\ fst (_delete B path options (world s)) = Ok tt))
  /\ (forall path options s,
        In (EvHook afterMkcol_ path)
          (trace (Core.mkcol B hook path options) s)
        <-> (mk_ignoreHook options = false
             /\ Core.registered (afterMkcol hook) = true
             /\ Core.mkcol_handled hook path options = Ok false
             /\ fst (_mkcol B path options (world s)) = Ok tt)).
Proof.
  split; [ | split; [ | split ] ]; intros.
  - apply afterHead_fires_iff.
  - apply afterList_fires_iff.
  - apply afterDelete_fires_iff.
  - apply afterMkcol_fires_iff.
Qed.

(** [close] of a read stream: the primitive [_close] then, without any
    test of [handled], the [afterGet] callback. *)
Lemma rs_close_trace rs s h :
  open_ignoreHook (rs_options rs) = false ->
  afterGet hook = Some h ->
  trace (Core.rs_close B hook rs) s
  = EvPrim P_close_read (rs_path rs)
      :: match fst (_close_read B rs (world s)) with
         | Ok _ => [EvHook afterGet_ (rs_path rs)]
         | _ => []
         end.
Proof.
  intros Hi Hh. unfold trace, Core.rs_close. rewrite Hi, Hh. simpl.
  unfold bind, prim, call_unawaited, ret. simpl.
  destruct (_close_read B rs (world s)) as [[[] | e |] w]; simpl;
    try destruct (h (rs_path rs)) as [e' | o]; simpl;
    repeat rewrite <- app_assoc; rewrite skipn_length_app; reflexivity.
Qed.

(** C10, as amended: with [afterGet] registered and [ignoreHook] not
    set, [close] of a read stream invokes [afterGet] exactly when the
    backend's [_close] has resolved, for every value of the [handled]
    flag: there is no guard, a stream that was never read notifies as
    well.  When [_close] rejects, [close] rejects before it gets to the
    hook. *)
Theorem rs_close_fires_afterGet_iff rs s h :
  open_ignoreHook (rs_options rs) = false ->
  afterGet hook = Some h ->
  (In (EvHook afterGet_ (rs_path rs)) (trace (Core.rs_close B hook rs) s)
   <-> fst (_close_read B rs (world s)) = Ok tt).
Proof.
  intros Hi Hh. rewrite (rs_close_trace rs s Hi Hh).
  destruct (fst (_close_read B rs (world s))) as [[] | e |]; simpl; split;
    intros H; try reflexivity; try discriminate; auto;
    destruct H as [H | []]; discriminate.
Qed.

(** Opening a read stream and closing it at once, with no [read] in
    between, notifies [afterGet]. *)
Lemma open_then_close_fires_afterGet path options s h rs :
  afterGet hook = Some h ->
  fst (Core.openReadStream B hook path options s) = Ok rs ->
  open_ignoreHook (rs_options rs) = false ->
  fst (_close_read B rs
         (world (snd (Core.openReadStream B hook path options s)))) = Ok tt ->
  In (EvHook afterGet_ (rs_path rs))
    (trace (rs <- Core.openReadStream B hook path options ;;
            Core.rs_close B hook rs) s).
Proof.
  intros Hh Ho Hi Hc.
  assert (E : emits (fun _ => True) (Core.openReadStream B hook path options)).
  { unfold Core.openReadStream, Core.before.
    repeat emits_step; exact I. }
  destruct (E s) as (evs & L & _).
  assert (H : In (EvHook afterGet_ (rs_path rs))
                (trace (Core.rs_close B hook rs)
                   (snd (Core.openReadStream B hook path options s)))).
  { rewrite (rs_close_trace rs _ Hi Hh), Hc. simpl. auto. }
  assert (E2 : emits (fun _ => True) (Core.rs_close B hook rs)).
  { unfold Core.rs_close. repeat emits_step; exact I. }
  destruct (E2 (snd (Core.openReadStream B hook path options s)))
    as (evs2 & L2 & _).
  unfold trace in *. unfold bind.
  destruct (Core.openReadStream B hook path options s) as [r s1].
  simpl in *. subst r.
  rewrite L2 in *. rewrite L in *.
  rewrite skipn_length_app in H.
  rewrite <- app_assoc, skipn_length_app.
  apply in_or_app. right. exact H.
Qed.

End WithBackend.

(** C7 refuted as stated: with a caching [beforeHead] and an observing
    [afterHead], [head] takes the Stats from the before hook, never calls
    [_head], and still calls [afterHead]. *)
Lemma afterHead_fires_on_short_circuit :
  ~ Statements.after_hook_silent_on_short_circuit.
Proof.
  intros H.
  apply (H _ MemFS.backend Instances.caching_hook "/a.txt" no_HeadOptions
           Instances.start Instances.some_stats).
  - reflexivity.
  - vm_compute. auto.
Qed.

(** The run behind it. *)
Example caching_head_run :
  let r := Core.head MemFS.backend Instances.caching_hook "/a.txt"
             no_HeadOptions Instances.start in
  fst r = Ok Instances.some_stats
  /\ log (snd r) = [EvHook beforeHead_ "/a.txt"; EvHook afterHead_ "/a.txt"].
Proof. vm_compute. auto. Qed.

(** C10 at a concrete input: a stream on [/a.txt] that was never read. *)
Lemma rs_close_fires_afterGet_iff_witness :
  In (EvHook afterGet_ "/a.txt")
    (trace (Core.rs_close MemFS.backend Instances.observing_hook
              Instances.unread_stream) Instances.start).
Proof.
  apply (proj2 (@rs_close_fires_afterGet_iff _ MemFS.backend
                  Instances.observing_hook Instances.unread_stream
                  Instances.start (fun _ => returns (Ok tt))
                  eq_refl eq_refl)).
  reflexivity.
Defined.

(** C10 refuted as stated: on a backend whose [_close] rejects, [close]
    of the same stream ends before the hook; the log holds the call of
    [_close] and nothing else. *)
Lemma rejected_close_skips_afterGet :
  ~ Statements.close_always_invokes_afterGet.
Proof.
  intros H.
  specialize (H _ Instances.failing_close Instances.observing_hook
                Instances.unread_stream Instances.start
                (fun _ => returns (Ok tt)) eq_refl eq_refl).
  vm_compute in H. destruct H as [H | []]. discriminate H.
Qed.

(** The run behind it. *)
Example failing_close_run :
  let r := Core.rs_close Instances.failing_close Instances.observing_hook
             Instances.unread_stream Instances.start in
  fst r = Throw NotReadableError
  /\ log (snd r) = [EvPrim P_close_read "/a.txt"].
Proof. vm_compute. auto. Qed.

End HookPipeline.

(** ** Opening a write stream (core.ts) *)

Module WriteOpen.
Section WithBackend.
Context {W : Type} (B : Backend W) (hook : Hook).
Implicit Types s : St W XmitError.

(** The [catch] clause lets through whatever is not a [NotFoundError]. *)
Lemma catch_rethrows path options e s :
  instanceof_NotFoundError e = false ->
  Core.openWriteStream_catch hook path options e s = (Throw e, s).
Proof.
  intros H. unfold Core.openWriteStream_catch. rewrite H. reflexivity.
Qed.

(** [openWriteStream] stats the path first.  With [create === false] and
    a stat that fails with [NotFoundError] it fails with that
    [NotFoundError]; with [create === true] and a stat that succeeds it
    fails with [PathExistsError]; with [create] left out, the first opens
    the stream in create mode and the second in overwrite mode, and the
    only failures left are those of the before hook or of
    [_openWriteStream]. *)
Lemma openWriteStream_by_stat path options s :
  (fst (Core.head B hook path no_HeadOptions s) = Throw NotFoundError ->
   create options = Some false ->
   fst (Core.openWriteStream B hook path options s) = Throw NotFoundError)
  /\ (forall st,
        fst (Core.head B hook path no_HeadOptions s) = Ok st ->
        create options = Some true ->
        fst (Core.openWriteStream B hook path options s)
        = Throw PathExistsError)
  /\ (fst (Core.head B hook path no_HeadOptions s) = Throw NotFoundError ->
      create options = None ->
      Core.openWriteStream B hook path options s
      = Core.open_in_mode B hook true path options
          (snd (Core.head B hook path no_HeadOptions s)))
  /\ (forall st,
        fst (Core.head B hook path no_HeadOptions s) = Ok st ->
        create options = None ->
        Core.openWriteStream B hook path options s
        = Core.open_in_mode B hook false path options
            (snd (Core.head B hook path no_HeadOptions s))).
Proof.
  unfold Core.openWriteStream, Core.open_in_mode,
    Core.openWriteStream_catch, bind, try_catch, ret.
  destruct (Core.head B hook path no_HeadOptions s) as [[st | e |] s1];
    simpl; repeat split; try discriminate.
  - intros st' _ Hc. rewrite Hc. reflexivity.
  - intros st' _ Hc. rewrite Hc.
    destruct (Core.before (w_ignoreHook options) beforePut_
                (beforePut hook) path (set_create options false) s1)
      as [[[ws|] | e |] s2]; simpl; try reflexivity.
    destruct (instanceof_NotFoundError e); reflexivity.
  - intros He Hc. injection He as ->. simpl. rewrite Hc. reflexivity.
  - intros He Hc. injection He as ->. simpl. rewrite Hc. simpl.
    destruct (Core.before (w_ignoreHook options)
                beforePost_ (beforePost hook) path
                (set_create options true) s1)
      as [[[ws|] | e |] s2]; reflexivity.
Qed.

(** With [create] given and consistent with what the stat finds, the
    stream is opened in that mode as well. *)
Lemma openWriteStream_consistent_flag path options s :
  (fst (Core.head B hook path no_HeadOptions s) = Throw NotFoundError ->
   create options = Some true ->
   Core.openWriteStream B hook path options s
   = Core.open_in_mode B hook true path options
       (snd (Core.head B hook path no_HeadOptions s)))
  /\ (forall st,
        fst (Core.head B hook path no_HeadOptions s) = Ok st ->
        create options = Some false ->
        Core.openWriteStream B hook path options s
        = Core.open_in_mode B hook false path options
            (snd (Core.head B hook path no_HeadOptions s))).
Proof.
  unfold Core.openWriteStream, Core.open_in_mode,
    Core.openWriteStream_catch, bind, try_catch, ret.
  destruct (Core.head B hook path no_HeadOptions s) as [[st | e |] s1];
    simpl; repeat split; try discriminate.
  - intros st' _ Hc. rewrite Hc.
    destruct (Core.before (w_ignoreHook options) beforePut_
                (beforePut hook) path (set_create options false) s1)
      as [[[ws|] | e |] s2]; simpl; try reflexivity.
    destruct (instanceof_NotFoundError e); reflexivity.
  - intros He Hc. injection He as ->. simpl. rewrite Hc. simpl.
    destruct (Core.before (w_ignoreHook options)
                beforePost_ (beforePost hook) path
                (set_create options true) s1)
      as [[[ws|] | e |] s2]; reflexivity.
Qed.

End WithBackend.

(** What the two modes come to on the in-memory backend. *)
Example open_absent_creates :
  fst (Core.openWriteStream MemFS.backend no_hook "/nothing"
         (Instances.write_options None) Instances.start)
  = Ok {| ws_path := "/nothing";
          ws_options := Instances.write_options (Some true);
          ws_position := 0; ws_handled := false |}.
Proof. reflexivity. Qed.

Example open_present_overwrites :
  fst (Core.openWriteStream MemFS.backend no_hook "/a.txt"
         (Instances.write_options None) Instances.start)
  = Ok {| ws_path := "/a.txt";
          ws_options := Instances.write_options (Some false);
          ws_position := 0; ws_handled := false |}.
Proof. reflexivity. Qed.

End WriteOpen.

(** ** Write notifications on [close] *)

Module WriteNotification.

(** *** AbstractWriteStream.ts *)

Section AbstractWriteStream_ts.
Import AbstractWriteStream.
Context {W : Type} (B : Subclass W) (hook : Hook).
Implicit Types s : State W.

(** [close] on an unchanged stream: the object stays unchanged and the
    log gains the call of [_close] only. *)
Lemma close_unchanged s :
  changed (this s) = false ->
  changed (this (snd (close B hook s))) = false
  /\ log (snd (close B hook s))
     = log s ++ [EvPrim P_close_write (path (this s))].
Proof.
  intros Hc. unfold close, bind, prim, set_position, get, ret.
  destruct (_close B (this s) (world s)) as [[[] | e |] w]; simpl;
    try rewrite Hc; simpl; auto.
Qed.

(** A session of calls none of which mutates appends no notification. *)
Lemma quiet_session calls : forall s,
  changed (this s) = false ->
  existsb is_mutating calls = false ->
  changed (this (run B hook calls s)) = false
  /\ exists evs, log (run B hook calls s) = log s ++ evs
                 /\ existsb is_notification evs = false.
Proof.
  induction calls as [| c calls IH]; intros s Hc Hm.
  - simpl. split; auto. exists []. rewrite app_nil_r. auto.
  - simpl in Hm. apply orb_false_iff in Hm. destruct Hm as [Hm1 Hm2].
    destruct c; try discriminate.
    change (run B hook (call_close :: calls) s)
      with (run B hook calls (snd (close B hook s))).
    destruct (close_unchanged s Hc) as [Hc' HL].
    destruct (IH _ Hc' Hm2) as (Hc'' & evs & HL' & Hn).
    split; auto.
    exists (EvPrim P_close_write (path (this s)) :: evs).
    rewrite HL', HL, <- app_assoc. simpl. auto.
Qed.

(** The notification of one [close] is [afterPost] for a stream opened in
    create mode, [afterPut] otherwise. *)
Lemma close_notification_kind s :
  Forall (fun ev =>
            is_notification ev = true ->
            ev = EvHook (if truthy_create (options (this s))
                         then afterPost_ else afterPut_) (path (this s)))
    (skipn (length (log s)) (log (snd (close B hook s)))).
Proof.
  unfold close, bind, prim, set_position, get, ret, call_cb, call_hook.
  destruct (_close B (this s) (world s)) as [[[] | e |] w]; simpl;
    try (rewrite skipn_length_app; repeat constructor; discriminate).
  destruct (changed (this s)); simpl;
    try (rewrite skipn_length_app; repeat constructor; discriminate).
  destruct (w_ignoreHook (options (this s))),
    (afterPost hook) as [hp|], (afterPut hook) as [hq|],
    (truthy_create (options (this s))); simpl;
    repeat rewrite <- app_assoc; rewrite skipn_length_app;
    repeat constructor; try discriminate; auto.
Qed.

End AbstractWriteStream_ts.

(** *** core.ts *)

Section core_ts.
Import WriteSession.
Context {W : Type} (B : Backend W) (hook : Hook) (stack : nat).
Implicit Types s : St W XmitError.

(** [setLength] never returns: it rejects with [RangeError] and leaves
    the state as it was. *)
Lemma ws_setLength_rejects ws len s :
  Core.ws_setLength stack ws len s = (Throw RangeError, s).
Proof.
  induction stack as [| n IH]; simpl.
  - reflexivity.
  - unfold bind. rewrite IH. reflexivity.
Qed.

Lemma ws_close_unhandled ws s :
  ws_handled ws = false ->
  log (snd (Core.ws_close B hook ws s))
  = log s ++ [EvPrim P_close_write (ws_path ws)].
Proof.
  intros Hh. unfold Core.ws_close, bind, prim, ret.
  destruct (_close_write B ws (world s)) as [[[] | e |] w]; simpl;
    try rewrite Hh; reflexivity.
Qed.

(** A session without a [write] appends no notification: [setLength]
    does not get as far as [handled = true]. *)
Lemma quiet_core_session calls : forall ws s,
  ws_handled ws = false ->
  existsb (fun c => match c with write _ => true | _ => false end) calls
  = false ->
  exists evs,
    log (snd (run B hook stack calls (ws, s))) = log s ++ evs
    /\ existsb is_notification evs = false.
Proof.
  induction calls as [| c calls IH]; intros ws s Hh Hm.
  - simpl. exists []. rewrite app_nil_r. auto.
  - simpl in Hm. apply orb_false_iff in Hm. destruct Hm as [Hm1 Hm2].
    destruct c; try discriminate.
    + change (run B hook stack (setLength len :: calls) (ws, s))
        with (run B hook stack calls
                (step B hook stack (setLength len) (ws, s))).
      unfold step. rewrite ws_setLength_rejects.
      apply (IH ws s Hh Hm2).
    + change (run B hook stack (close :: calls) (ws, s))
        with (run B hook stack calls
                (ws, snd (Core.ws_close B hook ws s))).
      destruct (IH ws (snd (Core.ws_close B hook ws s)) Hh Hm2)
        as (evs & HL & Hn).
      exists (EvPrim P_close_write (ws_path ws) :: evs).
      rewrite HL, (ws_close_unhandled ws s Hh), <- app_assoc.
      simpl. auto.
Qed.

Lemma ws_close_notification_kind ws s :
  Forall (fun ev =>
            is_notification ev = true ->
            ev = EvHook (if truthy_create (ws_options ws)
                         then afterPost_ else afterPut_) (ws_path ws))
    (trace (Core.ws_close B hook ws) s).
Proof.
  unfold trace, Core.ws_close, bind, prim, ret, Core.call_cb, call_hook,
    Core.registered.
  destruct (_close_write B ws (world s)) as [[[] | e |] w]; simpl;
    try (rewrite skipn_length_app; repeat constructor; discriminate).
  destruct (ws_handled ws); simpl;
    try (rewrite skipn_length_app; repeat constructor; discriminate).
  destruct (w_ignoreHook (ws_options ws)),
    (afterPost hook) as [hp|], (afterPut hook) as [hq|],
    (truthy_create (ws_options ws)); simpl;
    repeat rewrite <- app_assoc; rewrite skipn_length_app;
    repeat constructor; try discriminate; auto.
Qed.

End core_ts.

(** C9: over any session of calls on a write stream that starts
    unchanged, a write notification ([afterPost] or [afterPut]) appears
    only if one of the calls was mutating ([write] or
    [truncate]/[setLength]): a stream that is only closed notifies
    nobody.  The notification of a [close] is [afterPost] when the stream
    was opened in create mode and [afterPut] otherwise.  This holds for
    AbstractWriteStream.ts and for the WriteStream of core.ts. *)
Theorem close_notifies_only_after_mutation :
  (forall W (B : AbstractWriteStream.Subclass W) hook calls s,
      AbstractWriteStream.changed (AbstractWriteStream.this s) = false ->
      existsb is_notification (AbstractWriteStream.events B hook calls s)
      = true ->
      existsb AbstractWriteStream.is_mutating calls = true)
  /\ (forall W (B : Backend W) hook stack calls ws s,
        ws_handled ws = false ->
        existsb is_notification
          (WriteSession.events B hook stack calls ws s) = true ->
        existsb WriteSession.is_mutating calls = true)
  /\ (forall W (B : AbstractWriteStream.Subclass W) hook s,
        Forall (fun ev =>
                  is_notification ev = true ->
                  ev = EvHook
                         (if truthy_create
                               (AbstractWriteStream.options
                                  (AbstractWriteStream.this s))
                          then afterPost_ else afterPut_)
                         (AbstractWriteStream.path
                            (AbstractWriteStream.this s)))
          (AbstractWriteStream.events B hook
             [AbstractWriteStream.call_close] s))
  /\ (forall W (B : Backend W) hook ws (s : St W XmitError),
        Forall (fun ev =>
                  is_notification ev = true ->
                  ev = EvHook (if truthy_create (ws_options ws)
                               then afterPost_ else afterPut_)
                         (ws_path ws))
          (trace (Core.ws_close B hook ws) s)).
Proof.
  split; [ | split; [ | split ] ].
  - intros W B hook calls s Hc Hn.
    destruct (existsb AbstractWriteStream.is_mutating calls) eqn:Hm; auto.
    destruct (quiet_session B hook calls s Hc Hm) as (_ & evs & HL & Hq).
    unfold AbstractWriteStream.events in Hn.
    rewrite HL, skipn_length_app in Hn. congruence.
  - intros W B hook stack calls ws s Hh Hn.
    destruct (existsb WriteSession.is_mutating calls) eqn:Hm; auto.
    assert (Hw : existsb (fun c => match c with
                                   | WriteSession.write _ => true
                                   | _ => false
                                   end) calls = false).
    { clear - Hm. induction calls as [| c calls IH]; simpl in *; auto.
      apply orb_false_iff in Hm. destruct Hm as [H1 H2].
      rewrite (IH H2). destruct c; simpl in *; auto. }
    destruct (quiet_core_session B hook stack calls ws s Hh Hw)
      as (evs & HL & Hq).
    unfold WriteSession.events in Hn.
    rewrite HL, skipn_length_app in Hn. congruence.
  - intros. apply close_notification_kind.
  - intros. apply ws_close_notification_kind.
Qed.

(** C9 at concrete inputs: a text is written and the stream closed, with
    observers registered; the notification is there, and so is the
    mutating call. *)
Lemma close_notifies_only_after_mutation_witness :
  existsb AbstractWriteStream.is_mutating
    [AbstractWriteStream.call_write (Text "x");
     AbstractWriteStream.call_close] = true
  /\ existsb WriteSession.is_mutating
       [WriteSession.write (MemFS.bytes "x"); WriteSession.close] = true.
Proof.
  split.
  - apply (proj1 close_notifies_only_after_mutation _
             Instances.mem_stream Instances.observing_hook
             [AbstractWriteStream.call_write (Text "x");
              AbstractWriteStream.call_close]
             (AbstractWriteStream.fresh "/a.txt"
                Instances.overwrite_options MemFS.sample));
      reflexivity.
  - apply (proj1 (proj2 close_notifies_only_after_mutation) _
             MemFS.backend Instances.observing_hook 8
             [WriteSession.write (MemFS.bytes "x"); WriteSession.close]
             {| ws_path := "/a.txt";
                ws_options := Instances.overwrite_options;
                ws_position := 0; ws_handled := false |}
             Instances.start);
      reflexivity.
Defined.

(** Open and close, nothing in between: no notification, though the
    observers are registered. *)
Example only_closed_is_quiet :
  AbstractWriteStream.events Instances.mem_stream Instances.observing_hook
    [AbstractWriteStream.call_close]
    (AbstractWriteStream.fresh "/a.txt" Instances.overwrite_options
       MemFS.sample)
  = [EvPrim P_close_write "/a.txt"]
  /\ WriteSession.events MemFS.backend Instances.observing_hook 8
       [WriteSession.close]
       {| ws_path := "/a.txt"; ws_options := Instances.overwrite_options;
          ws_position := 0; ws_handled := false |}
       Instances.start
     = [EvPrim P_close_write "/a.txt"].
Proof. split; reflexivity. Qed.

(** In core.ts a session of [setLength] and [close] stays quiet as well:
    [setLength] rejects before it sets [handled]. *)
Example setLength_then_close_is_quiet :
  WriteSession.events MemFS.backend Instances.observing_hook 8
    [WriteSession.setLength 0; WriteSession.close]
    {| ws_path := "/a.txt"; ws_options := Instances.overwrite_options;
       ws_position := 0; ws_handled := false |}
    Instances.start
  = [EvPrim P_close_write "/a.txt"].
Proof. reflexivity. Qed.

End WriteNotification.

(** ** Copy and move (core.ts) *)

Module Xmit.
Section WithBackend.
Context {W : Type} (B : Backend W) (hook : Hook).
Implicit Types s : St W XmitError.

(** The copy loop starts one read and ends: the promise it tests is not
    [null]. *)
Lemma copy_loop_once fuel rs ws s :
  Core.copy_loop B (S fuel) rs ws s
  = (Ok tt, snd (Core.rs_read B rs s)).
Proof.
  simpl. unfold bind, no_await.
  destruct (Core.rs_read B rs s) as [r s1]. reflexivity.
Qed.

Lemma copy_loop_inert fuel rs ws : emits inert (Core.copy_loop B fuel rs ws).
Proof.
  destruct fuel; simpl.
  - apply emits_diverge.
  - unfold promise_eq_null, Core.rs_read.
    repeat emits_step; split; reflexivity.
Qed.

(** [AbstractFile._xmit] hands no byte to [_write] and attempts no
    delete, whatever the backend, the hooks, the target and the [move]
    flag. *)
Lemma file_xmit_inert fuel this fso move options :
  emits inert (Core.file_xmit B hook fuel this fso move options).
Proof.
  unfold Core.file_xmit, Core.openReadStream, Core.openWriteStream,
    Core.openWriteStream_catch, Core.head, Core.before, Core.after,
    Core.rs_close, Core.ws_close, Core.call_cb.
  repeat first [ apply copy_loop_inert | emits_step ];
    try (split; reflexivity).
Qed.

(** The loop of [AbstractDirectory._xmit]: once the stat of the child and
    the two path computations have succeeded, nothing the child does
    leaves the loop body as an exception. *)
Lemma dir_xmit_child_isolates xmit toDir move options child s stats name
    toPath :
  fst (Core.head B hook child no_HeadOptions s) = Ok stats ->
  Path.getName child = Ok name ->
  Path.joinPaths toDir name = Ok toPath ->
  forall e,
    fst (Core.dir_xmit_child B hook xmit toDir move options child s)
    <> Throw e.
Proof.
  intros Hh Hn Hj e.
  unfold Core.dir_xmit_child, bind, await, try_catch, push, ret.
  destruct (Core.head B hook child no_HeadOptions s) as [r s1].
  simpl in Hh. subst r. rewrite Hn, Hj.
  destruct (xmit (Core.dispatch stats child) (Core.dispatch stats toPath)
              move options s1) as [[[] | e1 |] s2]; simpl;
    try discriminate.
  destruct move; simpl; try discriminate.
  destruct (Core.fso_delete B hook (Core.dispatch stats child) s2)
    as [[[] | e2 |] s3]; simpl; discriminate.
Qed.

(** A failure of the child's transfer is recorded with the child's
    [from] and [to]. *)
Lemma dir_xmit_child_records xmit toDir move options child s stats name
    toPath e :
  fst (Core.head B hook child no_HeadOptions s) = Ok stats ->
  Path.getName child = Ok name ->
  Path.joinPaths toDir name = Ok toPath ->
  fst (xmit (Core.dispatch stats child) (Core.dispatch stats toPath) move
         options (snd (Core.head B hook child no_HeadOptions s)))
  = Throw e ->
  let r := Core.dir_xmit_child B hook xmit toDir move options child s in
  fst r = Ok tt
  /\ copyErrors (snd r)
     = copyErrors
         (snd (xmit (Core.dispatch stats child) (Core.dispatch stats toPath)
                 move options
                 (snd (Core.head B hook child no_HeadOptions s))))
       ++ [{| from := Core.dispatch stats child;
              to := Core.dispatch stats toPath; error := e |}].
Proof.
  intros Hh Hn Hj Hx.
  unfold Core.dir_xmit_child, bind, await, try_catch, push, ret.
  destruct (Core.head B hook child no_HeadOptions s) as [r s1].
  simpl in *. subst r. rewrite Hn, Hj.
  destruct (xmit (Core.dispatch stats child) (Core.dispatch stats toPath)
              move options s1) as [r2 s2].
  simpl in *. subst r2. simpl. auto.
Qed.

(** A failure of the child's stat is not inside the [try]: it ends the
    loop body, and with it the whole [_xmit], as an exception. *)
Lemma dir_xmit_child_stat_escapes xmit toDir move options child s e :
  fst (Core.head B hook child no_HeadOptions s) = Throw e ->
  Core.dir_xmit_child B hook xmit toDir move options child s
  = (Throw e, snd (Core.head B hook child no_HeadOptions s)).
Proof.
  intros Hh. unfold Core.dir_xmit_child, bind.
  destruct (Core.head B hook child no_HeadOptions s) as [r s1].
  simpl in Hh. subst r. reflexivity.
Qed.

End WithBackend.

(** C1, the code at a failing input.  [AbstractFile._xmit] hands no byte
    to [_write], for any backend, hooks and arguments; so copying the
    file [/a.txt], which holds "hi", to the absent [/b.txt] completes with
    an empty error list while no byte has reached the destination stream:
    [/b.txt] is empty and the source still holds "hi". *)
Theorem copy_file_writes_nothing :
  (forall W (B : Backend W) hook fuel this fso move options
          (s : St W XmitError),
      Forall (fun e => is_write e = false)
        (trace (Core.file_xmit B hook fuel this fso move options) s))
  /\ (forall fuel,
        let r := Core.fs_copy MemFS.backend no_hook (2 + fuel) "/a.txt"
                   "/b.txt" Instances.default_XmitOptions Instances.start in
        fst r = Ok []
        /\ MemFS.content "/a.txt" (world (snd r)) = Some (MemFS.bytes "hi")
        /\ MemFS.content "/b.txt" (world (snd r)) = Some []
        /\ written "/b.txt" (log (snd r)) = []).
Proof.
  split.
  - intros. eapply Forall_impl; [ | apply emits_trace, file_xmit_inert ].
    intros e [H _]. exact H.
  - intros fuel. cbv. repeat split.
Qed.

(** C2, the code at a failing input.  [AbstractFile._xmit] attempts no
    delete, with [move] set or not; so moving the file [/a.txt] to
    [/b.txt] returns an empty error list and [/a.txt] is still there. *)
Theorem move_file_keeps_source :
  (forall W (B : Backend W) hook fuel this fso move options
          (s : St W XmitError),
      Forall (fun e => is_delete e = false)
        (trace (Core.file_xmit B hook fuel this fso move options) s))
  /\ (forall fuel,
        let r := Core.fs_move MemFS.backend no_hook (2 + fuel) "/a.txt"
                   "/b.txt" Instances.default_XmitOptions Instances.start in
        fst r = Ok []
        /\ MemFS.exists_ "/a.txt" (world (snd r)) = true
        /\ existsb is_delete (log (snd r)) = false).
Proof.
  split.
  - intros. eapply Forall_impl; [ | apply emits_trace, file_xmit_inert ].
    intros e [_ H]. exact H.
  - intros fuel. cbv. repeat split.
Qed.

(** Inside a moved directory the loop of the parent deletes the child,
    whose bytes the copy loop never wrote: [/d/f] held "f", [/d2/f] is
    empty and [/d/f] is gone. *)
Example move_directory_deletes_children : forall fuel,
  let r := Core.fs_move MemFS.backend no_hook (3 + fuel) "/d" "/d2"
             Instances.default_XmitOptions Instances.start in
  MemFS.exists_ "/d/f" (world (snd r)) = false
  /\ MemFS.content "/d2/f" (world (snd r)) = Some [].
Proof. intros fuel. cbv. repeat split. Qed.

(** C3, the code at a failing input.  In the loop of
    [AbstractDirectory._xmit] a failed stat of a child is the outcome of
    the loop body, not an entry of the error list.  So with [/d] listing
    [/d/e] and [/d/f] and the stat of [/d/e] refused, the copy of [/d]
    throws that error instead of returning an error list, nothing has
    been recorded, and the sibling [/d/f] has not been looked at. *)
Theorem child_stat_failure_aborts_copy :
  (forall W (B : Backend W) hook xmit toDir move options child
          (s : St W XmitError),
      match fst (Core.head B hook child no_HeadOptions s) with
      | Throw e =>
          fst (Core.dir_xmit_child B hook xmit toDir move options child s)
          = Throw e
      | _ => True
      end)
  /\ (forall fuel,
        let r := Core.fs_copy (Instances.denying "/d/e") no_hook (3 + fuel)
                   "/d" "/d2" Instances.default_XmitOptions
                   Instances.start in
        fst r = Throw NotReadableError
        /\ copyErrors (snd r) = []
        /\ existsb (is_prim P_head "/d/f") (log (snd r)) = false
        /\ MemFS.exists_ "/d2/f" (world (snd r)) = false).
Proof.
  split.
  - intros.
    destruct (fst (Core.head B hook child no_HeadOptions s)) eqn:Hh; auto.
    rewrite (dir_xmit_child_stat_escapes B hook xmit toDir move options
               child s Hh). reflexivity.
  - intros fuel. cbv. repeat split.
Qed.

(** A child whose own [_xmit] fails is recorded and its sibling is
    processed: here the empty file [/d/e], taken for a directory, fails
    in [_list]. *)
Example child_xmit_failure_is_recorded : forall fuel,
  let r := Core.fs_copy MemFS.backend no_hook (3 + fuel) "/d" "/d2"
             Instances.default_XmitOptions Instances.start in
  fst r = Ok [{| from := AbstractDirectory "/d/e";
                 to := AbstractDirectory "/d2/e";
                 error := NotReadableError |}]
  /\ MemFS.exists_ "/d2/f" (world (snd r)) = true.
Proof. intros fuel. cbv. repeat split. Qed.

(** C8, the code at a failing input.  The dispatch of core.ts picks the
    File side exactly for a defined size other than 0; Stats with
    [size: 0] go to the Directory side, in [_prepareXmit] and in the loop
    of [AbstractDirectory._xmit] alike. *)
Theorem empty_file_dispatched_as_directory :
  (forall stats p,
      Core.dispatch stats p = AbstractFile p
      <-> exists n, size stats = Some n /\ n <> 0%Z)
  /\ Core.dispatch
       {| size := Some 0%Z; accessed := None; modified := None |} "/d/e"
     = AbstractDirectory "/d/e"
  /\ fst (Core._prepareXmit MemFS.backend no_hook "/d/e" "/e2"
            Instances.start)
     = Ok (AbstractDirectory "/d/e", AbstractDirectory "/e2")
  /\ (forall fuel,
        MemFS.lookup "/d2/e"
          (world (snd (Core.fs_copy MemFS.backend no_hook (3 + fuel)
                         "/d" "/d2" Instances.default_XmitOptions
                         Instances.start)))
        = Some MemFS.DirNode).
Proof.
  split; [ | repeat split ].
  intros stats p. unfold Core.dispatch, truthy_size, truthy_number.
  destruct (size stats) as [n|].
  - destruct (Z.eqb_spec n 0); simpl; split.
    + discriminate.
    + intros (m & Hm & Hz). congruence.
    + intros _. exists n. auto.
    + reflexivity.
  - split; [ discriminate | intros (n & Hn & _); discriminate ].
Qed.

Lemma dispatch_not_by_absence : ~ Statements.defined_size_is_File.
Proof.
  intros H.
  specialize (H {| size := Some 0%Z; accessed := None; modified := None |}
                0%Z "/d/e" eq_refl).
  discriminate H.
Qed.

End Xmit.

(** ** The later revision of the directory walk (part_007) *)

Module LaterWalk.
Section WithFileSystem.
Context {W : Type}.
Local Abbreviation FS := (Part007.FS W).
Context (head : string -> Part007.XmitOptions -> FS Stats)
        (mkcol : string -> Part007.XmitOptions -> FS unit)
        (list_ : string -> FS (list string))
        (getFile getDirectory : string -> FS Fso)
        (xmit : Fso -> Fso -> Part007.XmitOptions -> FS unit).

(** Here the dispatch tests [stats.size != null]: size 0 is a File. *)
Lemma dispatch_by_absence stats p :
  Part007.dispatch getFile getDirectory stats p
  = match size stats with
    | Some _ => getFile p
    | None => getDirectory p
    end.
Proof. reflexivity. Qed.

(** The whole loop body is inside the [try]: no exception leaves it. *)
Lemma xmit_child_never_throws toDir options fromPath s e :
  fst (Part007.xmit_child head getFile getDirectory xmit toDir options
         fromPath s) <> Throw e.
Proof.
  unfold Part007.xmit_child, Part007.dispatch, try_catch, bind, await,
    push, ret.
  repeat (break_match; simpl); discriminate.
Qed.

(** A failed stat of a child becomes an entry of the error list. *)
Lemma xmit_child_records_stat_failure toDir options fromPath s e :
  fst (head fromPath options s) = Throw e ->
  let r := Part007.xmit_child head getFile getDirectory xmit toDir options
             fromPath s in
  fst r = Ok tt
  /\ copyErrors (snd r)
     = copyErrors (snd (head fromPath options s))
       ++ [{| Part007.error := e; Part007.from := fromPath;
              Part007.to := None |}].
Proof.
  intros Hh. unfold Part007.xmit_child, try_catch, bind, push.
  destruct (head fromPath options s) as [r s1]. simpl in Hh. subst r.
  simpl. auto.
Qed.

(** So the loop over the children never throws. *)
Lemma walk_never_throws toDir options fromPaths : forall s e,
  fst (for_of fromPaths
         (Part007.xmit_child head getFile getDirectory xmit toDir options)
         s) <> Throw e.
Proof.
  induction fromPaths as [| p l IH]; intros s e; simpl.
  - discriminate.
  - unfold bind.
    pose proof (xmit_child_never_throws toDir options p s) as H.
    destruct (Part007.xmit_child head getFile getDirectory xmit toDir
                options p s) as [[[] | e1 |] s1]; simpl in *.
    + apply IH.
    + exfalso. apply (H e1). reflexivity.
    + discriminate.
Qed.

End WithFileSystem.
End LaterWalk.

(** ** [getSource] and [write] of part_000 *)

Module WholeFile.
Section WithSubclass.
Context {W : Type} (B : Part000.Subclass W) (hook : Part000.Hook)
        (createError : Err -> option Err -> Err).
Implicit Types s : St W Err.

(** A truthy source supplied by [beforeGet] is returned and [_getSource]
    is not invoked; the one thing that can still fail is an [afterGet]
    callback that throws where it is called. *)
Lemma getSource_short_circuit path options s src :
  Part000.supplied hook path options = Ok (Some src) ->
  truthy_Source src = true ->
  (fst (Part000.getSource B hook path options s) = Ok src
   \/ exists a e,
        Part000.afterGet hook = Some a /\ a path src = throws e
        /\ fst (Part000.getSource B hook path options s) = Throw e)
  /\ existsb (is_prim P_getSource path)
       (trace (Part000.getSource B hook path options) s) = false.
Proof.
  unfold Part000.supplied, trace, Part000.getSource.
  destruct (negb (open_ignoreHook options)); [ | discriminate ].
  destruct (Part000.beforeGet hook) as [h|]; [ | discriminate ].
  intros Hs Ht. unfold bind, call_hook at 1. rewrite Hs. simpl.
  rewrite Ht. simpl.
  destruct (Part000.afterGet hook) as [a|]; simpl;
    [ unfold call_unawaited; destruct (a path src) as [e | o] eqn:Ea;
      simpl | ];
    repeat rewrite <- app_assoc; rewrite skipn_length_app; eauto 8.
Qed.

(** The empty text is a source too, but [!source] takes it for none:
    [_getSource] is invoked and its result returned. *)
Lemma getSource_falsy_falls_through path options s :
  Part000.supplied hook path options = Ok (Some (Text "")) ->
  existsb (is_prim P_getSource path)
    (trace (Part000.getSource B hook path options) s) = true.
Proof.
  unfold Part000.supplied, trace, Part000.getSource.
  destruct (negb (open_ignoreHook options)); [ | discriminate ].
  destruct (Part000.beforeGet hook) as [h|]; [ | discriminate ].
  intros Hs. unfold bind, call_hook at 1, prim. rewrite Hs. simpl.
  destruct (Part000._getSource B path options (world s))
    as [[src | e |] w]; simpl;
    try (destruct (Part000.afterGet hook) as [a|]; simpl;
         [ unfold call_unawaited; destruct (a path src); simpl | ]);
    repeat rewrite <- app_assoc; rewrite skipn_length_app; simpl;
    rewrite String.eqb_refl; reflexivity.
Qed.

(** [afterGet] fires after a short-circuit as well. *)
Lemma getSource_afterGet_on_short_circuit path options s src a :
  Part000.supplied hook path options = Ok (Some src) ->
  truthy_Source src = true ->
  Part000.afterGet hook = Some a ->
  In (EvHook afterGet_ path)
    (trace (Part000.getSource B hook path options) s).
Proof.
  unfold Part000.supplied, trace, Part000.getSource.
  destruct (negb (open_ignoreHook options)); [ | discriminate ].
  destruct (Part000.beforeGet hook) as [h|]; [ | discriminate ].
  intros Hs Ht Ha. unfold bind, call_hook at 1. rewrite Hs. simpl.
  rewrite Ht, Ha. simpl. unfold call_unawaited.
  destruct (a path src); simpl;
    repeat rewrite <- app_assoc; rewrite skipn_length_app; simpl; auto.
Qed.

(** [write] with [create: true] on a path whose stat succeeds: the
    [PathExistError] goes through the [catch] clause, which wraps what is
    not a [NotFoundError] with the name [NotReadableError]. *)
Lemma write_existing_with_create path src options s st :
  fst (Part000.head B path (world s)) = Ok st ->
  Part000.opt_create options = Some true ->
  Err_eqb (createError PathExistsError None) NotFoundError = false ->
  fst (Part000.write B hook createError path src options s)
  = Throw (createError NotReadableError
             (Some (createError PathExistsError None))).
Proof.
  intros Hh Hc Hn.
  unfold Part000.write, Part000.write_catch, bind, try_catch, prim, ret.
  destruct (Part000.head B path (world s)) as [r w].
  simpl in Hh. subst r. simpl. rewrite Hc, Hn. reflexivity.
Qed.

(** [write] with [create: false] on a path whose stat fails with
    [NotFoundError]. *)
Lemma write_absent_without_create path src options s :
  fst (Part000.head B path (world s)) = Throw NotFoundError ->
  Part000.opt_create options = Some false ->
  fst (Part000.write B hook createError path src options s)
  = Throw (createError NotFoundError (Some NotFoundError)).
Proof.
  intros Hh Hc.
  unfold Part000.write, Part000.write_catch, bind, try_catch, prim, ret.
  destruct (Part000.head B path (world s)) as [r w].
  simpl in Hh. subst r. simpl. rewrite Hc. reflexivity.
Qed.

(** With [create] left out the mode follows the stat, and the check
    raises nothing: [write] goes on, from the state the stat has left, as
    a write in create mode when the stat fails with [NotFoundError] and as
    a write in overwrite mode when it succeeds. *)
Lemma write_mode_follows_stat path src options s :
  Part000.opt_create options = None ->
  (fst (Part000.head B path (world s)) = Throw NotFoundError ->
   Part000.write B hook createError path src options s
   = Part000.write_in_mode B hook true path src options
       (snd (prim (EvPrim P_head path) (Part000.head B path) s)))
  /\ (forall st,
        fst (Part000.head B path (world s)) = Ok st ->
        Part000.write B hook createError path src options s
        = Part000.write_in_mode B hook false path src options
            (snd (prim (EvPrim P_head path) (Part000.head B path) s))).
Proof.
  intros Hc.
  unfold Part000.write, Part000.write_in_mode, Part000.write_catch, bind,
    try_catch, prim, ret.
  destruct (Part000.head B path (world s)) as [[st | e |] w]; simpl;
    split; try discriminate.
  - intros st' _. rewrite Hc. reflexivity.
  - intros He. injection He as ->. simpl. rewrite Hc. reflexivity.
Qed.

End WithSubclass.

(** With errors classified the way the specification has it, the two
    failures are [NotFound] and [PathExists]. *)
Lemma write_create_flag {W} (B : Part000.Subclass W) hook path src options
    (s : St W Err) :
  (fst (Part000.head B path (world s)) = Throw NotFoundError ->
   Part000.opt_create options = Some false ->
   fst (Part000.write B hook createError path src options s)
   = Throw NotFoundError)
  /\ (forall st,
        fst (Part000.head B path (world s)) = Ok st ->
        Part000.opt_create options = Some true ->
        fst (Part000.write B hook createError path src options s)
        = Throw PathExistsError).
Proof.
  split.
  - intros Hh Hc.
    rewrite (write_absent_without_create B hook createError path src
               options s Hh Hc). reflexivity.
  - intros st Hh Hc.
    rewrite (write_existing_with_create B hook createError path src
               options s Hh Hc eq_refl). reflexivity.
Qed.

(** C6, the code at a failing input.  Whenever [beforeGet] supplies the
    empty text, a non-null source, [getSource] invokes [_getSource]; so
    with a hook that serves the empty text for [/a.txt] the caller gets
    the backend's bytes, not the hook's text. *)
Theorem getSource_empty_text_falls_through :
  (forall W (B : Part000.Subclass W) hook path options (s : St W Err),
      match Part000.supplied hook path options with
      | Ok (Some (Text EmptyString)) =>
          existsb (is_prim P_getSource path)
            (trace (Part000.getSource B hook path options) s) = true
      | _ => True
      end)
  /\ (let r := Part000.getSource Instances.mem_file
                 Instances.empty_text_hook "/a.txt"
                 Instances.default_OpenOptions (init_St MemFS.sample) in
      fst r = Ok (Binary (MemFS.bytes "hi"))
      /\ log (snd r)
         = [EvHook beforeGet_ "/a.txt"; EvPrim P_getSource "/a.txt"]).
Proof.
  split.
  - intros.
    destruct (Part000.supplied hook path options) as [[[[|] | |] |] | |]
      eqn:Hs; auto.
    apply getSource_falsy_falls_through. exact Hs.
  - cbv. split; reflexivity.
Qed.

End WholeFile.

(** ** The [create] flag of the two ways to write *)

Module CreateFlag.

(** C4, as amended: a path is absent or present as the stat reports it,
    the stat being [head] with its hooks in core.ts and the [head] of the
    entry in part_000.  [openWriteStream] of core.ts and the whole-file
    [write] of part_000 both fail with [NotFound] when [create === false]
    and the stat fails with [NotFoundError], and with [PathExists] when
    [create === true] and the stat succeeds ([write] with errors
    classified the way the specification has it).  With [create] left out
    the check raises nothing: both go on, from the state the stat has
    left, in create mode after a [NotFoundError] and in overwrite mode
    after a successful stat. *)
Theorem create_flag_follows_stat :
  (forall (W : Type) (B : Backend W) (hook : Hook) (path : string)
          (options : OpenWriteOptions) (s : St W XmitError),
      (fst (Core.head B hook path no_HeadOptions s) = Throw NotFoundError ->
       create options = Some false ->
       fst (Core.openWriteStream B hook path options s)
       = Throw NotFoundError)
      /\ (forall st,
            fst (Core.head B hook path no_HeadOptions s) = Ok st ->
            create options = Some true ->
            fst (Core.openWriteStream B hook path options s)
            = Throw PathExistsError)
      /\ (fst (Core.head B hook path no_HeadOptions s)
          = Throw NotFoundError ->
          create options = None ->
          Core.openWriteStream B hook path options s
          = Core.open_in_mode B hook true path options
              (snd (Core.head B hook path no_HeadOptions s)))
      /\ (forall st,
            fst (Core.head B hook path no_HeadOptions s) = Ok st ->
            create options = None ->
            Core.openWriteStream B hook path options s
            = Core.open_in_mode B hook false path options
                (snd (Core.head B hook path no_HeadOptions s))))
  /\ (forall (W : Type) (F : Part000.Subclass W) (hook : Part000.Hook)
             (path : string) (src : Source)
             (options : option Part000.WriteOptions) (s : St W Err),
         (fst (Part000.head F path (world s)) = Throw NotFoundError ->
          Part000.opt_create options = Some false ->
          fst (Part000.write F hook createError path src options s)
          = Throw NotFoundError)
         /\ (forall st,
               fst (Part000.head F path (world s)) = Ok st ->
               Part000.opt_create options = Some true ->
               fst (Part000.write F hook createError path src options s)
               = Throw PathExistsError)
         /\ (fst (Part000.head F path (world s)) = Throw NotFoundError ->
             Part000.opt_create options = None ->
             Part000.write F hook createError path src options s
             = Part000.write_in_mode F hook true path src options
                 (snd (prim (EvPrim P_head path) (Part000.head F path) s)))
         /\ (forall st,
               fst (Part000.head F path (world s)) = Ok st ->
               Part000.opt_create options = None ->
               Part000.write F hook createError path src options s
               = Part000.write_in_mode F hook false path src options
                   (snd (prim (EvPrim P_head path) (Part000.head F path)
                           s)))).
Proof.
  split.
  - intros W B hook path options s.
    apply WriteOpen.openWriteStream_by_stat.
  - intros W F hook path src options s.
    destruct (WholeFile.write_create_flag F hook path src options s)
      as [Ha Hb].
    split; [ exact Ha | split; [ exact Hb | ] ].
    split.
    + intros Hh Hc.
      apply (proj1 (WholeFile.write_mode_follows_stat F hook createError
                      path src options s Hc) Hh).
    + intros st Hh Hc.
      apply (proj2 (WholeFile.write_mode_follows_stat F hook createError
                      path src options s Hc) st Hh).
Qed.

(** C4 at concrete inputs: [/nothing] is absent from the sample world,
    [/a.txt] is in it. *)
Lemma create_flag_follows_stat_witness :
  fst (Core.openWriteStream MemFS.backend no_hook "/nothing"
         (Instances.write_options (Some false)) Instances.start)
  = Throw NotFoundError
  /\ fst (Core.openWriteStream MemFS.backend no_hook "/a.txt"
            (Instances.write_options (Some true)) Instances.start)
     = Throw PathExistsError
  /\ fst (Part000.write Instances.mem_file Instances.no_file_hook
            createError "/nothing" (Text "x")
            (Instances.whole_options (Some false))
            (init_St MemFS.sample))
     = Throw NotFoundError
  /\ fst (Part000.write Instances.mem_file Instances.no_file_hook
            createError "/a.txt" (Text "x")
            (Instances.whole_options (Some true))
            (init_St MemFS.sample))
     = Throw PathExistsError.
Proof.
  split; [ | split; [ | split ] ].
  - apply (proj1 (proj1 create_flag_follows_stat _ MemFS.backend no_hook
                    "/nothing" (Instances.write_options (Some false))
                    Instances.start)); reflexivity.
  - apply (proj1 (proj2 (proj1 create_flag_follows_stat _ MemFS.backend
                    no_hook "/a.txt" (Instances.write_options (Some true))
                    Instances.start))
             {| size := Some 2%Z; accessed := None; modified := None |});
      reflexivity.
  - apply (proj1 (proj2 create_flag_follows_stat _ Instances.mem_file
                    Instances.no_file_hook "/nothing" (Text "x")
                    (Instances.whole_options (Some false))
                    (init_St MemFS.sample))); reflexivity.
  - apply (proj1 (proj2 (proj2 create_flag_follows_stat _
                    Instances.mem_file Instances.no_file_hook "/a.txt"
                    (Text "x") (Instances.whole_options (Some true))
                    (init_St MemFS.sample)))
             {| size := Some 2%Z; accessed := None; modified := None |});
      reflexivity.
Defined.

(** C4 refuted as stated: [/nothing] is absent from the sample world,
    but a caching [beforeHead] answers the stat of [openWriteStream], and
    with [create: false] the stream is opened in overwrite mode. *)
Lemma hooked_stat_hides_absence :
  ~ Statements.create_false_on_absent_path_fails.
Proof.
  intros H.
  specialize (H _ MemFS.backend Instances.caching_hook "/nothing"
                (Instances.write_options (Some false)) Instances.start
                eq_refl eq_refl).
  vm_compute in H. discriminate H.
Qed.

(** The run behind it. *)
Example hooked_open_run :
  fst (Core.openWriteStream MemFS.backend Instances.caching_hook "/nothing"
         (Instances.write_options (Some false)) Instances.start)
  = Ok {| ws_path := "/nothing";
          ws_options := Instances.write_options (Some false);
          ws_position := 0; ws_handled := false |}.
Proof. reflexivity. Qed.

(** With [create] left out, what the two modes of [write] come to on the
    in-memory world. *)
Example write_absent_creates :
  let r := Part000.write Instances.mem_file Instances.no_file_hook
             createError "/nothing" (Text "x") Instances.no_WriteOptions
             (init_St MemFS.sample) in
  fst r = Ok tt
  /\ log (snd r) = [EvPrim P_head "/nothing"; EvPrim P_write "/nothing"]
  /\ MemFS.content "/nothing" (world (snd r)) = Some (MemFS.bytes "x").
Proof. vm_compute. auto. Qed.

End CreateFlag.

(** ** [head] of part_006 *)

Module LaterHead.
Section WithSubclass.
Context {W : Type} (B : Part006.Subclass W) (hook : Part006.Hook)
        (INVALID_CHARS : string -> bool).
Implicit Types s : St W Err.

(** The [NotFoundError] of [_head] reaches the [catch] clause of [head]
    and leaves it as [createError({ name: NotReadableError.name, e })]:
    thrown when the caller passed no array, pushed onto the array (and
    [null] returned) when it did. *)
Lemma later_head_NotFound ce path options checked s :
  INVALID_CHARS path = false ->
  Path.normalizePath path = Ok checked ->
  Part006.is_type Part006.Directory (Part006.with_type path options)
  && negb (Part006.supportDirectory B) = false ->
  Part006.supplied hook checked (Part006.with_type path options)
  = Ok None ->
  fst (Part006._head B checked (Part006.with_type path options) (world s))
  = Throw NotFoundError ->
  fst (Part006.head B hook ce INVALID_CHARS path options false s)
  = Throw (ce NotReadableError (Some NotFoundError))
  /\ fst (Part006.head B hook ce INVALID_CHARS path options true s)
     = Ok None
  /\ copyErrors
       (snd (Part006.head B hook ce INVALID_CHARS path options true s))
     = copyErrors s ++ [ce NotReadableError (Some NotFoundError)].
Proof.
  intros Hi Hn Hd Hs Hh.
  unfold Part006.head, Part006.head_try, Part006._checkPath,
    Part006._handleError, Part006._handleFileSystemError, try_catch, bind,
    await, ret, prim, push, throw.
  rewrite Hi, Hn. cbv zeta. rewrite Hd.
  unfold Part006.supplied in Hs.
  destruct (negb (Part006.ignoreHook (Part006.with_type path options))).
  - destruct (Part006.beforeHead hook) as [h|].
    + unfold call_hook. rewrite Hs. simpl.
      destruct (Part006._head B checked (Part006.with_type path options)
                  (world s)) as [r w].
      simpl in Hh. subst r. simpl. repeat apply conj; reflexivity.
    + simpl.
      destruct (Part006._head B checked (Part006.with_type path options)
                  (world s)) as [r w].
      simpl in Hh. subst r. simpl. repeat apply conj; reflexivity.
  - simpl.
    destruct (Part006._head B checked (Part006.with_type path options)
                (world s)) as [r w].
    simpl in Hh. subst r. simpl. repeat apply conj; reflexivity.
Qed.

End WithSubclass.

(** C5, as amended: on a path for which the backend primitive raises
    [NotFoundError] (the path does not exist in the backend), [head]
    fails with [NotFound] whenever the before phase has yielded nothing,
    that is unless a [beforeHead] hook that is not bypassed answers in
    the backend's place.  In core.ts nothing on the way catches the
    error.  In part_006 (for a path that passes [_checkPath], and not a
    directory on a file system without directories) the error goes
    through the [catch] clause, which hands on
    [createError({ name: NotReadableError.name, e })]: with errors
    classified the way the specification has it that is the
    [NotFoundError] again, thrown when the caller gave no array and
    pushed onto the array otherwise. *)
Theorem head_NotFound_unless_hooked :
  (forall (W : Type) (B : Backend W) (hook : Hook) (path : string)
          (options : HeadOptions) (s : St W XmitError),
      fst (_head B path options (world s)) = Throw NotFoundError ->
      Core.supplied (head_ignoreHook options) (beforeHead hook) path options
      = Ok None ->
      fst (Core.head B hook path options s) = Throw NotFoundError)
  /\ (forall (W : Type) (B : Part006.Subclass W) (hook : Part006.Hook)
             (INVALID_CHARS : string -> bool)
             (ce : Err -> option Err -> Err) (path checked : string)
             (options : Part006.HeadOptions) (s : St W Err),
         INVALID_CHARS path = false ->
         Path.normalizePath path = Ok checked ->
         Part006.is_type Part006.Directory (Part006.with_type path options)
         && negb (Part006.supportDirectory B) = false ->
         fst (Part006._head B checked (Part006.with_type path options)
                (world s))
         = Throw NotFoundError ->
         Part006.supplied hook checked (Part006.with_type path options)
         = Ok None ->
         fst (Part006.head B hook ce INVALID_CHARS path options false s)
         = Throw (ce NotReadableError (Some NotFoundError))
         /\ fst (Part006.head B hook ce INVALID_CHARS path options true s)
            = Ok None
         /\ copyErrors
              (snd (Part006.head B hook ce INVALID_CHARS path options
                      true s))
            = copyErrors s ++ [ce NotReadableError (Some NotFoundError)])
  /\ createError NotReadableError (Some NotFoundError) = NotFoundError.
Proof.
  split; [ | split ].
  - intros W B hook path options s Hp Hs.
    apply HookPipeline.head_surfaces_primitive_error; assumption.
  - intros W B hook IC ce path checked options s Hi Hn Hd Hp Hs.
    apply (@later_head_NotFound W B hook IC ce path options checked s);
      assumption.
  - reflexivity.
Qed.

(** C5 at concrete inputs: [/nothing] in the sample world, through
    core.ts and through part_006. *)
Lemma head_NotFound_unless_hooked_witness :
  fst (Core.head MemFS.backend no_hook "/nothing" no_HeadOptions
         Instances.start) = Throw NotFoundError
  /\ fst (Part006.head Instances.mem_fs Instances.no_later_hook createError
            Instances.has_backslash "/nothing" Instances.later_HeadOptions
            false (init_St MemFS.sample))
     = Throw NotFoundError.
Proof.
  split.
  - apply (proj1 head_NotFound_unless_hooked _ MemFS.backend no_hook
             "/nothing" no_HeadOptions Instances.start);
      reflexivity.
  - apply (proj1 (proj1 (proj2 head_NotFound_unless_hooked) _
                    Instances.mem_fs Instances.no_later_hook
                    Instances.has_backslash createError "/nothing"
                    "/nothing" Instances.later_HeadOptions
                    (init_St MemFS.sample)
                    eq_refl eq_refl eq_refl eq_refl eq_refl)).
Defined.

(** C5 refuted as stated: with a caching [beforeHead], [head] of the
    absent [/nothing] resolves with the Stats of the hook. *)
Lemma cached_head_of_absent_path :
  ~ Statements.head_of_absent_path_fails.
Proof.
  intros H.
  specialize (H _ MemFS.backend Instances.caching_hook "/nothing"
                no_HeadOptions Instances.start eq_refl).
  vm_compute in H. discriminate H.
Qed.

(** The run behind it. *)
Example cached_head_run :
  let r := Core.head MemFS.backend Instances.caching_hook "/nothing"
             no_HeadOptions Instances.start in
  fst r = Ok Instances.some_stats
  /\ log (snd r)
     = [EvHook beforeHead_ "/nothing"; EvHook afterHead_ "/nothing"].
Proof. vm_compute. auto. Qed.

End LaterHead.

(** ** The later revision of the file transfer (AbstractFile.ts) *)

Module LaterFile.
Section WithStreams.
Import AbstractFile_ts.
Context {W RS WS : Type}.
Local Abbreviation FS := (@M (St W XmitError)).
Context (head : string -> FS Stats)
        (delete : string -> FS unit)
        (createReadStream : string -> option nat -> FS RS)
        (createWriteStream : string -> bool -> option nat -> FS WS)
        (pipe : RS -> WS -> FS unit)
        (rs_close : RS -> FS unit)
        (ws_close : WS -> FS unit).
Implicit Types s : St W XmitError.

Local Abbreviation xmit :=
  (_xmit head delete createReadStream createWriteStream pipe rs_close
     ws_close).
Local Abbreviation copied :=
  (fun this to_ options =>
     head this ;;;
     transfer head createReadStream createWriteStream pipe rs_close
       ws_close this to_ options).

(** Here a move deletes the source once the content has been
    transferred; a failed deletion becomes an entry of the error list and
    [_xmit] returns all the same, leaving what the transfer has done. *)
Lemma move_deletes_source this to_ options s s1 :
  move options = true ->
  copied this to_ options s = (Ok tt, s1) ->
  xmit this (AbstractFile to_) options s
  = match delete this s1 with
    | (Throw e, s2) =>
        (Ok tt,
         {| world := world s2; log := log s2;
            copyErrors :=
              copyErrors s2
              ++ [{| from := AbstractFile this; to := AbstractFile to_;
                     error := e |}] |})
    | r => r
    end.
Proof.
  intros Hm Hc. unfold _xmit. unfold bind in *.
  destruct (head this s) as [[st | e |] s0]; try discriminate.
  destruct (transfer head createReadStream createWriteStream pipe rs_close
              ws_close this to_ options s0) as [[[] | e |] s1'];
    try discriminate.
  injection Hc as ->. rewrite Hm. unfold try_catch, push.
  destruct (delete this s1) as [[[] | e |] s2]; reflexivity.
Qed.

(** A move whose transfer fails does not touch the source. *)
Lemma failed_transfer_keeps_source this to_ options s s1 e :
  copied this to_ options s = (Throw e, s1) ->
  xmit this (AbstractFile to_) options s = (Throw e, s1).
Proof.
  intros Hc. unfold _xmit. unfold bind in *.
  destruct (head this s) as [[st | e0 |] s0]; try discriminate.
  - destruct (transfer head createReadStream createWriteStream pipe
                rs_close ws_close this to_ options s0)
      as [[[] | e1 |] s1']; try discriminate.
    exact Hc.
  - exact Hc.
Qed.

End WithStreams.
End LaterFile.

(** ** Paths (util.ts) *)

Module PathProps.
Import Segments.

Lemma split_not_nil sep s : Path.split sep s <> [].
Proof.
  destruct s as [| c s]; simpl; [ discriminate | ].
  destruct (Ascii.eqb c sep); [ discriminate | ].
  destruct (Path.split sep s); discriminate.
Qed.

(** The pieces of a split hold no separator. *)
Lemma split_pieces sep s :
  Forall (fun p => contains sep p = false) (Path.split sep s).
Proof.
  induction s as [| c s IH]; simpl.
  - repeat constructor.
  - destruct (Ascii.eqb c sep) eqn:E.
    + constructor; [ reflexivity | exact IH ].
    + destruct (Path.split sep s) as [| x xs].
      * repeat constructor. simpl. rewrite E. reflexivity.
      * inversion IH; subst. constructor; auto.
        simpl. rewrite E. assumption.
Qed.

Lemma split_piece_id sep x :
  contains sep x = false -> Path.split sep x = [x].
Proof.
  induction x as [| c x IH]; simpl; intros H; [ reflexivity | ].
  apply orb_false_iff in H. destruct H as [E H].
  rewrite E, (IH H). reflexivity.
Qed.

Lemma split_app_sep sep x s :
  contains sep x = false ->
  Path.split sep (x ++ String sep s)%string = x :: Path.split sep s.
Proof.
  induction x as [| c x IH]; simpl; intros H.
  - rewrite Ascii.eqb_refl. reflexivity.
  - apply orb_false_iff in H. destruct H as [E H].
    rewrite E, IH by exact H. reflexivity.
Qed.

(** [parts.join(sep).split(sep)] gives the parts back when there is at
    least one and none holds the separator. *)
Lemma split_join sep parts :
  parts <> [] ->
  Forall (fun p => contains sep p = false) parts ->
  Path.split sep (String.concat (String sep "") parts) = parts.
Proof.
  induction parts as [| x parts IH]; intros Hne HF; [ congruence | ].
  inversion HF as [| ? ? Hx HF']; subst.
  destruct parts as [| y parts].
  - simpl. apply split_piece_id. exact Hx.
  - change (String.concat (String sep "") (x :: y :: parts))
      with (x ++ String sep (String.concat (String sep "") (y :: parts)))%string.
    rewrite split_app_sep by exact Hx. rewrite IH; auto. discriminate.
Qed.

Lemma Forall_removelast {A} (P : A -> Prop) l :
  Forall P l -> Forall P (removelast l).
Proof.
  induction l as [| a l IH]; simpl; intros H; auto.
  inversion H; subst. destruct l; auto.
Qed.

Lemma is_name_spec part :
  is_name part = true
  <-> (String.eqb part "" = false /\ String.eqb part "." = false
       /\ String.eqb part ".." = false /\ contains "/"%char part = false).
Proof.
  unfold is_name. rewrite !andb_true_iff, !negb_true_iff. tauto.
Qed.

(** The loop keeps names only. *)
Lemma loop_names parts : forall acc r,
  Forall (fun p => contains "/"%char p = false) parts ->
  Forall (fun p => is_name p = true) acc ->
  Path.getPathParts_loop parts acc = Ok r ->
  Forall (fun p => is_name p = true) r.
Proof.
  induction parts as [| part rest IH]; simpl; intros acc r HF Hacc Hr.
  - injection Hr as <-. exact Hacc.
  - inversion HF as [| ? ? Hp HF']; subst.
    destruct (String.eqb part "..") eqn:E1.
    + destruct acc as [| a acc]; [ discriminate | ].
      apply (IH (removelast (a :: acc)) r HF'); [ | exact Hr ].
      apply Forall_removelast. exact Hacc.
    + destruct (String.eqb part ".") eqn:E2;
        [ apply (IH acc r HF' Hacc Hr) | ].
      destruct (String.eqb part "") eqn:E3; simpl in Hr;
        [ apply (IH acc r HF' Hacc Hr) | ].
      apply (IH (acc ++ [part]) r HF'); [ | exact Hr ].
      apply Forall_app. split; auto.
      repeat constructor. apply is_name_spec. auto.
Qed.

(** The only failure is [SyntaxError]. *)
Lemma loop_outcome parts : forall acc,
  (exists r, Path.getPathParts_loop parts acc = Ok r)
  \/ Path.getPathParts_loop parts acc = Throw SyntaxError.
Proof.
  induction parts as [| part rest IH]; simpl; intros acc.
  - left. eauto.
  - destruct (String.eqb part "..").
    + destruct acc; [ right; reflexivity | apply IH ].
    + destruct (String.eqb part "."); [ apply IH | ].
      destruct (negb (String.eqb part "")); apply IH.
Qed.

(** On names the loop appends. *)
Lemma loop_on_names parts : forall acc,
  Forall (fun p => is_name p = true) parts ->
  Path.getPathParts_loop parts acc = Ok (acc ++ parts).
Proof.
  induction parts as [| part rest IH]; simpl; intros acc HF.
  - rewrite app_nil_r. reflexivity.
  - inversion HF as [| ? ? Hp HF']; subst.
    apply is_name_spec in Hp. destruct Hp as (E3 & E2 & E1 & _).
    rewrite E1, E2, E3. simpl. rewrite IH by exact HF'.
    rewrite <- app_assoc. reflexivity.
Qed.

Lemma names_no_sep parts :
  Forall (fun p => is_name p = true) parts ->
  Forall (fun p => contains "/"%char p = false) parts.
Proof.
  apply Forall_impl. intros p H. apply is_name_spec in H. tauto.
Qed.

(** Reading an absolute path of names gives the names back. *)
Lemma getPathParts_absolute parts :
  Forall (fun p => is_name p = true) parts ->
  Path.getPathParts (Path.absolute parts) = Ok parts.
Proof.
  intros HF. unfold Path.getPathParts, Path.absolute.
  change ("/" ++ String.concat "/" parts)%string
    with (String "/"%char (String.concat "/" parts)).
  simpl Path.split.
  destruct parts as [| x parts].
  - reflexivity.
  - rewrite split_join; [ | discriminate | apply names_no_sep; exact HF ].
    simpl. apply (@loop_on_names (x :: parts) [] HF).
Qed.

Lemma getPathParts_names path parts :
  Path.getPathParts path = Ok parts ->
  Forall (fun p => is_name p = true) parts.
Proof.
  unfold Path.getPathParts. intros H.
  apply (@loop_names (Path.split "/" path) [] parts);
    [ apply split_pieces | constructor | exact H ].
Qed.

Lemma getPathParts_outcome path :
  (exists r, Path.getPathParts path = Ok r)
  \/ Path.getPathParts path = Throw SyntaxError.
Proof. apply loop_outcome. Qed.


Lemma getPathParts_name x :
  is_name x = true -> Path.getPathParts x = Ok [x].
Proof.
  intros H. unfold Path.getPathParts.
  rewrite split_piece_id by (apply is_name_spec in H; tauto).
  apply (@loop_on_names [x] []). repeat constructor. exact H.
Qed.

Lemma loop_failure parts : forall acc e,
  Path.getPathParts_loop parts acc = Throw e ->
  e = SyntaxError /\ In ".."%string parts.
Proof.
  induction parts as [| part rest IH]; simpl; intros acc e H;
    [ discriminate | ].
  destruct (String.eqb part "..") eqn:E1.
  - apply String.eqb_eq in E1. subst part.
    destruct acc as [| a acc].
    + injection H as <-. auto.
    + destruct (IH _ _ H). auto.
  - destruct (String.eqb part ".");
      [ destruct (IH _ _ H); auto | ].
    destruct (negb (String.eqb part "")); destruct (IH _ _ H); auto.
Qed.

Lemma loop_never_diverges parts : forall acc,
  Path.getPathParts_loop parts acc <> Diverge.
Proof.
  intros acc. destruct (loop_outcome parts acc) as [[r H] | H];
    rewrite H; discriminate.
Qed.

(** X1: [normalizePath] is idempotent: normalising its result changes
    nothing, and a path it rejects stays rejected. *)
Theorem normalizePath_idempotent path :
  Path.bindO (Path.normalizePath path) Path.normalizePath
  = Path.normalizePath path.
Proof.
  unfold Path.normalizePath at 1 3.
  destruct (Path.getPathParts path) as [parts | e |] eqn:E; simpl; auto.
  unfold Path.normalizePath.
  rewrite getPathParts_absolute by (eapply getPathParts_names; exact E).
  reflexivity.
Qed.

(** X2: the only failure of [normalizePath] is [SyntaxError], and it
    takes a [".."] segment in the path to get it. *)
Theorem normalizePath_failure path e :
  Path.normalizePath path = Throw e ->
  e = SyntaxError /\ In ".."%string (Path.split "/" path).
Proof.
  unfold Path.normalizePath, Path.getPathParts.
  destruct (Path.getPathParts_loop (Path.split "/" path) []) eqn:E;
    simpl; try discriminate.
  intros H. injection H as <-. eapply loop_failure. exact E.
Qed.

(** X2 at a concrete input. *)
Lemma normalizePath_failure_witness :
  Path.normalizePath "/a/../.." = Throw SyntaxError
  /\ (SyntaxError = SyntaxError
      /\ In ".."%string (Path.split "/" "/a/../..")).
Proof.
  split; [ reflexivity | ].
  apply (@normalizePath_failure "/a/../.." SyntaxError). reflexivity.
Defined.

Lemma last_is_name parts :
  parts <> [] -> Forall (fun p => is_name p = true) parts ->
  is_name (last parts ""%string) = true.
Proof.
  induction parts as [| x parts IH]; intros Hne HF; [ congruence | ].
  inversion HF; subst. destruct parts as [| y parts]; auto.
  apply IH; [ discriminate | assumption ].
Qed.

(** X3: joining the parent path and the name of a path gives the
    normalised path back, and fails exactly when the path is rejected. *)
Theorem parent_and_name_recompose path :
  Path.bindO (Path.getParentPath path) (fun parent =>
    Path.bindO (Path.getName path) (fun name =>
      Path.joinPaths parent name))
  = Path.normalizePath path.
Proof.
  unfold Path.getParentPath, Path.getName, Path.normalizePath.
  destruct (Path.getPathParts path) as [parts | e |] eqn:E; simpl; auto.
  pose proof (getPathParts_names _ E) as HF.
  destruct parts as [| x [| y parts]].
  - reflexivity.
  - simpl. unfold Path.joinPaths.
    inversion HF; subst.
    rewrite (@getPathParts_name x) by assumption. reflexivity.
  - cbv beta iota. simpl Nat.leb. cbv iota.
    unfold Path.joinPaths. cbv beta iota delta [Path.bindO].
    rewrite getPathParts_absolute by (apply Forall_removelast; exact HF).
    rewrite getPathParts_name
      by (apply last_is_name; [ discriminate | exact HF ]).
    rewrite <- app_removelast_last by discriminate. reflexivity.
Qed.

(** A name joined to a directory: the result has that name and the
    normalised directory as its parent. *)
Lemma joined_child_name dir name target :
  is_name name = true ->
  Path.joinPaths dir name = Ok target ->
  Path.getName target = Ok name
  /\ Path.getParentPath target = Path.normalizePath dir.
Proof.
  intros Hname. unfold Path.joinPaths, Path.normalizePath.
  destruct (Path.getPathParts dir) as [dparts | e |] eqn:Ed;
    cbv beta iota delta [Path.bindO]; try discriminate.
  rewrite getPathParts_name by exact Hname.
  intros Ht. injection Ht as <-.
  assert (HFd : Forall (fun p => is_name p = true) (dparts ++ [name])).
  { apply Forall_app. split; [ eapply getPathParts_names; exact Ed | ].
    repeat constructor. exact Hname. }
  unfold Path.getName, Path.getParentPath.
  rewrite getPathParts_absolute by exact HFd.
  cbv beta iota delta [Path.bindO].
  rewrite last_last, removelast_last.
  split.
  - destruct (dparts ++ [name]) eqn:Ea; [ | reflexivity ].
    destruct dparts; discriminate.
  - rewrite length_app.
    destruct dparts as [| d dparts]; [ reflexivity | ].
    replace (Nat.leb (length (d :: dparts) + length [name]) 1) with false;
      auto.
    symmetry. apply Nat.leb_gt. simpl. lia.
Qed.

(** X4: the destination of a child in a directory transfer,
    [joinPaths(toDir.path, getName(child))], has the child's name and the
    normalised target directory as its parent. *)
Theorem joined_child_placement dir child name target :
  Path.getName child = Ok name -> name <> ""%string ->
  Path.joinPaths dir name = Ok target ->
  Path.getName target = Ok name
  /\ Path.getParentPath target = Path.normalizePath dir.
Proof.
  unfold Path.getName at 1.
  destruct (Path.getPathParts child) as [parts | e |] eqn:E;
    cbv beta iota delta [Path.bindO]; try discriminate.
  pose proof (getPathParts_names _ E) as HF.
  destruct parts as [| x parts]; intros Hn Hne; [ congruence | ].
  assert (Hname : is_name name = true).
  { injection Hn as <-.
    apply (@last_is_name (x :: parts)); [ discriminate | exact HF ]. }
  apply joined_child_name. exact Hname.
Qed.

(** X4 at a concrete input. *)
Lemma joined_child_placement_witness :
  Path.getName "/d/e" = Ok "e"%string
  /\ Path.joinPaths "/d2/" "e" = Ok "/d2/e"%string
  /\ Path.getName "/d2/e" = Ok "e"%string
  /\ Path.getParentPath "/d2/e" = Path.normalizePath "/d2/".
Proof.
  split; [ reflexivity | ]. split; [ reflexivity | ].
  apply (@joined_child_placement "/d2/" "/d/e" "e" "/d2/e");
    [ reflexivity | discriminate | reflexivity ].
Defined.

(** X5: [joinPaths] is associative, failures included. *)
Theorem joinPaths_assoc a b c :
  Path.bindO (Path.joinPaths a b) (fun ab => Path.joinPaths ab c)
  = Path.bindO (Path.joinPaths b c) (fun bc => Path.joinPaths a bc).
Proof.
  unfold Path.joinPaths.
  destruct (getPathParts_outcome a) as [[pa Ha] | Ha];
  destruct (getPathParts_outcome b) as [[pb Hb] | Hb];
  destruct (getPathParts_outcome c) as [[pc Hc] | Hc];
  rewrite ?Ha, ?Hb, ?Hc; simpl; rewrite ?Ha, ?Hb, ?Hc; simpl;
    try reflexivity;
  repeat match goal with
         | H : Path.getPathParts _ = Ok _ |- _ =>
             apply getPathParts_names in H
         end;
  rewrite !getPathParts_absolute by (apply Forall_app; auto);
  simpl; rewrite ?app_assoc; reflexivity.
Qed.

End PathProps.

(** ** Hexadecimal digests (util.ts) *)

Module HexProps.
Import Hex.

Lemma entry_two_digits b :
  exists c1 c2, at_index LUT_HEX_8b (Byte.to_N b) = String c1 (String c2 "").
Proof. destruct b; do 2 eexists; reflexivity. Qed.

Lemma entry_decodes b :
  HexString.Raw.to_N (at_index LUT_HEX_8b (Byte.to_N b)) 0 = Byte.to_N b.
Proof. destruct b; reflexivity. Qed.

Lemma entry_injective a b :
  at_index LUT_HEX_8b (Byte.to_N a) = at_index LUT_HEX_8b (Byte.to_N b) ->
  a = b.
Proof.
  intros H.
  assert (E : Byte.to_N a = Byte.to_N b)
    by (rewrite <- (entry_decodes a), <- (entry_decodes b), H; reflexivity).
  apply (f_equal Byte.of_N) in E. rewrite !Byte.of_to_N in E.
  injection E as ->. reflexivity.
Qed.

Lemma append_assoc (a b c : string) :
  ((a ++ b) ++ c = a ++ (b ++ c))%string.
Proof. induction a as [| x a IH]; simpl; [ | rewrite IH ]; reflexivity. Qed.

Lemma append_empty_r (a : string) : (a ++ "" = a)%string.
Proof. induction a as [| x a IH]; simpl; [ | rewrite IH ]; reflexivity. Qed.

Lemma reduce_from acc u8 :
  fold_left (fun result i => result ++ at_index LUT_HEX_8b (Byte.to_N i))%string
    u8 acc
  = (acc ++ toHex u8)%string.
Proof.
  unfold toHex. revert acc.
  induction u8 as [| x u8 IH]; intros acc; simpl.
  - rewrite append_empty_r. reflexivity.
  - rewrite IH. rewrite (IH (at_index LUT_HEX_8b (Byte.to_N x))).
    apply append_assoc.
Qed.

Lemma toHex_cons x u8 :
  toHex (x :: u8) = (at_index LUT_HEX_8b (Byte.to_N x) ++ toHex u8)%string.
Proof. unfold toHex at 1. simpl. apply reduce_from. Qed.

(** Lower-case hexadecimal digits *)
Lemma entry_digits b :
  exists c1 c2,
    at_index LUT_HEX_8b (Byte.to_N b) = String c1 (String c2 "")
    /\ In c1 (list_ascii_of_string "0123456789abcdef")
    /\ In c2 (list_ascii_of_string "0123456789abcdef").
Proof.
  destruct b; do 2 eexists; (split; [ reflexivity | ]); simpl; tauto.
Qed.

(** X6: [toHex] writes every byte as two lower-case hexadecimal digits, in
    order: the digest of [n] bytes has [2 * n] characters, all of them
    among [0-9a-f], and the encoding of a concatenation is the
    concatenation of the encodings. *)
Theorem toHex_two_digits_per_byte :
  (forall u8, String.length (toHex u8) = 2 * length u8)
  /\ (forall u8,
        Forall (fun c => In c (list_ascii_of_string "0123456789abcdef"))
          (list_ascii_of_string (toHex u8)))
  /\ (forall a b, toHex (a ++ b) = (toHex a ++ toHex b)%string).
Proof.
  split; [ | split ].
  - induction u8 as [| x u8 IH]; [ reflexivity | ].
    rewrite toHex_cons.
    destruct (entry_two_digits x) as (c1 & c2 & ->).
    simpl. rewrite IH. simpl. lia.
  - induction u8 as [| x u8 IH]; [ constructor | ].
    rewrite toHex_cons.
    destruct (entry_digits x) as (c1 & c2 & -> & H1 & H2).
    simpl. constructor; [ exact H1 | ]. constructor; [ exact H2 | exact IH ].
  - induction a as [| x a IH]; intros b; [ reflexivity | ].
    simpl app. rewrite !toHex_cons, IH, append_assoc. reflexivity.
Qed.

(** X7: [toHex] is injective: two byte arrays with the same hexadecimal
    text are the same array. *)
Theorem toHex_injective a : forall b, toHex a = toHex b -> a = b.
Proof.
  induction a as [| x a IH]; intros [| y b] H.
  - reflexivity.
  - rewrite toHex_cons in H.
    destruct (entry_two_digits y) as (c1 & c2 & E). rewrite E in H.
    discriminate.
  - rewrite toHex_cons in H.
    destruct (entry_two_digits x) as (c1 & c2 & E). rewrite E in H.
    discriminate.
  - rewrite !toHex_cons in H.
    destruct (entry_two_digits x) as (c1 & c2 & Ex).
    destruct (entry_two_digits y) as (d1 & d2 & Ey).
    assert (Hxy : x = y).
    { apply entry_injective. rewrite Ex, Ey in *. simpl in H.
      injection H as -> -> _. reflexivity. }
    subst y. f_equal. apply IH.
    rewrite Ex in H. simpl in H. injection H as H. exact H.
Qed.

(** X7 at a concrete input. *)
Lemma toHex_injective_witness :
  toHex [Byte.x00; Byte.xff] = "00ff"%string
  /\ [Byte.x00; Byte.xff] = [Byte.x00; Byte.xff].
Proof.
  split; [ reflexivity | ].
  apply (@toHex_injective [Byte.x00; Byte.xff] [Byte.x00; Byte.xff]).
  reflexivity.
Defined.

End HexProps.

(** ** Seeking (part_001, AbstractStream) *)

Module Seeking.
Import AbstractStream.

(** Up to [2^53] in absolute value every integer is a double. *)
Lemma round53_exact z : (Z.abs z <= 2 ^ 53)%Z -> round53 z = z.
Proof.
  intros H. unfold round53.
  destruct (Z.ltb_spec (Z.abs z) (2 ^ 53)) as [Hlt | Hge]; [ reflexivity | ].
  assert (Hz : z = (2 ^ 53)%Z \/ z = (- 2 ^ 53)%Z) by lia.
  destruct Hz as [-> | ->]; vm_compute; reflexivity.
Qed.

(** Beyond [2^53] the rounding goes to a multiple of [2^e] at most half
    a step away, [e] being the exponent of the last of the 53 bits. *)
Lemma round53_nearest z :
  (2 ^ 53 <= Z.abs z)%Z ->
  let e := (Z.log2 (Z.abs z) - 52)%Z in
  (exists m, round53 z = m * 2 ^ e)%Z
  /\ (2 * Z.abs (round53 z - z) <= 2 ^ e)%Z.
Proof.
  intros H e. unfold round53.
  destruct (Z.ltb_spec (Z.abs z) (2 ^ 53)) as [Hlt | _]; [ lia | ].
  fold e.
  assert (He : (1 <= e)%Z).
  { unfold e. assert (53 <= Z.log2 (Z.abs z))%Z; [ | lia ].
    apply Z.log2_le_pow2; lia. }
  assert (Hp : (0 < 2 ^ e)%Z) by (apply Z.pow_pos_nonneg; lia).
  assert (Hh : (2 ^ e = 2 * 2 ^ (e - 1))%Z).
  { replace e with (Z.succ (e - 1)) at 1 by lia.
    rewrite Z.pow_succ_r by lia. reflexivity. }
  pose proof (Z.div_mod (Z.abs z) (2 ^ e) ltac:(lia)) as Hdm.
  pose proof (Z.mod_pos_bound (Z.abs z) (2 ^ e) Hp) as Hr.
  set (q := (Z.abs z / 2 ^ e)%Z) in *.
  set (r := (Z.abs z mod 2 ^ e)%Z) in *.
  set (half := (2 ^ (e - 1))%Z) in *.
  set (P := (2 ^ e)%Z) in *.
  split.
  - eexists. rewrite Z.mul_assoc. reflexivity.
  - assert (Hq : forall q', (Z.abs (q' * P - Z.abs z) <= half)%Z ->
                       (2 * Z.abs (Z.sgn z * (q' * P) - z) <= P)%Z).
    { intros q' Hq'.
      destruct (Z.sgn_spec z) as [[Hz Hs] | [[Hz Hs] | [Hz Hs]]];
        rewrite Hs; lia. }
    destruct (Z.ltb_spec r half); [ | destruct (Z.ltb_spec half r);
                                      [ | destruct (Z.even q) ] ];
      apply Hq; lia.
Qed.

(** The clamping of a sum in a file of [n] bytes. *)
Lemma clamp_number n x :
  (0 <= n < 2 ^ 1024)%Z ->
  clamp (Int n) (number x) = Int (Z.max 0 (Z.min n (round53 x))).
Proof.
  intros Hn. unfold number, clamp.
  set (T := (2 ^ 1024)%Z) in *.
  assert (HT : (0 < T)%Z) by (unfold T; apply Z.pow_pos_nonneg; lia).
  destruct (Z.leb_spec T (round53 x)); cbn [lt].
  - f_equal. lia.
  - destruct (Z.leb_spec (round53 x) (- T)); cbn [lt].
    + f_equal. lia.
    + repeat match goal with
             | |- context [(?a <? ?b)%Z] =>
                 destruct (Z.ltb_spec a b)
             end; f_equal; lia.
Qed.

Lemma clamp_Int n k :
  (0 <= n)%Z ->
  clamp (Int n) (Int k) = Int (Z.max 0 (Z.min n k)).
Proof.
  intros Hn. unfold clamp; cbn [lt].
  repeat match goal with
         | |- context [(?a <? ?b)%Z] => destruct (Z.ltb_spec a b)
         end; f_equal; lia.
Qed.

(** X8: on a file whose stat gives a size [n >= 0], [seek] with an
    integer offset from an integer position (all three of them doubles)
    leaves the position inside the file: at the requested place, the sum
    rounded the way [+] rounds it, clamped to [0..n].  [_seek] is called
    once, with that position, and the position has been moved even when
    [_seek] rejects.  As long as the exact sum is within [2^53] nothing
    is rounded. *)
Theorem seek_stays_within_file {W} (B : Subclass W) s stats n p k origin :
  fst (head B (world s)) = Ok stats ->
  size stats = Some n ->
  (0 <= n)%Z ->
  position s = Int p ->
  is_double n = true ->
  is_double p = true ->
  is_double k = true ->
  let exact := match origin with
               | Begin => k
               | Current => (p + k)%Z
               | End_ => (n + k)%Z
               end in
  let start := match origin with
               | Begin => k
               | _ => round53 exact
               end in
  let q := Z.max 0 (Z.min n start) in
  let r := seek B (Int k) origin s in
  position (snd r) = Int q
  /\ sought (snd r) = sought s ++ [Int q]
  /\ (0 <= q <= n)%Z
  /\ fst r = fst (_seek B (Int q) (snd (head B (world s))))
  /\ ((Z.abs exact <= 2 ^ 53)%Z -> q = Z.max 0 (Z.min n exact)).
Proof.
  intros Hh Hs Hn Hp Dn Dp Dk exact start q r.
  assert (Hb : (0 <= n < 2 ^ 1024)%Z).
  { unfold is_double in Dn. apply andb_prop in Dn. destruct Dn as [_ Dn].
    apply Z.ltb_lt in Dn. lia. }
  assert (Hc : clamp (Int n)
                 (match origin with
                  | Begin => Int k
                  | Current => add (position s) (Int k)
                  | End_ => add (Int n) (Int k)
                  end) = Int q).
  { rewrite Hp. unfold q, start, exact.
    destruct origin; cbn [add].
    - apply clamp_Int. exact Hn.
    - apply clamp_number. exact Hb.
    - apply clamp_number. exact Hb. }
  subst r. unfold seek, bind, file_head, get_position, set_position,
    call_seek.
  destruct (head B (world s)) as [o w] eqn:E. simpl in Hh. subst o.
  cbn [AbstractStream.position AbstractStream.world AbstractStream.sought
       fst snd].
  unfold size_as_number. rewrite Hs, Hc.
  cbn [AbstractStream.position AbstractStream.world AbstractStream.sought
       fst snd].
  assert (Hq : (0 <= q <= n)%Z) by (unfold q; lia).
  assert (Hx : (Z.abs exact <= 2 ^ 53)%Z -> q = Z.max 0 (Z.min n exact)).
  { intros Hx. unfold q, start.
    destruct origin; [ reflexivity | | ];
      rewrite (round53_exact _ Hx); reflexivity. }
  destruct (_seek B (Int q) w) as [[[] | e |] w'] eqn:E';
    cbn [AbstractStream.position AbstractStream.world AbstractStream.sought
         fst snd];
    repeat apply conj; try reflexivity; try apply Hq; exact Hx.
Qed.

(** X8 at a concrete input: from position 4 in a file of ten bytes, twenty
    bytes forward stops at the end of the file. *)
Lemma seek_stays_within_file_witness :
  let s := {| position := Int 4; world := tt; sought := [] |} in
  let r := seek ten_bytes (Int 20) Current s in
  position (snd r) = Int 10
  /\ sought (snd r) = [Int 10]
  /\ (0 <= 10 <= 10)%Z
  /\ fst r = Ok tt.
Proof.
  pose proof (@seek_stays_within_file unit ten_bytes
                {| position := Int 4; world := tt; sought := [] |}
                {| size := Some 10%Z; accessed := None; modified := None |}
                10%Z 4%Z 20%Z Current eq_refl eq_refl
                ltac:(lia) eq_refl eq_refl eq_refl eq_refl) as H.
  cbv zeta in H.
  destruct H as (H1 & H2 & H3 & H4 & _).
  repeat apply conj; [ exact H1 | exact H2 | lia | lia | exact H4 ].
Defined.

(** Where [+] rounds: one byte forward from position [2^53] in a file of
    [2^54] bytes leaves the position where it was, three bytes forward
    move it by four. *)
Example seek_rounds :
  position (snd (seek huge (Int 1) Current
                   {| position := Int (2 ^ 53); world := tt;
                      sought := [] |}))
  = Int (2 ^ 53)
  /\ position (snd (seek huge (Int 3) Current
                      {| position := Int (2 ^ 53); world := tt;
                         sought := [] |}))
     = Int (2 ^ 53 + 4).
Proof. split; vm_compute; reflexivity. Qed.

(** Ties go to the even neighbour, and what rounds to [2^1024] is an
    infinity, which the clamping brings back to the size. *)
Example round53_ties :
  round53 (2 ^ 53 + 1) = (2 ^ 53)%Z
  /\ round53 (2 ^ 53 + 2) = (2 ^ 53 + 2)%Z
  /\ round53 (2 ^ 53 + 3) = (2 ^ 53 + 4)%Z
  /\ round53 (- (2 ^ 54 + 6)) = (- (2 ^ 54 + 8))%Z
  /\ add (Int (2 ^ 1023)) (Int (2 ^ 1023)) = PosInf
  /\ clamp (Int 10) PosInf = Int 10
  /\ clamp (Int 10) NegInf = Int 0.
Proof. repeat apply conj; vm_compute; reflexivity. Qed.

End Seeking.

(** ** The write stream object over its life (AbstractWriteStream.ts) *)

Module StreamLife.
Import AbstractWriteStream.

Section WithSubclass.
Context {W : Type} (B : Subclass W) (hook : Hook).

Lemma call_cb_this h cb (s : State W) :
  this (snd (call_cb h cb s)) = this s.
Proof. destruct cb as [f |]; reflexivity. Qed.

(** No method assigns [file.path], [options], or clears [changed]. *)
Lemma step_keeps c s :
  path (this (step B hook c s)) = path (this s)
  /\ options (this (step B hook c s)) = options (this s)
  /\ (changed (this s) = true -> changed (this (step B hook c s)) = true).
Proof.
  destruct c as [src | size |]; simpl.
  - unfold write, bind, prim, get, set_position, set_changed, ret.
    destruct (_write B (this s) src (world s)) as [[n | e |] w]; simpl; auto.
  - unfold truncate, bind, prim, get, set_position, set_changed, ret.
    destruct (_truncate B (this s) size (world s)) as [[[] | e |] w];
      simpl; auto.
    destruct (Nat.ltb size (position (this s))); simpl; auto.
  - unfold close, bind, prim, get, set_position, set_changed, ret.
    destruct (_close B (this s) (world s)) as [[[] | e |] w]; simpl; auto.
    destruct (changed (this s)); simpl; auto.
    repeat match goal with
           | |- context [if ?b then _ else _] => destruct b; simpl
           end; rewrite ?call_cb_this; simpl; auto.
Qed.

Lemma run_keeps calls : forall s,
  path (this (run B hook calls s)) = path (this s)
  /\ options (this (run B hook calls s)) = options (this s)
  /\ (changed (this s) = true -> changed (this (run B hook calls s)) = true).
Proof.
  induction calls as [| c calls IH]; intros s; [ simpl; auto | ].
  change (run B hook (c :: calls) s) with (run B hook calls (step B hook c s)).
  destruct (IH (step B hook c s)) as (H1 & H2 & H3).
  destruct (step_keeps c s) as (K1 & K2 & K3).
  rewrite H1, H2, K1, K2. auto.
Qed.

Lemma run_app calls1 calls2 s :
  run B hook (calls1 ++ calls2) s = run B hook calls2 (run B hook calls1 s).
Proof. unfold run. apply fold_left_app. Qed.

Lemma run_log_grows calls : forall s,
  exists evs, log (run B hook calls s) = log s ++ evs.
Proof.
  induction calls as [| c calls IH]; intros s.
  - exists []. simpl. rewrite app_nil_r. reflexivity.
  - change (run B hook (c :: calls) s)
      with (run B hook calls (step B hook c s)).
    destruct (IH (step B hook c s)) as [evs ->].
    assert (exists e1, log (step B hook c s) = log s ++ e1) as [e1 ->].
    { destruct c as [src | size |]; simpl.
      - unfold write, bind, prim, get, set_position, set_changed, ret.
        destruct (_write B (this s) src (world s)) as [[n | e |] w]; simpl;
          eauto.
      - unfold truncate, bind, prim, get, set_position, set_changed, ret.
        destruct (_truncate B (this s) size (world s)) as [[[] | e |] w];
          simpl; eauto.
        destruct (Nat.ltb size (position (this s))); simpl; eauto.
      - unfold close, bind, prim, get, set_position, set_changed, ret.
        destruct (_close B (this s) (world s)) as [[[] | e |] w]; simpl;
          eauto.
        destruct (changed (this s)); simpl; eauto.
        repeat match goal with
               | |- context [if ?b then _ else _] => destruct b; simpl
               end; eauto;
        match goal with
        | |- context [call_cb ?h ?cb ?st] =>
            destruct cb as [f |]; simpl; eauto
        end;
        rewrite <- app_assoc; eauto. }
    rewrite <- app_assoc. eauto.
Qed.

(** X9: a call whose primitive rejects leaves the stream object as it
    was: [write] and [truncate] move the position and set [changed] only
    after the primitive has resolved, and [close] resets the position
    only after [_close] has. The caller gets the primitive's error. *)
Theorem rejected_call_leaves_stream s :
  (forall src,
      match fst (_write B (this s) src (world s)) with
      | Throw e =>
          fst (write B src s) = Throw e /\ this (snd (write B src s)) = this s
      | _ => True
      end)
  /\ (forall size,
        match fst (_truncate B (this s) size (world s)) with
        | Throw e =>
            fst (truncate B size s) = Throw e
            /\ this (snd (truncate B size s)) = this s
        | _ => True
        end)
  /\ match fst (_close B (this s) (world s)) with
     | Throw e =>
         fst (close B hook s) = Throw e
         /\ this (snd (close B hook s)) = this s
         /\ log (snd (close B hook s))
            = log s ++ [EvPrim P_close_write (path (this s))]
     | _ => True
     end.
Proof.
  split; [ | split ].
  - intros src. unfold write, bind, prim.
    destruct (_write B (this s) src (world s)) as [[n | e |] w]; simpl; auto.
  - intros size. unfold truncate, bind, prim.
    destruct (_truncate B (this s) size (world s)) as [[[] | e |] w];
      simpl; auto.
  - unfold close, bind, prim.
    destruct (_close B (this s) (world s)) as [[[] | e |] w]; simpl; auto.
Qed.

(** X10: [changed] is never cleared.  Once a mutation has gone through,
    every later [close] whose [_close] resolves notifies again, however
    many calls (other closes included) lie in between: on a stream opened
    to overwrite, with [afterPut] registered and hooks not ignored, the
    closing call of any session on a changed stream calls [afterPut]. *)
Theorem every_close_after_mutation_notifies calls s h :
  changed (this s) = true ->
  w_ignoreHook (options (this s)) = false ->
  truthy_create (options (this s)) = false ->
  afterPut hook = Some h ->
  fst (_close B (this (run B hook calls s)) (world (run B hook calls s)))
  = Ok tt ->
  changed (this (run B hook (calls ++ [call_close]) s)) = true
  /\ exists evs,
       events B hook (calls ++ [call_close]) s
       = evs ++ [EvPrim P_close_write (path (this s));
                 EvHook afterPut_ (path (this s))].
Proof.
  intros Hc Hi Ht Ha Hok.
  destruct (run_keeps calls s) as (K1 & K2 & K3).
  split.
  - destruct (run_keeps (calls ++ [call_close]) s) as (_ & _ & K); auto.
  - unfold events. rewrite run_app.
    destruct (run_log_grows calls s) as [evs Hl].
    exists evs.
    set (s1 := run B hook calls s) in *.
    change (run B hook [call_close] s1) with (snd (close B hook s1)).
    unfold close, bind, prim, get, set_position, ret.
    destruct (_close B (this s1) (world s1)) as [o w] eqn:E.
    simpl in Hok. subst o. simpl.
    rewrite (K3 Hc). simpl. rewrite K2, Hi, Ht, Ha, K1. simpl.
    rewrite andb_false_r. simpl.
    rewrite Hl, <- !app_assoc, skipn_length_app. reflexivity.
Qed.

End WithSubclass.

(** X10 at a concrete input: a write followed by two closes. *)
Lemma every_close_after_mutation_notifies_witness :
  let s := snd (write Instances.mem_stream (Text "x")
                  (fresh "/a.txt" Instances.overwrite_options MemFS.sample)) in
  changed (this (run Instances.mem_stream Instances.observing_hook
                   ([call_close] ++ [call_close]) s)) = true
  /\ exists evs,
       events Instances.mem_stream Instances.observing_hook
         ([call_close] ++ [call_close]) s
       = evs ++ [EvPrim P_close_write "/a.txt"; EvHook afterPut_ "/a.txt"].
Proof.
  exact (@every_close_after_mutation_notifies MemFS.World
           Instances.mem_stream Instances.observing_hook [call_close]
           (snd (write Instances.mem_stream (Text "x")
                   (fresh "/a.txt" Instances.overwrite_options
                      MemFS.sample)))
           (fun _ => Ok tt) eq_refl eq_refl eq_refl eq_refl eq_refl).
Defined.

End StreamLife.

(** ** What hooks can and cannot change (core.ts) *)

Module HookEffects.
Section WithBackend.
Context {W : Type} (B : Backend W) (hook : Hook).
Local Abbreviation FS := (@M (St W XmitError)).

(** X11: with [ignoreHook] set, [head], [delete], [list], [mkcol] and
    [openReadStream] run exactly as on a file system without hooks: same
    outcome, same world, same log. *)
Theorem ignoreHook_bypasses_every_hook :
  (forall path s,
      Core.head B hook path {| head_ignoreHook := true |} s
      = Core.head B no_hook path {| head_ignoreHook := true |} s)
  /\ (forall path force recursive s,
        Core.delete B hook path
          {| del_force := force; del_recursive := recursive;
             del_ignoreHook := true |} s
        = Core.delete B no_hook path
            {| del_force := force; del_recursive := recursive;
               del_ignoreHook := true |} s)
  /\ (forall path s,
        Core.ls B hook path {| list_ignoreHook := true |} s
        = Core.ls B no_hook path {| list_ignoreHook := true |} s)
  /\ (forall path recursive s,
        Core.mkcol B hook path
          {| mk_recursive := recursive; mk_ignoreHook := true |} s
        = Core.mkcol B no_hook path
            {| mk_recursive := recursive; mk_ignoreHook := true |} s)
  /\ (forall path size s,
        Core.openReadStream B hook path
          {| bufferSize := size; open_ignoreHook := true |} s
        = Core.openReadStream B no_hook path
            {| bufferSize := size; open_ignoreHook := true |} s)
  /\ (forall rs s,
        open_ignoreHook (rs_options rs) = true ->
        Core.rs_close B hook rs s = Core.rs_close B no_hook rs s)
  /\ (forall ws s,
        w_ignoreHook (ws_options ws) = true ->
        Core.ws_close B hook ws s = Core.ws_close B no_hook ws s).
Proof.
  repeat apply conj; intros.
  - unfold Core.head, Core.before, Core.after. simpl. reflexivity.
  - unfold Core.delete, Core.after. simpl. reflexivity.
  - unfold Core.ls, Core.before, Core.after. simpl. reflexivity.
  - unfold Core.mkcol, Core.after. simpl. reflexivity.
  - unfold Core.openReadStream, Core.before. simpl. reflexivity.
  - unfold Core.rs_close.
    match goal with H : _ = true |- _ => rewrite H end. reflexivity.
  - unfold Core.ws_close.
    match goal with H : _ = true |- _ => rewrite H end. simpl.
    unfold bind. destruct (prim _ _ s) as [[[] | e |] s1]; reflexivity.
Qed.


(** X13: the after hooks of [delete] and [mkcol] are awaited: when the
    primitive has succeeded and the after hook rejects, the operation
    rejects with the hook's error although the backend has done the work
    (the world is the one the primitive left). *)
Theorem rejecting_after_hook_fails_done_work path e :
  (forall options s a,
      del_ignoreHook options = false ->
      Core.delete_handled hook path options = Ok false ->
      fst (_delete B path options (world s)) = Ok tt ->
      afterDelete hook = Some a -> a path = Throw e ->
      let r := Core.delete B hook path options s in
      fst r = Throw e
      /\ world (snd r) = snd (_delete B path options (world s)))
  /\ (forall options s a,
        mk_ignoreHook options = false ->
        Core.mkcol_handled hook path options = Ok false ->
        fst (_mkcol B path options (world s)) = Ok tt ->
        afterMkcol hook = Some a -> a path = Throw e ->
        let r := Core.mkcol B hook path options s in
        fst r = Throw e
        /\ world (snd r) = snd (_mkcol B path options (world s))).
Proof.
  split; intros options s a Hi Hh Hp Ha He.
  - unfold Core.delete_handled in Hh. unfold Core.delete, Core.after.
    rewrite Hi in *. simpl in *. rewrite Ha. simpl.
    unfold bind, prim, call_hook, ret.
    destruct (beforeDelete hook) as [h |]; simpl.
    + rewrite Hh. simpl.
      destruct (_delete B path options (world s)) as [o w]. simpl in *.
      subst o. simpl. rewrite He. auto.
    + destruct (_delete B path options (world s)) as [o w]. simpl in *.
      subst o. simpl. rewrite He. auto.
  - unfold Core.mkcol_handled in Hh. unfold Core.mkcol, Core.after.
    rewrite Hi in *. simpl in *. rewrite Ha. simpl.
    unfold bind, prim, call_hook, ret.
    destruct (beforeMkcol hook) as [h |]; simpl.
    + rewrite Hh. simpl.
      destruct (_mkcol B path options (world s)) as [o w]. simpl in *.
      subst o. simpl. rewrite He. auto.
    + destruct (_mkcol B path options (world s)) as [o w]. simpl in *.
      subst o. simpl. rewrite He. auto.
Qed.


Lemma head_emits path options :
  emits (fun _ => True) (Core.head B hook path options).
Proof.
  unfold Core.head, Core.before, Core.after.
  repeat (emits_step; simpl; auto).
Qed.

(** X15: [ignoreHook] on [openWriteStream] silences [beforePost] and
    [beforePut] only.  The stat that decides between create and overwrite
    is made with default options, so its hooks are consulted all the same:
    the events of the call are those of [head(path)] with hooks enabled,
    followed by at most the invocation of [_openWriteStream]. *)
Theorem ignoreHook_keeps_stat_hooks path options s :
  w_ignoreHook options = true ->
  exists evs,
    trace (Core.openWriteStream B hook path options) s
    = trace (Core.head B hook path no_HeadOptions) s ++ evs
    /\ (evs = [] \/ evs = [EvPrim P_openWriteStream path]).
Proof.
  intros Hi. unfold trace.
  destruct (head_emits path no_HeadOptions s) as (e1 & H1 & _).
  unfold Core.openWriteStream, Core.openWriteStream_catch, Core.before,
    bind, try_catch, ret, throw, prim.
  destruct (Core.head B hook path no_HeadOptions s) as [[st | e |] s1];
    simpl in *.
  - destruct (create options) as [[|] |]; simpl; rewrite ?Hi; simpl.
    + exists []. rewrite app_nil_r. auto.
    + destruct (_openWriteStream B path _ (world s1)) as [o w]. simpl.
      exists [EvPrim P_openWriteStream path].
      rewrite H1, <- app_assoc, !skipn_length_app. auto.
    + destruct (_openWriteStream B path _ (world s1)) as [o w]. simpl.
      exists [EvPrim P_openWriteStream path].
      rewrite H1, <- app_assoc, !skipn_length_app. auto.
  - destruct (instanceof_NotFoundError e); simpl.
    + destruct (create options) as [[|] |]; simpl; rewrite ?Hi; simpl;
        try (exists []; rewrite app_nil_r; auto; fail);
        destruct (_openWriteStream B path _ (world s1)) as [o w]; simpl;
        exists [EvPrim P_openWriteStream path];
        rewrite H1, <- app_assoc, !skipn_length_app; auto.
    + exists []. rewrite app_nil_r. auto.
  - exists []. rewrite app_nil_r. auto.
Qed.

End WithBackend.

(** A [beforeDelete] answering [true]: nothing is deleted. *)
Example taking_over_deletes_nothing :
  let r := Core.delete MemFS.backend HookSets.taking_over_hook "/a.txt"
             no_DeleteOptions Instances.start in
  fst r = Ok tt
  /\ MemFS.exists_ "/a.txt" (world (snd r)) = true
  /\ log (snd r) = [EvHook beforeDelete_ "/a.txt"].
Proof. repeat split. Qed.

(** An [afterGet] whose promise rejects, and one that throws. *)
Example close_with_afterGet :
  fst (Core.rs_close MemFS.backend HookSets.watching_hook
         Instances.unread_stream Instances.start) = Ok tt
  /\ (let r := Core.rs_close MemFS.backend HookSets.throwing_afterGet
                 Instances.unread_stream Instances.start in
      fst r = Throw (BackendError "observer")
      /\ log (snd r)
         = [EvPrim P_close_read "/a.txt"; EvHook afterGet_ "/a.txt"]).
Proof. repeat apply conj; reflexivity. Qed.

(** X13 at a concrete input: [/a.txt] is gone and [delete] rejects. *)
Lemma rejecting_after_hook_fails_done_work_witness :
  let r := Core.delete MemFS.backend HookSets.rejecting_afterDelete
             "/a.txt" no_DeleteOptions Instances.start in
  fst r = Throw (BackendError "journal")
  /\ world (snd r)
     = snd (_delete MemFS.backend "/a.txt" no_DeleteOptions
              (world Instances.start)).
Proof.
  exact (proj1 (@rejecting_after_hook_fails_done_work MemFS.World
                  MemFS.backend HookSets.rejecting_afterDelete "/a.txt"
                  (BackendError "journal"))
           no_DeleteOptions Instances.start
           (fun _ => Throw (BackendError "journal"))
           eq_refl eq_refl eq_refl eq_refl eq_refl).
Defined.

(** X15 at a concrete input: the hooks of the stat are called. *)
Lemma ignoreHook_keeps_stat_hooks_witness :
  trace (Core.head MemFS.backend HookSets.watching_hook "/a.txt"
           no_HeadOptions) Instances.start
  = [EvHook beforeHead_ "/a.txt"; EvPrim P_head "/a.txt";
     EvHook afterHead_ "/a.txt"]
  /\ exists evs,
       trace (Core.openWriteStream MemFS.backend HookSets.watching_hook
                "/a.txt" (HookSets.ignoring None)) Instances.start
       = trace (Core.head MemFS.backend HookSets.watching_hook "/a.txt"
                  no_HeadOptions) Instances.start ++ evs
       /\ (evs = [] \/ evs = [EvPrim P_openWriteStream "/a.txt"]).
Proof.
  split; [ reflexivity | ].
  exact (@ignoreHook_keeps_stat_hooks MemFS.World MemFS.backend
           HookSets.watching_hook "/a.txt" (HookSets.ignoring None)
           Instances.start eq_refl).
Defined.

End HookEffects.

(** ** Observing hooks are transparent (core.ts) *)

Module HookTransparency.
Import Similar.

Section Alike.
Context {W E : Type}.
Local Abbreviation FS := (@M (St W E)).

Lemma alike_ret {A} (a : A) : alike (ret a : FS A) (ret a).
Proof. intros s1 s2 H. simpl. auto. Qed.

Lemma alike_throw {A} e : alike (throw e : FS A) (throw e).
Proof. intros s1 s2 H. simpl. auto. Qed.

Lemma alike_diverge {A} : alike (diverge : FS A) diverge.
Proof. intros s1 s2 H. simpl. auto. Qed.

Lemma alike_await {A} (o : Outcome A) : alike (await o : FS A) (await o).
Proof. intros s1 s2 H. simpl. auto. Qed.

Lemma alike_push x : alike (push x : FS unit) (push x).
Proof.
  intros s1 s2 [Hw Hc]. unfold push, same. simpl. rewrite Hw, Hc. auto.
Qed.

Lemma alike_prim {A} ev1 ev2 (f : W -> Outcome A * W) :
  alike (prim ev1 f : FS A) (prim ev2 f).
Proof.
  intros s1 s2 [Hw Hc]. unfold prim, same. rewrite Hw.
  destruct (f (world s2)) as [r w]. simpl. auto.
Qed.

(** A hook that was called and resolved to [a], against no call. *)
Lemma alike_call_hook {A} h path (a : A) :
  alike (call_hook h path (Ok a) : FS A) (ret a).
Proof. intros s1 s2 [Hw Hc]. unfold call_hook, same. simpl. auto. Qed.

Lemma alike_bind {A C} (m1 m2 : FS A) (k1 k2 : A -> FS C) :
  alike m1 m2 -> (forall a, alike (k1 a) (k2 a)) ->
  alike (bind m1 k1) (bind m2 k2).
Proof.
  intros Hm Hk s1 s2 H. unfold bind.
  destruct (Hm s1 s2 H) as [Ho Hs].
  destruct (m1 s1) as [o1 t1], (m2 s2) as [o2 t2]. simpl in *. subst o2.
  destruct o1 as [a | e |]; simpl; auto.
  apply Hk. exact Hs.
Qed.

Lemma alike_try_catch {A} (m1 m2 : FS A) (h1 h2 : Err -> FS A) :
  alike m1 m2 -> (forall e, alike (h1 e) (h2 e)) ->
  alike (try_catch m1 h1) (try_catch m2 h2).
Proof.
  intros Hm Hh s1 s2 H. unfold try_catch.
  destruct (Hm s1 s2 H) as [Ho Hs].
  destruct (m1 s1) as [o1 t1], (m2 s2) as [o2 t2]. simpl in *. subst o2.
  destruct o1 as [a | e |]; simpl; auto.
  apply Hh. exact Hs.
Qed.

Lemma alike_try_finally {A} (m1 m2 : FS A) (f1 f2 : FS unit) :
  alike m1 m2 -> alike f1 f2 ->
  alike (try_finally m1 f1) (try_finally m2 f2).
Proof.
  intros Hm Hf s1 s2 H. unfold try_finally.
  destruct (Hm s1 s2 H) as [Ho Hs].
  destruct (m1 s1) as [o1 t1], (m2 s2) as [o2 t2]. simpl in *. subst o2.
  destruct (Hf t1 t2 Hs) as [Ho' Hs'].
  destruct (f1 t1) as [p1 u1], (f2 t2) as [p2 u2]. simpl in *. subst p2.
  destruct o1 as [a | e |]; simpl; auto;
    destruct p1 as [[] | e' |]; simpl; auto.
Qed.

Lemma alike_no_await {A} (m1 m2 : FS A) :
  alike m1 m2 -> alike (no_await m1) (no_await m2).
Proof.
  intros Hm s1 s2 H. unfold no_await.
  destruct (Hm s1 s2 H) as [Ho Hs].
  destruct (m1 s1) as [o1 t1], (m2 s2) as [o2 t2]. simpl in *. subst o2.
  auto.
Qed.

(** A callback that is not awaited, returns a promise and has it
    dropped, against no call at all. *)
Lemma alike_dropped_hook {A} h path (o : Outcome A) :
  alike (call_unawaited h path (returns o) ;;; ret tt : FS unit) (ret tt).
Proof. intros s1 s2 [Hw Hc]. unfold same. simpl. auto. Qed.

Lemma alike_for_of {A} (l : list A) (b1 b2 : A -> FS unit) :
  (forall x, alike (b1 x) (b2 x)) -> alike (for_of l b1) (for_of l b2).
Proof.
  intros Hb. induction l as [| x l IH]; simpl.
  - apply alike_ret.
  - apply alike_bind; auto.
Qed.

End Alike.

Create HintDb alike.

#[local] Hint Resolve alike_ret alike_throw alike_diverge alike_await
  alike_push alike_prim alike_call_hook alike_dropped_hook : alike.

Ltac alike_step :=
  match goal with
  | |- alike (bind _ _) (bind _ _) => apply alike_bind; [ | intros ]
  | |- alike (try_catch _ _) (try_catch _ _) =>
      apply alike_try_catch; [ | intros ]
  | |- alike (try_finally _ _) (try_finally _ _) => apply alike_try_finally
  | |- alike (no_await _) (no_await _) => apply alike_no_await
  | |- alike (for_of _ _) (for_of _ _) => apply alike_for_of; intros
  | |- alike (if ?b then _ else _) (if ?b then _ else _) => destruct b
  | |- alike (match ?x with _ => _ end) (match ?x with _ => _ end) =>
      destruct x
  | |- alike _ _ => solve [ auto with alike ]
  end.

Section WithBackend.
Context {W : Type} (B : Backend W) (hook : Hook).
Hypothesis Hobs : HookSets.observes hook.
Local Abbreviation FS := (@M (St W XmitError)).

Lemma alike_before_head path o :
  alike (Core.before (head_ignoreHook o) beforeHead_ (beforeHead hook) path o
           : FS _)
        (Core.before (head_ignoreHook o) beforeHead_ (beforeHead no_hook)
           path o).
Proof.
  unfold Core.before. destruct (negb (head_ignoreHook o)); auto with alike.
  simpl. destruct (beforeHead hook) as [h |] eqn:E; auto with alike.
  rewrite (proj1 Hobs h path o E). auto with alike.
Qed.

Lemma alike_head path o :
  alike (Core.head B hook path o) (Core.head B no_hook path o).
Proof.
  unfold Core.head.
  apply alike_bind; [ apply alike_before_head | intros st ].
  apply alike_bind; [ destruct st; auto with alike | intros st' ].
  apply alike_bind; [ | auto with alike ].
  unfold Core.after. destruct (negb (head_ignoreHook o)); auto with alike.
  simpl. destruct (afterHead hook) as [h |] eqn:E; simpl; auto with alike.
  rewrite (proj1 (proj2 Hobs) h path st' E). auto with alike.
Qed.

Lemma alike_delete path o :
  alike (Core.delete B hook path o) (Core.delete B no_hook path o).
Proof.
  unfold Core.delete.
  apply alike_bind.
  - destruct (negb (del_ignoreHook o)); auto with alike.
    simpl. destruct (beforeDelete hook) as [h |] eqn:E; auto with alike.
    rewrite (proj1 (proj2 (proj2 Hobs)) h path o E). auto with alike.
  - intros [|]; auto with alike.
    apply alike_bind; [ auto with alike | intros _ ].
    unfold Core.after. destruct (negb (del_ignoreHook o)); auto with alike.
    simpl. destruct (afterDelete hook) as [h |] eqn:E; simpl;
      auto with alike.
    rewrite (proj1 (proj2 (proj2 (proj2 Hobs))) h path E). auto with alike.
Qed.

Lemma alike_ls path o :
  alike (Core.ls B hook path o) (Core.ls B no_hook path o).
Proof.
  destruct Hobs as (_ & _ & _ & _ & Hb & Ha & _).
  unfold Core.ls.
  apply alike_bind.
  - unfold Core.before. destruct (negb (list_ignoreHook o)); auto with alike.
    simpl. destruct (beforeList hook) as [h |] eqn:E; auto with alike.
    first [ rewrite (Hb h path o E) | rewrite (Hb h path o eq_refl) ]. auto with alike.
  - intros l. apply alike_bind; [ destruct l; auto with alike | intros l' ].
    apply alike_bind; [ | auto with alike ].
    unfold Core.after. destruct (negb (list_ignoreHook o)); auto with alike.
    simpl. destruct (afterList hook) as [h |] eqn:E; simpl; auto with alike.
    first [ rewrite (Ha h path l' E) | rewrite (Ha h path l' eq_refl) ]. auto with alike.
Qed.

Lemma alike_mkcol path o :
  alike (Core.mkcol B hook path o) (Core.mkcol B no_hook path o).
Proof.
  destruct Hobs as (_ & _ & _ & _ & _ & _ & Hb & Ha & _).
  unfold Core.mkcol.
  apply alike_bind.
  - destruct (negb (mk_ignoreHook o)); auto with alike.
    simpl. destruct (beforeMkcol hook) as [h |] eqn:E; auto with alike.
    first [ rewrite (Hb h path o E) | rewrite (Hb h path o eq_refl) ]. auto with alike.
  - intros [|]; auto with alike.
    apply alike_bind; [ auto with alike | intros _ ].
    unfold Core.after. destruct (negb (mk_ignoreHook o)); auto with alike.
    simpl. destruct (afterMkcol hook) as [h |] eqn:E; simpl;
      auto with alike.
    first [ rewrite (Ha h path E) | rewrite (Ha h path eq_refl) ]. auto with alike.
Qed.

Lemma alike_openReadStream path o :
  alike (Core.openReadStream B hook path o)
        (Core.openReadStream B no_hook path o).
Proof.
  destruct Hobs as (_ & _ & _ & _ & _ & _ & _ & _ & Hb & _).
  unfold Core.openReadStream.
  apply alike_bind.
  - unfold Core.before. destruct (negb (open_ignoreHook o)); auto with alike.
    simpl. destruct (beforeGet hook) as [h |] eqn:E; auto with alike.
    first [ rewrite (Hb h path o E) | rewrite (Hb h path o eq_refl) ]. auto with alike.
  - intros [rs |]; auto with alike.
Qed.

Lemma alike_before_post path o :
  alike (Core.before (w_ignoreHook o) beforePost_ (beforePost hook) path o
           : FS _)
        (Core.before (w_ignoreHook o) beforePost_ (beforePost no_hook)
           path o).
Proof.
  destruct Hobs as (_ & _ & _ & _ & _ & _ & _ & _ & _ & Hb & _).
  unfold Core.before. destruct (negb (w_ignoreHook o)); auto with alike.
  simpl. destruct (beforePost hook) as [h |] eqn:E; auto with alike.
  first [ rewrite (Hb h path o E) | rewrite (Hb h path o eq_refl) ]. auto with alike.
Qed.

Lemma alike_before_put path o :
  alike (Core.before (w_ignoreHook o) beforePut_ (beforePut hook) path o
           : FS _)
        (Core.before (w_ignoreHook o) beforePut_ (beforePut no_hook)
           path o).
Proof.
  destruct Hobs as (_ & _ & _ & _ & _ & _ & _ & _ & _ & _ & _ & Hb & _).
  unfold Core.before. destruct (negb (w_ignoreHook o)); auto with alike.
  simpl. destruct (beforePut hook) as [h |] eqn:E; auto with alike.
  first [ rewrite (Hb h path o E) | rewrite (Hb h path o eq_refl) ]. auto with alike.
Qed.

Lemma alike_openWriteStream_catch path o e :
  alike (Core.openWriteStream_catch hook path o e : FS _)
        (Core.openWriteStream_catch no_hook path o e).
Proof.
  unfold Core.openWriteStream_catch.
  destruct (instanceof_NotFoundError e); auto with alike.
  destruct (create o) as [[|] |]; auto with alike;
    (apply alike_bind; [ apply alike_before_post | auto with alike ]).
Qed.

Lemma alike_openWriteStream path o :
  alike (Core.openWriteStream B hook path o)
        (Core.openWriteStream B no_hook path o).
Proof.
  unfold Core.openWriteStream.
  apply alike_bind.
  - apply alike_bind.
    + apply alike_try_catch; [ | auto with alike ].
      apply alike_bind; [ apply alike_head | auto with alike ].
    + intros [e |]; [ apply alike_openWriteStream_catch | ].
      destruct (create o) as [[|] |];
        try apply alike_openWriteStream_catch;
        (apply alike_bind;
         [ apply alike_try_catch;
           [ apply alike_bind; [ apply alike_before_put | auto with alike ]
           | auto with alike ]
         | intros [ws | e];
           [ auto with alike | apply alike_openWriteStream_catch ] ]).
  - intros r. destruct (snd r); auto with alike.
Qed.

Lemma alike_rs_read rs :
  alike (Core.rs_read B rs : FS _) (Core.rs_read B rs).
Proof. unfold Core.rs_read. repeat alike_step. Qed.

Lemma alike_ws_write ws buffer :
  alike (Core.ws_write B ws buffer : FS _) (Core.ws_write B ws buffer).
Proof.
  unfold Core.ws_write. apply alike_bind; [ | auto with alike ].
  intros s1 s2 [Hw Hc]. unfold same. rewrite Hw.
  destruct (_write B ws buffer (world s2)) as [r w]. simpl. auto.
Qed.

Lemma alike_rs_close rs :
  alike (Core.rs_close B hook rs) (Core.rs_close B no_hook rs).
Proof.
  destruct Hobs as (_ & _ & _ & _ & _ & _ & _ & _ & _ & _ & _ & _ & _ & Hg).
  unfold Core.rs_close. apply alike_bind; [ auto with alike | intros _ ].
  destruct (negb (open_ignoreHook (rs_options rs))); auto with alike.
  simpl. destruct (afterGet hook) as [h |] eqn:E; auto with alike.
  destruct (Hg h (rs_path rs) eq_refl) as [o Ho]. rewrite Ho.
  apply alike_dropped_hook.
Qed.

Lemma alike_ws_close ws :
  alike (Core.ws_close B hook ws) (Core.ws_close B no_hook ws).
Proof.
  destruct Hobs
    as (_ & _ & _ & _ & _ & _ & _ & _ & _ & _ & Hpost & _ & Hput & _).
  unfold Core.ws_close. apply alike_bind; [ auto with alike | intros _ ].
  destruct (negb (ws_handled ws)); auto with alike.
  simpl. rewrite !andb_false_r. simpl.
  destruct (negb (w_ignoreHook (ws_options ws))); simpl; auto with alike.
  destruct (afterPost hook) as [h |] eqn:E1; simpl.
  - destruct (truthy_create (ws_options ws)); simpl.
    + first [ rewrite (Hpost h _ E1) | rewrite (Hpost h _ eq_refl) ]. auto with alike.
    + destruct (afterPut hook) as [h' |] eqn:E2; simpl; auto with alike.
      first [ rewrite (Hput h' _ E2) | rewrite (Hput h' _ eq_refl) ]. auto with alike.
  - destruct (afterPut hook) as [h' |] eqn:E2; simpl; auto with alike.
    destruct (truthy_create (ws_options ws)); simpl; auto with alike.
    first [ rewrite (Hput h' _ E2) | rewrite (Hput h' _ eq_refl) ]. auto with alike.
Qed.

Lemma alike_copy_loop fuel rs ws :
  alike (Core.copy_loop B fuel rs ws : FS _) (Core.copy_loop B fuel rs ws).
Proof.
  induction fuel as [| fuel IH]; simpl; [ auto with alike | ].
  apply alike_bind; [ apply alike_no_await, alike_rs_read | intros p ].
  destruct (promise_eq_null p); auto with alike.
Qed.

Lemma alike_file_xmit fuel this fso move options :
  alike (Core.file_xmit B hook fuel this fso move options)
        (Core.file_xmit B no_hook fuel this fso move options).
Proof.
  unfold Core.file_xmit.
  apply alike_bind; [ apply alike_head | intros _ ].
  destruct fso as [to_ | d]; [ | auto with alike ].
  apply alike_bind; [ apply alike_openReadStream | intros rs ].
  apply alike_bind.
  - apply alike_try_finally.
    + apply alike_bind.
      * apply alike_try_catch.
        -- apply alike_bind; [ apply alike_head | auto with alike ].
        -- intros e. destruct (instanceof_NotFoundError e); auto with alike.
      * intros c. apply alike_bind; [ apply alike_openWriteStream | ].
        intros ws. apply alike_try_finally; [ apply alike_copy_loop | ].
        apply alike_bind; [ apply alike_no_await, alike_ws_close | ].
        auto with alike.
    + apply alike_bind; [ apply alike_no_await, alike_rs_close | ].
      auto with alike.
  - intros _. destruct move; auto with alike.
    apply alike_try_catch; auto with alike.
Qed.

Lemma alike_dir_xmit_child xmit1 xmit2 toDir move options child :
  (forall a b m o, alike (xmit1 a b m o : FS unit) (xmit2 a b m o)) ->
  alike (Core.dir_xmit_child B hook xmit1 toDir move options child)
        (Core.dir_xmit_child B no_hook xmit2 toDir move options child).
Proof.
  intros Hx. unfold Core.dir_xmit_child.
  apply alike_bind; [ apply alike_head | intros stats ].
  apply alike_bind; [ auto with alike | intros name ].
  apply alike_bind; [ auto with alike | intros toPath ].
  apply alike_try_catch; [ | auto with alike ].
  apply alike_bind; [ apply Hx | intros _ ].
  destruct move; auto with alike.
  apply alike_try_catch; [ apply alike_delete | auto with alike ].
Qed.

Lemma alike_xmit fuel : forall this fso move options,
  alike (Core._xmit B hook fuel this fso move options)
        (Core._xmit B no_hook fuel this fso move options).
Proof.
  induction fuel as [| fuel IH]; intros this fso move options; simpl;
    [ auto with alike | ].
  destruct this as [p | p]; [ apply alike_file_xmit | ].
  unfold Core.dir_xmit.
  apply alike_bind; [ apply alike_head | intros _ ].
  destruct fso as [f | toDir]; [ auto with alike | ].
  apply alike_bind; [ apply alike_mkcol | intros _ ].
  apply alike_bind; [ apply alike_ls | intros children ].
  apply alike_for_of. intros child.
  apply alike_dir_xmit_child. exact IH.
Qed.

Lemma alike_new_copyErrors :
  alike (Core.new_copyErrors : FS unit) Core.new_copyErrors.
Proof. intros s1 s2 [Hw Hc]. unfold same. simpl. auto. Qed.

Lemma alike_return_copyErrors :
  alike (Core.return_copyErrors : FS _) Core.return_copyErrors.
Proof. intros s1 s2 [Hw Hc]. unfold same. simpl. rewrite Hc. auto. Qed.

Lemma alike_fs_xmit fuel fromPath toPath move options :
  alike
    (ft <- Core._prepareXmit B hook fromPath toPath ;;
     Core.new_copyErrors ;;;
     Core._xmit B hook fuel (fst ft) (snd ft) move options ;;;
     Core.return_copyErrors)
    (ft <- Core._prepareXmit B no_hook fromPath toPath ;;
     Core.new_copyErrors ;;;
     Core._xmit B no_hook fuel (fst ft) (snd ft) move options ;;;
     Core.return_copyErrors).
Proof.
  apply alike_bind.
  - unfold Core._prepareXmit, Core.stat.
    apply alike_bind; [ apply alike_head | auto with alike ].
  - intros ft. apply alike_bind; [ apply alike_new_copyErrors | intros _ ].
    apply alike_bind; [ apply alike_xmit | intros _ ].
    apply alike_return_copyErrors.
Qed.

End WithBackend.

(** X16: hooks that only observe are transparent.  When every registered
    before hook declines ([null] or [false]), every registered awaited
    after hook resolves and [afterGet] returns a promise, each operation
    of the core settles exactly as on a file system without hooks and
    leaves the same world and the same collected errors; only the log of
    invocations differs.  The promise of [afterGet] is not required to
    resolve, as it is never awaited. *)
Theorem observing_hooks_are_transparent {W} (B : Backend W) hook :
  HookSets.observes hook ->
  (forall path o,
      alike (Core.head B hook path o) (Core.head B no_hook path o))
  /\ (forall path o,
        alike (Core.delete B hook path o) (Core.delete B no_hook path o))
  /\ (forall path o, alike (Core.ls B hook path o) (Core.ls B no_hook path o))
  /\ (forall path o,
        alike (Core.mkcol B hook path o) (Core.mkcol B no_hook path o))
  /\ (forall path o,
        alike (Core.openReadStream B hook path o)
              (Core.openReadStream B no_hook path o))
  /\ (forall path o,
        alike (Core.openWriteStream B hook path o)
              (Core.openWriteStream B no_hook path o))
  /\ (forall rs, alike (Core.rs_close B hook rs) (Core.rs_close B no_hook rs))
  /\ (forall ws, alike (Core.ws_close B hook ws) (Core.ws_close B no_hook ws))
  /\ (forall fuel fromPath toPath o,
        alike (Core.fs_copy B hook fuel fromPath toPath o)
              (Core.fs_copy B no_hook fuel fromPath toPath o))
  /\ (forall fuel fromPath toPath o,
        alike (Core.fs_move B hook fuel fromPath toPath o)
              (Core.fs_move B no_hook fuel fromPath toPath o)).
Proof.
  intros Hobs. repeat apply conj; intros.
  - apply alike_head; assumption.
  - apply alike_delete; assumption.
  - apply alike_ls; assumption.
  - apply alike_mkcol; assumption.
  - apply alike_openReadStream; assumption.
  - apply alike_openWriteStream; assumption.
  - apply alike_rs_close; assumption.
  - apply alike_ws_close; assumption.
  - apply (alike_fs_xmit B Hobs fuel fromPath toPath false o).
  - apply (alike_fs_xmit B Hobs fuel fromPath toPath true o).
Qed.

Lemma watching_hook_observes : HookSets.observes HookSets.watching_hook.
Proof.
  unfold HookSets.observes, HookSets.watching_hook. simpl.
  repeat apply conj; intros h; intros;
    match goal with H : Some _ = Some _ |- _ => injection H as <- end;
    try reflexivity.
  eexists. reflexivity.
Qed.

(** X16 at a concrete input: copying [/d] with and without observers. *)
Lemma observing_hooks_are_transparent_witness :
  let watched := Core.fs_copy MemFS.backend HookSets.watching_hook 4 "/d"
                   "/d2" Instances.default_XmitOptions Instances.start in
  let plain := Core.fs_copy MemFS.backend no_hook 4 "/d" "/d2"
                 Instances.default_XmitOptions Instances.start in
  fst watched = fst plain /\ same (snd watched) (snd plain).
Proof.
  exact (proj1 (proj2 (proj2 (proj2 (proj2 (proj2 (proj2 (proj2 (proj2
           (@observing_hooks_are_transparent MemFS.World MemFS.backend
              HookSets.watching_hook watching_hook_observes)))))))))
           4 "/d" "/d2" Instances.default_XmitOptions
           Instances.start Instances.start (conj eq_refl eq_refl)).
Defined.

End HookTransparency.

(** ** Transfers and digests (core.ts) *)

Module Transfers.

Section Traces.
Context {W E : Type}.
Local Abbreviation FS := (@M (St W E)).
Local Abbreviation any := (fun _ : Event => True).

Lemma emits_weaken (P Q : Event -> Prop) {A} (m : FS A) :
  (forall ev, P ev -> Q ev) -> emits P m -> emits Q m.
Proof.
  intros HPQ Hm s. destruct (Hm s) as (evs & Hl & HF).
  exists evs. split; [ exact Hl | ].
  eapply Forall_impl; [ | exact HF ]. exact HPQ.
Qed.

Lemma trace_bind {A C} (m : FS A) (k : A -> FS C) s a :
  emits any m -> fst (m s) = Ok a -> emits any (k a) ->
  trace (bind m k) s = trace m s ++ trace (k a) (snd (m s)).
Proof.
  intros Hm Ha Hk. unfold trace, bind.
  destruct (Hm s) as (e1 & H1 & _).
  destruct (m s) as [o s1]. simpl in *. subst o.
  destruct (Hk s1) as (e2 & H2 & _).
  rewrite H2, H1. rewrite (skipn_length_app (log s ++ e1) e2).
  rewrite <- app_assoc. rewrite !skipn_length_app. reflexivity.
Qed.

(** What [m] has logged stays logged. *)
Lemma trace_bind_prefix {A C} (m : FS A) (k : A -> FS C) s :
  emits any m -> (forall a, emits any (k a)) ->
  exists evs, trace (bind m k) s = trace m s ++ evs.
Proof.
  intros Hm Hk. unfold trace, bind.
  destruct (Hm s) as (e1 & H1 & _).
  destruct (m s) as [[a | e |] s1]; simpl in *;
    try (exists []; rewrite app_nil_r; reflexivity).
  destruct (Hk a s1) as (e2 & H2 & _).
  exists e2. rewrite H2, H1, <- app_assoc, !skipn_length_app. reflexivity.
Qed.

(** The [finally] block runs whenever the [try] block comes to an end. *)
Lemma trace_try_finally {A} (m : FS A) (f : FS unit) s :
  emits any m -> emits any f ->
  match fst (m s) with
  | Diverge => True
  | _ => trace (try_finally m f) s = trace m s ++ trace f (snd (m s))
  end.
Proof.
  intros Hm Hf. unfold trace, try_finally.
  destruct (Hm s) as (e1 & H1 & _).
  destruct (m s) as [o s1]. simpl in *.
  destruct (Hf s1) as (e2 & H2 & _).
  destruct o as [a | e |]; auto;
    destruct (f s1) as [[[] | e' |] s2]; simpl in *;
    rewrite H2, H1; rewrite (skipn_length_app (log s ++ e1) e2);
    rewrite <- app_assoc; rewrite !skipn_length_app; reflexivity.
Qed.

End Traces.

Section WithBackend.
Context {W : Type} (B : Backend W) (hook : Hook).
Local Abbreviation FS := (@M (St W XmitError)).
Local Abbreviation any := (fun _ : Event => True).
Local Abbreviation keeps := (fun ev : Event => is_delete ev = false).

Ltac emits_all :=
  repeat (first [ emits_step | progress simpl ]; auto).

Lemma head_keeps path o : emits keeps (Core.head B hook path o).
Proof. unfold Core.head, Core.before, Core.after. emits_all. Qed.

Lemma mkcol_keeps path o : emits keeps (Core.mkcol B hook path o).
Proof. unfold Core.mkcol, Core.after. emits_all. Qed.

Lemma ls_keeps path o : emits keeps (Core.ls B hook path o).
Proof. unfold Core.ls, Core.before, Core.after. emits_all. Qed.

Lemma file_xmit_keeps fuel this fso move options :
  emits keeps (Core.file_xmit B hook fuel this fso move options).
Proof.
  eapply emits_weaken; [ | apply Xmit.file_xmit_inert ].
  intros ev [_ H]. exact H.
Qed.

Lemma xmit_copy_keeps fuel : forall this fso options,
  emits keeps (Core._xmit B hook fuel this fso false options).
Proof.
  induction fuel as [| fuel IH]; intros this fso options; simpl.
  - apply emits_diverge.
  - destruct this as [p | p]; [ apply file_xmit_keeps | ].
    unfold Core.dir_xmit.
    apply emits_bind; [ apply head_keeps | intros _ ].
    destruct fso as [f | toDir]; [ apply emits_throw | ].
    apply emits_bind; [ apply mkcol_keeps | intros _ ].
    apply emits_bind; [ apply ls_keeps | intros children ].
    apply emits_for_of. intros child. unfold Core.dir_xmit_child.
    apply emits_bind; [ apply head_keeps | intros stats ].
    apply emits_bind; [ apply emits_await | intros name ].
    apply emits_bind; [ apply emits_await | intros toPath ].
    apply emits_try_catch; [ | intros e; apply emits_push ].
    apply emits_bind; [ apply IH | intros _; apply emits_ret ].
Qed.

(** X17: a copy never deletes.  Whatever the tree, the backend and the
    hooks, [copy] never invokes [_delete] and never calls [beforeDelete]
    or [afterDelete]. *)
Theorem copy_never_deletes fuel fromPath toPath options s :
  Forall (fun ev => is_delete ev = false)
    (trace (Core.fs_copy B hook fuel fromPath toPath options) s).
Proof.
  apply emits_trace. unfold Core.fs_copy, Core._prepareXmit, Core.stat,
    Core.copy.
  apply emits_bind.
  - apply emits_bind; [ apply head_keeps | intros; apply emits_ret ].
  - intros ft. apply emits_bind.
    + apply emits_nothing. reflexivity.
    + intros _. apply emits_bind; [ apply xmit_copy_keeps | intros _ ].
      apply emits_nothing. reflexivity.
Qed.

Local Abbreviation read_options options :=
  {| bufferSize := x_bufferSize options; open_ignoreHook := false |}.

(** The [try] block of [AbstractFile._xmit] and its [finally] block. *)
Local Abbreviation transfer_body fuel rs to_ options :=
  (create_ <- try_catch
                (Core.head B hook to_ no_HeadOptions ;;; ret false)
                (fun e =>
                   if instanceof_NotFoundError e then ret true
                   else throw e) ;;
   ws <- Core.openWriteStream B hook to_
           {| w_bufferSize := x_bufferSize options;
              w_ignoreHook := false;
              create := Some create_ |} ;;
   try_finally
     (Core.copy_loop B fuel rs ws)
     (no_await (Core.ws_close B hook ws) ;;; ret tt)).

Local Abbreviation closing rs :=
  (no_await (Core.rs_close B hook rs) ;;; ret tt).

Lemma head_any path o : emits any (Core.head B hook path o).
Proof.
  eapply emits_weaken; [ | apply head_keeps ]. auto.
Qed.

Lemma openReadStream_any path o :
  emits any (Core.openReadStream B hook path o).
Proof. unfold Core.openReadStream, Core.before. emits_all. Qed.

Lemma transfer_body_any fuel rs to_ options :
  emits any (transfer_body fuel rs to_ options : FS unit).
Proof.
  unfold Core.openWriteStream, Core.openWriteStream_catch, Core.head,
    Core.before, Core.after, Core.ws_close, Core.call_cb.
  repeat first
    [ eapply emits_weaken; [ | apply Xmit.copy_loop_inert ]; solve [ auto ]
    | emits_step ]; auto.
Qed.

Lemma closing_any rs : emits any (closing rs : FS unit).
Proof. unfold Core.rs_close. emits_all. Qed.

Lemma closing_logs rs (s : St W XmitError) :
  exists evs,
    trace (closing rs) s = EvPrim P_close_read (rs_path rs) :: evs.
Proof.
  unfold trace, Core.rs_close, bind, no_await, prim, call_unawaited, ret.
  destruct (_close_read B rs (world s)) as [[[] | e |] w]; simpl;
    try (rewrite skipn_length_app; eauto; fail).
  destruct (open_ignoreHook (rs_options rs)); simpl;
    try (rewrite skipn_length_app; eauto; fail).
  destruct (afterGet hook) as [h |]; simpl;
    try destruct (h (rs_path rs)); simpl;
    rewrite <- ?app_assoc, skipn_length_app; simpl; eauto.
Qed.

(** X18: the transfer of a file closes the read stream it has opened on
    every way out, failure of the stat of the target, of the opening of
    the write stream or of the copy included: whenever the call comes to
    an end after [openReadStream] has resolved, [_close] of that stream
    has been invoked. *)
Theorem transfer_closes_the_read_stream fuel this to_ move options s st rs :
  fst (Core.head B hook this no_HeadOptions s) = Ok st ->
  fst (Core.openReadStream B hook this (read_options options)
         (snd (Core.head B hook this no_HeadOptions s))) = Ok rs ->
  match fst (Core.file_xmit B hook fuel this (AbstractFile to_) move options
               s) with
  | Diverge => True
  | _ =>
      In (EvPrim P_close_read (rs_path rs))
        (trace (Core.file_xmit B hook fuel this (AbstractFile to_) move
                  options) s)
  end.
Proof.
  intros Hh Ho.
  set (s1 := snd (Core.head B hook this no_HeadOptions s)) in *.
  set (s2 := snd (Core.openReadStream B hook this (read_options options)
                    s1)) in *.
  set (rest := fun _ : unit =>
         (if move
          then try_catch (ret tt)
                 (fun error =>
                    push {| from := AbstractFile this;
                            to := AbstractFile to_; error := error |})
          else ret tt) : FS unit).
  assert (Hrest : forall u, emits any (rest u)).
  { intros u. unfold rest. destruct move; emits_all. }
  assert (Htail : forall rs0,
             emits any (bind (try_finally (transfer_body fuel rs0 to_ options)
                                (closing rs0)) rest)).
  { intros rs0. apply emits_bind; [ | exact Hrest ].
    apply emits_try_finally; [ apply transfer_body_any | apply closing_any ]. }
  assert (Hshape :
            Core.file_xmit B hook fuel this (AbstractFile to_) move options
            = bind (Core.head B hook this no_HeadOptions)
                (fun _ =>
                   bind (Core.openReadStream B hook this
                           (read_options options))
                     (fun rs0 =>
                        bind (try_finally
                                (transfer_body fuel rs0 to_ options)
                                (closing rs0)) rest))) by reflexivity.
  rewrite Hshape.
  rewrite (@trace_bind _ _ _ _ _ _ s st (head_any _ _) Hh)
    by (apply emits_bind; [ apply openReadStream_any | exact Htail ]).
  fold s1.
  rewrite (@trace_bind _ _ _ _ _ _ s1 rs (openReadStream_any _ _) Ho)
    by apply Htail.
  fold s2.
  destruct (@trace_bind_prefix _ _ _ _
              (try_finally (transfer_body fuel rs to_ options) (closing rs))
              rest s2) as [evs Hevs];
    [ apply emits_try_finally;
      [ apply transfer_body_any | apply closing_any ]
    | exact Hrest | ].
  rewrite Hevs.
  pose proof (@trace_try_finally _ _ _ (transfer_body fuel rs to_ options)
                (closing rs) s2 (transfer_body_any _ _ _ _)
                (closing_any _)) as Hfin.
  assert (Hout :
            fst (transfer_body fuel rs to_ options s2) = Diverge ->
            fst (bind (Core.head B hook this no_HeadOptions)
                   (fun _ =>
                      bind (Core.openReadStream B hook this
                              (read_options options))
                        (fun rs0 =>
                           bind (try_finally
                                   (transfer_body fuel rs0 to_ options)
                                   (closing rs0)) rest)) s) = Diverge).
  { intros Hd. unfold bind at 1. unfold s2, s1 in *.
    destruct (Core.head B hook this no_HeadOptions s) as [o1 t1].
    simpl in Hh. subst o1. simpl in *.
    unfold bind at 1.
    destruct (Core.openReadStream B hook this (read_options options) t1)
      as [o2 t2].
    simpl in Ho. subst o2. simpl in *.
    unfold bind at 1. unfold try_finally at 1.
    destruct (transfer_body fuel rs to_ options t2) as [o3 t3].
    simpl in Hd. subst o3. reflexivity. }
  destruct (fst (transfer_body fuel rs to_ options s2)) eqn:Eb.
  - rewrite Hfin. destruct (closing_logs rs
      (snd (transfer_body fuel rs to_ options s2))) as [evs' ->].
    match goal with |- match ?x with _ => _ end => destruct x end; auto;
      rewrite !in_app_iff; simpl; auto 10.
  - rewrite Hfin. destruct (closing_logs rs
      (snd (transfer_body fuel rs to_ options s2))) as [evs' ->].
    match goal with |- match ?x with _ => _ end => destruct x end; auto;
      rewrite !in_app_iff; simpl; auto 10.
  - rewrite Hout by reflexivity. exact I.
Qed.

End WithBackend.

(** X18 at a concrete input: the copy of [/a.txt] to [/b.txt]. *)
Lemma transfer_closes_the_read_stream_witness :
  In (EvPrim P_close_read "/a.txt")
    (trace (Core.file_xmit MemFS.backend no_hook 1 "/a.txt"
              (AbstractFile "/b.txt") false Instances.default_XmitOptions)
       Instances.start).
Proof.
  exact (@transfer_closes_the_read_stream MemFS.World MemFS.backend no_hook
           1 "/a.txt" "/b.txt" false Instances.default_XmitOptions
           Instances.start
           {| size := Some 2%Z; accessed := None; modified := None |}
           {| rs_path := "/a.txt";
              rs_options := {| bufferSize := None;
                               open_ignoreHook := false |};
              rs_position := 0; rs_handled := false |}
           eq_refl eq_refl).
Defined.

Section WithHash.
Import Hashing.
Context {W : Type} (B : Backend W) (hook : Hook).
Context {H : Type} (createHash : H)
        (update : H -> list Byte.byte -> H)
        (digest : H -> list Byte.byte).

Lemma hash_loop_folds rs s cs :
  delivers B rs s cs ->
  forall fuel h,
    length cs < fuel ->
    fst (hash_loop B update fuel rs h s) = Ok (fold_left update cs h).
Proof.
  induction 1 as [rs s rs' s' Hr | rs s c rs1 s1 cs Hr Hd IH];
    intros fuel h Hf.
  - destruct fuel as [| fuel]; [ inversion Hf | ].
    simpl. unfold bind. rewrite Hr. reflexivity.
  - destruct fuel as [| fuel]; [ inversion Hf | ].
    simpl. unfold bind. rewrite Hr. simpl.
    apply IH. simpl in Hf. apply PeanoNat.lt_S_n. exact Hf.
Qed.

(** X19: [hash] reads to the end and digests all of it.  When the reads
    of the opened stream deliver the chunks [cs] and then [null], [hash]
    resolves to the hexadecimal text of the digest of the chunks fed to
    the hash in the order read; neither the un-awaited [close] nor
    [afterGet] can change that. *)
Theorem hash_digests_every_chunk fuel path size s rs cs :
  fst (Core.openReadStream B hook path
         {| bufferSize := size; open_ignoreHook := false |} s) = Ok rs ->
  delivers B rs
    (snd (Core.openReadStream B hook path
            {| bufferSize := size; open_ignoreHook := false |} s)) cs ->
  length cs < fuel ->
  fst (hash B hook createHash update digest fuel path size s)
  = Ok (Hex.toHex (digest (fold_left update cs createHash))).
Proof.
  intros Ho Hd Hf. unfold hash. unfold bind at 1.
  destruct (Core.openReadStream B hook path
              {| bufferSize := size; open_ignoreHook := false |} s)
    as [o s1].
  simpl in Ho, Hd. subst o.
  unfold try_finally, bind at 1.
  pose proof (hash_loop_folds Hd createHash Hf) as Hl.
  destruct (hash_loop B update fuel rs createHash s1) as [o s2].
  simpl in Hl. subst o. unfold ret at 1.
  unfold bind, no_await.
  destruct (Core.rs_close B hook rs s2) as [o3 s3]. reflexivity.
Qed.

End WithHash.

(** X19 at a concrete input: [/d/f] holds the one byte "f", read in one
    chunk; the stand-in hash keeps what it is fed. *)
Lemma hash_digests_every_chunk_witness :
  fst (Hashing.hash MemFS.backend no_hook [] Hashing.keep_all (fun h => h)
         3 "/d/f" None Instances.start)
  = Ok "66"%string.
Proof.
  exact (@hash_digests_every_chunk MemFS.World MemFS.backend no_hook
           (list Byte.byte) [] Hashing.keep_all (fun h => h)
           3 "/d/f" None Instances.start
           {| rs_path := "/d/f";
              rs_options := {| bufferSize := None;
                               open_ignoreHook := false |};
              rs_position := 0; rs_handled := false |}
           [MemFS.bytes "f"] eq_refl
           ltac:(eapply Hashing.delivers_chunk;
                 [ reflexivity
                 | eapply Hashing.delivers_null; reflexivity ])
           ltac:(simpl; lia)).
Defined.

End Transfers.

(** ** Overwriting on transfer (AbstractFile.ts) *)

Module Overwrite.
Section WithStreams.
Import AbstractFile_ts.
Context {W RS WS : Type}.
Local Abbreviation FS := (@M (St W XmitError)).
Context (head : string -> FS Stats)
        (delete : string -> FS unit)
        (createReadStream : string -> option nat -> FS RS)
        (createWriteStream : string -> bool -> option nat -> FS WS)
        (pipe : RS -> WS -> FS unit)
        (rs_close : RS -> FS unit)
        (ws_close : WS -> FS unit).

(** X20: without [force], the transfer of a file never touches an
    existing target.  When the stat of the target succeeds, [_xmit]
    rejects with [PathExistsError]; when it fails with anything but
    [NotFoundError], [_xmit] rejects with that error.  In both cases the
    call ends right after the two stats: no stream is created, nothing is
    written, and the source is not deleted even for a move. *)
Theorem without_force_target_is_kept this to_ options s st :
  force options = false ->
  fst (head this s) = Ok st ->
  let s1 := snd (head this s) in
  let r := _xmit head delete createReadStream createWriteStream pipe
             rs_close ws_close this (AbstractFile to_) options s in
  match fst (head to_ s1) with
  | Ok _ => r = (Throw PathExistsError, snd (head to_ s1))
  | Throw e =>
      if instanceof_NotFoundError e then True
      else r = (Throw e, snd (head to_ s1))
  | Diverge => r = (Diverge, snd (head to_ s1))
  end.
Proof.
  intros Hf Hh s1 r. subst r s1. unfold _xmit, transfer.
  rewrite Hf. simpl negb. cbv iota.
  unfold bind, try_catch, throw.
  destruct (head this s) as [o t1]. simpl in Hh. subst o. simpl.
  destruct (head to_ t1) as [[st' | e |] t2]; simpl; try reflexivity.
  destruct (instanceof_NotFoundError e); [ exact I | reflexivity ].
Qed.

End WithStreams.

(** X20 at a concrete input: [/a.txt] onto the existing [/d/f], the
    streams being those of core.ts on the in-memory backend. *)
Lemma without_force_target_is_kept_witness :
  let r := AbstractFile_ts._xmit
             (fun p => Core.head MemFS.backend no_hook p no_HeadOptions)
             (fun p => Core.delete MemFS.backend no_hook p no_DeleteOptions)
             (fun p b =>
                Core.openReadStream MemFS.backend no_hook p
                  {| bufferSize := b; open_ignoreHook := false |})
             (fun p c b =>
                Core.openWriteStream MemFS.backend no_hook p
                  {| w_bufferSize := b; w_ignoreHook := false;
                     create := Some c |})
             (fun _ _ => ret tt)
             (Core.rs_close MemFS.backend no_hook)
             (Core.ws_close MemFS.backend no_hook)
             "/a.txt" (AbstractFile "/d/f")
             {| AbstractFile_ts.force := false;
                AbstractFile_ts.move := true;
                AbstractFile_ts.bufferSize := None |}
             Instances.start in
  fst r = Throw PathExistsError
  /\ MemFS.content "/d/f" (world (snd r)) = Some (MemFS.bytes "f")
  /\ MemFS.exists_ "/a.txt" (world (snd r)) = true.
Proof.
  pose proof (@without_force_target_is_kept MemFS.World ReadStream
                WriteStream
                (fun p => Core.head MemFS.backend no_hook p no_HeadOptions)
                (fun p =>
                   Core.delete MemFS.backend no_hook p no_DeleteOptions)
                (fun p b =>
                   Core.openReadStream MemFS.backend no_hook p
                     {| bufferSize := b; open_ignoreHook := false |})
                (fun p c b =>
                   Core.openWriteStream MemFS.backend no_hook p
                     {| w_bufferSize := b; w_ignoreHook := false;
                        create := Some c |})
                (fun _ _ => ret tt)
                (Core.rs_close MemFS.backend no_hook)
                (Core.ws_close MemFS.backend no_hook)
                "/a.txt" "/d/f"
                {| AbstractFile_ts.force := false;
                   AbstractFile_ts.move := true;
                   AbstractFile_ts.bufferSize := None |}
                Instances.start
                {| size := Some 2%Z; accessed := None; modified := None |}
                eq_refl eq_refl) as H.
  cbv zeta in H. simpl fst in H. cbv iota in H.
  cbv zeta. rewrite H. repeat split.
Defined.

End Overwrite.

(** ** Hooks of the whole-file operations (part_000) *)

Module WholeFileHooks.
Section WithSubclass.
Context {W : Type} (B : Part000.Subclass W) (hook : Part000.Hook)
        (createError : Err -> option Err -> Err).
Implicit Types s : St W Err.

(** The options object [write] builds for the hooks and for [_write]. *)
Local Abbreviation built options create_ :=
  {| Part000.append :=
       Some (match Part000.opt_append options with
             | Some b => b
             | None => false
             end);
     Part000.create := Some create_ |}.




End WithSubclass.



(** What is outside of it: an [afterPut] that throws instead of returning
    a promise makes [write] reject after [_write] has stored the data. *)
Example throwing_afterPut_run :
  let r := Part000.write Instances.mem_file
             WholeFileHookSets.throwing_afterPut createError "/a.txt"
             (Text "new") None (init_St MemFS.sample) in
  fst r = Throw (BackendError "observer")
  /\ MemFS.content "/a.txt" (world (snd r)) = Some (MemFS.bytes "new")
  /\ log (snd r)
     = [EvPrim P_head "/a.txt"; EvPrim P_write "/a.txt";
        EvHook afterPut_ "/a.txt"].
Proof. vm_compute. auto. Qed.

End WholeFileHooks.

(** ** Sanitising a patch (part_006) *)

Module PatchProps.
Import Props.

Lemma get_delete_same key o : get (delete key o) key = VUndefined.
Proof.
  induction o as [| [k v] o IH]; simpl; [ reflexivity | ].
  destruct (String.eqb k key) eqn:E; simpl; [ exact IH | ].
  rewrite E. exact IH.
Qed.

Lemma get_delete_other key k' o :
  String.eqb key k' = false -> get (delete key o) k' = get o k'.
Proof.
  intros Hne. induction o as [| [k v] o IH]; simpl; [ reflexivity | ].
  destruct (String.eqb k key) eqn:E; simpl.
  - apply String.eqb_eq in E. subst k. rewrite Hne. exact IH.
  - rewrite IH. reflexivity.
Qed.

(** Every property of [o'] is a property of [o]. *)
Local Abbreviation within o' o :=
  (forall key, get o' key = get o key \/ get o' key = VUndefined).

Lemma within_refl o : within o o.
Proof. auto. Qed.

Lemma within_trans o1 o2 o3 : within o1 o2 -> within o2 o3 -> within o1 o3.
Proof.
  intros H12 H23 key. destruct (H12 key) as [-> | ->]; auto.
Qed.

Lemma within_delete key o : within (delete key o) o.
Proof.
  intros k'. destruct (String.eqb key k') eqn:E.
  - apply String.eqb_eq in E. subst k'. right. apply get_delete_same.
  - left. apply get_delete_other. exact E.
Qed.

Lemma within_absent_or Q o' o key :
  within o' o -> absent_or Q o key -> absent_or Q o' key.
Proof.
  unfold absent_or. intros Hw [H | H]; destruct (Hw key) as [E | E];
    rewrite E; auto.
Qed.

Section WithFileSystem.
Context (canPatchAccessed canPatchCreated canPatchModified : bool).

Lemma within_fix_time can key o : within (fix_time can key o) o.
Proof.
  unfold fix_time. destruct can; [ | apply within_delete ].
  destruct (negb _); [ apply within_delete | apply within_refl ].
Qed.

Lemma fix_time_ok can key o :
  absent_or (fun v => can = true /\ typeof v = "number"%string)
    (fix_time can key o) key.
Proof.
  unfold absent_or, fix_time. destruct can.
  - destruct (String.eqb (typeof (get o key)) "number") eqn:E; simpl.
    + right. split; [ reflexivity | ]. apply String.eqb_eq. exact E.
    + left. apply get_delete_same.
  - left. apply get_delete_same.
Qed.

Lemma within_fix_key stats o key : within (fix_key stats o key) o.
Proof.
  unfold fix_key. destruct (strict_eq _ _); [ apply within_delete | ].
  destruct (_ && _); [ apply within_delete | apply within_refl ].
Qed.

Lemma within_loop stats ks : forall o,
  within (fold_left (fix_key stats) ks o) o.
Proof.
  induction ks as [| k ks IH]; intros o; simpl; [ apply within_refl | ].
  eapply within_trans; [ apply IH | apply within_fix_key ].
Qed.

Lemma fix_key_ok stats o key :
  absent_or (fun v => strict_eq (get stats key) v = false
                      /\ typeof v = typeof (get stats key))
    (fix_key stats o key) key.
Proof.
  unfold absent_or, fix_key.
  destruct (strict_eq (get stats key) (get o key)) eqn:E1;
    [ left; apply get_delete_same | ].
  destruct (String.eqb (typeof (get stats key)) (typeof (get o key))) eqn:E2;
    simpl.
  - right. split; [ exact E1 | ]. apply String.eqb_eq in E2. auto.
  - destruct (String.eqb (typeof (get o key)) "undefined") eqn:E3; simpl.
    + left. destruct (get o key); simpl in E3; try discriminate. reflexivity.
    + left. apply get_delete_same.
Qed.

Lemma loop_ok stats ks : forall o key,
  In key ks ->
  absent_or (fun v => strict_eq (get stats key) v = false
                      /\ typeof v = typeof (get stats key))
    (fold_left (fix_key stats) ks o) key.
Proof.
  induction ks as [| k ks IH]; intros o key Hin; [ destruct Hin | ].
  simpl. destruct Hin as [-> | Hin].
  - eapply within_absent_or; [ apply within_loop | apply fix_key_ok ].
  - apply IH. exact Hin.
Qed.

(** X24: what [_fixProps] leaves in [props].  It only removes
    properties.  Afterwards [size] and [etag] are absent or [null]; a
    timestamp ([accessed], [created], [modified]) is present only if the
    file system can patch it and the value is a number; and every
    property that [stats] has as well is present only with a value that
    is not [===] to the one in [stats] and has the same type. *)
Theorem fixProps_sanitises props stats :
  let fixed := _fixProps canPatchAccessed canPatchCreated canPatchModified
                 props stats in
  (forall key, get fixed key = get props key \/ get fixed key = VUndefined)
  /\ absent_or (fun v => v = VNull) fixed "size"
  /\ absent_or (fun v => v = VNull) fixed "etag"
  /\ absent_or (fun v => canPatchAccessed = true
                         /\ typeof v = "number"%string) fixed "accessed"
  /\ absent_or (fun v => canPatchCreated = true
                         /\ typeof v = "number"%string) fixed "created"
  /\ absent_or (fun v => canPatchModified = true
                         /\ typeof v = "number"%string) fixed "modified"
  /\ (forall key,
        In key (keys stats) ->
        absent_or (fun v => strict_eq (get stats key) v = false
                            /\ typeof v = typeof (get stats key))
          fixed key).
Proof.
  intros fixed. subst fixed. unfold _fixProps.
  set (p1 := if not_nullish (get props "size")
             then delete "size" props else props).
  set (p2 := if not_nullish (get p1 "etag") then delete "etag" p1 else p1).
  set (p3 := fix_time canPatchAccessed "accessed" p2).
  set (p4 := fix_time canPatchCreated "created" p3).
  set (p5 := fix_time canPatchModified "modified" p4).
  cbv zeta.
  assert (H1 : within p1 props).
  { unfold p1. destruct (not_nullish (get props "size"));
      [ apply within_delete | apply within_refl ]. }
  assert (H2 : within p2 p1).
  { unfold p2. destruct (not_nullish (get p1 "etag"));
      [ apply within_delete | apply within_refl ]. }
  assert (H3 : within p3 p2) by apply within_fix_time.
  assert (H4 : within p4 p3) by apply within_fix_time.
  assert (H5 : within p5 p4) by apply within_fix_time.
  assert (H6 : within (fold_left (fix_key stats) (keys stats) p5) p5)
    by apply within_loop.
  assert (S1 : absent_or (fun v => v = VNull) p1 "size").
  { unfold absent_or, p1.
    destruct (not_nullish (get props "size")) eqn:E.
    - left. apply get_delete_same.
    - destruct (get props "size"); simpl in E; try discriminate; auto. }
  assert (S2 : absent_or (fun v => v = VNull) p2 "etag").
  { unfold absent_or, p2.
    destruct (not_nullish (get p1 "etag")) eqn:E.
    - left. apply get_delete_same.
    - destruct (get p1 "etag"); simpl in E; try discriminate; auto. }
  repeat apply conj.
  - eapply within_trans; [ exact H6 | ].
    eapply within_trans; [ exact H5 | ].
    eapply within_trans; [ exact H4 | ].
    eapply within_trans; [ exact H3 | ].
    eapply within_trans; [ exact H2 | exact H1 ].
  - eapply within_absent_or; [ exact H6 | ].
    eapply within_absent_or; [ exact H5 | ].
    eapply within_absent_or; [ exact H4 | ].
    eapply within_absent_or; [ exact H3 | ].
    eapply within_absent_or; [ exact H2 | ]. exact S1.
  - eapply within_absent_or; [ exact H6 | ].
    eapply within_absent_or; [ exact H5 | ].
    eapply within_absent_or; [ exact H4 | ].
    eapply within_absent_or; [ exact H3 | ]. exact S2.
  - eapply within_absent_or; [ exact H6 | ].
    eapply within_absent_or; [ exact H5 | ].
    eapply within_absent_or; [ exact H4 | ]. apply fix_time_ok.
  - eapply within_absent_or; [ exact H6 | ].
    eapply within_absent_or; [ exact H5 | ]. apply fix_time_ok.
  - eapply within_absent_or; [ exact H6 | ]. apply fix_time_ok.
  - intros key Hin. apply loop_ok. exact Hin.
Qed.

End WithFileSystem.

(** A patch of the modification time on a file system that can patch
    nothing else: the size, the unchanged etag and the access time are
    dropped. *)
Example fixProps_run :
  _fixProps false false true
    [("size", VNumber 5); ("etag", VString "x"); ("accessed", VNumber 7);
     ("modified", VNumber 9)]
    [("size", VNumber 2); ("modified", VNumber 3)]
  = [("modified", VNumber 9)].
Proof. reflexivity. Qed.

(** [NaN] is not [===] to itself: a time that is [NaN] in [stats] and in
    [props] counts as changed and stays. *)
Example fixProps_keeps_NaN :
  _fixProps false false true
    [("modified", VNaN)]
    [("size", VNumber 2); ("modified", VNaN)]
  = [("modified", VNaN)].
Proof. reflexivity. Qed.

End PatchProps.

(** ** [head] with an array for the errors (part_006) *)

Module ErrorArray.
Section WithSubclass.
Context {W : Type} (B : Part006.Subclass W) (hook : Part006.Hook)
        (createError : Err -> option Err -> Err)
        (INVALID_CHARS : string -> bool).
Implicit Types s : St W Err.

(** The [try] block pushes nothing: its failures are thrown. *)
Lemma head_try_pushes_nothing path options s :
  copyErrors (snd (Part006.head_try B hook createError INVALID_CHARS path
                     options s))
  = copyErrors s.
Proof.
  unfold Part006.head_try, Part006._checkPath, Part006._handleError,
    Part006._handleFileSystemError, bind, await, prim, call_hook, ret,
    throw.
  repeat (break_match; simpl; auto);
    repeat match goal with
           | H : (_, _) = (_, _) |- _ => inversion H; subst; clear H
           end; simpl; auto.
Qed.

(** X23: the two ways [head] reports a failure.  Called with an array,
    [head] never rejects: it resolves to the stats and leaves the array
    alone, or it resolves to [null] and has pushed exactly one error.
    Called without one it never resolves to [null]: every failure is
    thrown. *)
Theorem head_reports_failure_one_way path options s :
  (let r := Part006.head B hook createError INVALID_CHARS path options
              true s in
   match fst r with
   | Ok (Some _) => copyErrors (snd r) = copyErrors s
   | Ok None => exists e, copyErrors (snd r) = copyErrors s ++ [e]
   | Throw _ => False
   | Diverge => True
   end)
  /\ (let r := Part006.head B hook createError INVALID_CHARS path options
                 false s in
      match fst r with
      | Ok (Some _) => copyErrors (snd r) = copyErrors s
      | Ok None => False
      | Throw _ => copyErrors (snd r) = copyErrors s
      | Diverge => True
      end).
Proof.
  pose proof (head_try_pushes_nothing path options s) as Hp.
  unfold Part006.head, Part006._handleError, Part006._handleFileSystemError,
    try_catch, bind, push, throw, ret.
  destruct (Part006.head_try B hook createError INVALID_CHARS path options s)
    as [[st | e |] s1]; simpl in *; rewrite ?Hp; eauto.
Qed.

End WithSubclass.
End ErrorArray.

(** ** Deleting a directory (part_007) *)

Module DirectoryDeleteProps.

Section WithFileSystem.
Context {W : Type}.
Local Abbreviation FS := (@M (St W Err)).
Local Abbreviation Options := DirectoryDelete.Options.
Context (path : string)
        (fs_head : string -> Options -> FS Stats)
        (getEntry : string -> FS Fso)
        (entry_delete : Fso -> Options -> FS unit)
        (_list : W -> Outcome (list string) * W)
        (_rmdir : W -> Outcome unit * W)
        (beforeList :
           option (string -> Options -> Outcome (option (list string))))
        (afterList : option (string -> list string -> Outcome unit)).
Implicit Types s : St W Err.

Local Abbreviation delete_ :=
  (DirectoryDelete._delete path fs_head getEntry entry_delete _list _rmdir
     beforeList afterList).
Local Abbreviation list_ :=
  (DirectoryDelete.list path fs_head _list beforeList afterList).
Local Abbreviation child_ :=
  (DirectoryDelete.delete_child getEntry entry_delete).

(** X25: what [_delete] does when the stat of the directory does not find
    a directory.  A path that is a file is refused with
    [TypeMismatchError], [force] or not; an absent path is an error
    without [force] and a silent success with it; any other failure of the
    stat is reported as [NotReadableError].  In each of these cases
    nothing is run after the stat: no listing, no deletion of a child, no
    [_rmdir]. *)
Theorem delete_without_a_directory options s :
  let after_stat := snd (fs_head path options s) in
  match fst (fs_head path options s) with
  | Ok stats =>
      if Part006.has_size stats
      then delete_ options s
           = (Throw (createError TypeMismatchError None), after_stat)
      else True
  | Throw e =>
      if Err_eqb e TypeMismatchError
      then delete_ options s = (Throw e, after_stat)
      else if Err_eqb e NotFoundError
      then delete_ options s
           = (if Part007.force options then Ok tt else Throw e, after_stat)
      else delete_ options s
           = (Throw (createError NotReadableError (Some e)), after_stat)
  | Diverge => delete_ options s = (Diverge, after_stat)
  end.
Proof.
  unfold DirectoryDelete._delete, DirectoryDelete._checkDirectory, bind, try_catch, throw, ret. simpl.
  destruct (fs_head path options s) as [[stats | e |] s1]; simpl.
  - destruct (Part006.has_size stats); simpl; auto.
  - destruct (Err_eqb e TypeMismatchError); auto.
    destruct (Err_eqb e NotFoundError); auto.
    destruct (Part007.force options); auto.
  - reflexivity.
Qed.

(** Once the stat has found a directory, [_delete] is the loop over the
    children, if asked for, followed by [_rmdir]. *)
Lemma delete_found options s stats :
  fst (fs_head path options s) = Ok stats ->
  Part006.has_size stats = false ->
  delete_ options s
  = ((if Part007.recursive options then
        children <- list_ options ;;
        for_of children (child_ options)
      else ret tt) ;;;
     prim (EvPrim P_delete path) _rmdir) (snd (fs_head path options s)).
Proof.
  intros Hh Hs.
  unfold DirectoryDelete._delete, DirectoryDelete._checkDirectory.
  unfold bind at 1. unfold try_catch, bind at 1. unfold bind at 1.
  destruct (fs_head path options s) as [o s1]. simpl in Hh. subst o.
  simpl. rewrite Hs. reflexivity.
Qed.

(** With [force] the body of the loop never throws. *)
Lemma forced_child_never_throws options child s :
  Part007.force options = true ->
  match fst (child_ options child s) with
  | Throw _ => False
  | _ => True
  end.
Proof.
  intros Hf. unfold DirectoryDelete.delete_child, try_catch, bind, push. rewrite Hf.
  destruct (getEntry child s) as [[entry | e |] s1]; simpl; auto.
  destruct (entry_delete entry options s1) as [[[] | e |] s2]; simpl; auto.
Qed.

Lemma forced_loop_never_throws options children : forall s,
  Part007.force options = true ->
  match fst (for_of children (child_ options) s) with
  | Throw _ => False
  | _ => True
  end.
Proof.
  induction children as [| child children IH]; intros s Hf; simpl; auto.
  unfold bind.
  pose proof (forced_child_never_throws options child s Hf) as Hc.
  destruct (child_ options child s) as [[[] | e |] s1]; simpl in *; auto.
  apply IH. exact Hf.
Qed.

(** X26: with [force], no failure among the children keeps a recursive
    [_delete] from going on to [_rmdir]: once the directory has been found
    and listed, the call ends with the outcome of [_rmdir], which is
    invoked after the last child whatever the children did. *)
Theorem forced_delete_reaches_rmdir options s stats children :
  Part007.force options = true ->
  Part007.recursive options = true ->
  fst (fs_head path options s) = Ok stats ->
  Part006.has_size stats = false ->
  fst (list_ options (snd (fs_head path options s))) = Ok children ->
  let s2 := snd (list_ options (snd (fs_head path options s))) in
  let s3 := snd (for_of children (child_ options) s2) in
  match fst (for_of children (child_ options) s2) with
  | Diverge => True
  | _ =>
      fst (delete_ options s) = fst (_rmdir (world s3))
      /\ world (snd (delete_ options s)) = snd (_rmdir (world s3))
      /\ log (snd (delete_ options s)) = log s3 ++ [EvPrim P_delete path]
  end.
Proof.
  intros Hf Hr Hh Hs Hl s2 s3. subst s2 s3.
  pose proof (forced_loop_never_throws options children
                (snd (list_ options (snd (fs_head path options s)))) Hf)
    as Hloop.
  rewrite (delete_found options s Hh Hs), Hr.
  unfold bind at 1 3 5. unfold bind at 1 2 3.
  destruct (list_ options (snd (fs_head path options s))) as [o s2].
  simpl in Hl. subst o. simpl fst in *. simpl snd in *. cbv iota beta.
  destruct (for_of children (child_ options) s2) as [[[] | e |] s3];
    simpl in *; try contradiction; auto.
  unfold prim. destruct (_rmdir (world s3)) as [r w]. simpl. auto.
Qed.

(** Without [force] the body of the loop is the deletion of the child. *)
Lemma unforced_child options child s :
  Part007.force options = false ->
  child_ options child s
  = (childEntry <- getEntry child ;; entry_delete childEntry options) s.
Proof.
  intros Hf. unfold DirectoryDelete.delete_child, try_catch, throw. rewrite Hf.
  destruct ((childEntry <- getEntry child ;;
             entry_delete childEntry options) s) as [[[] | e |] s1];
    reflexivity.
Qed.

Lemma for_of_cons {A} (f : A -> FS unit) x l s :
  for_of (x :: l) f s
  = match f x s with
    | (Ok _, t) => for_of l f t
    | (Throw e, t) => (Throw e, t)
    | (Diverge, t) => (Diverge, t)
    end.
Proof. reflexivity. Qed.

(** The loop ends at the first child that throws. *)
Lemma loop_stops options done child rest : forall s2 e,
  Part007.force options = false ->
  fst (for_of done (child_ options) s2) = Ok tt ->
  fst ((childEntry <- getEntry child ;; entry_delete childEntry options)
         (snd (for_of done (child_ options) s2))) = Throw e ->
  for_of (done ++ child :: rest) (child_ options) s2
  = (Throw e,
     snd ((childEntry <- getEntry child ;; entry_delete childEntry options)
            (snd (for_of done (child_ options) s2)))).
Proof.
  induction done as [| d done IH]; intros s2 e Hf Hd Hc.
  - simpl app. rewrite for_of_cons.
    change (snd (for_of [] (child_ options) s2)) with s2 in *.
    rewrite (unforced_child options child s2 Hf).
    destruct ((childEntry <- getEntry child ;;
               entry_delete childEntry options) s2) as [o t].
    simpl in Hc. subst o. reflexivity.
  - simpl app. rewrite !for_of_cons. rewrite for_of_cons in Hd, Hc.
    destruct (child_ options d s2) as [[[] | e' |] t]; simpl in Hd;
      try discriminate.
    apply IH; assumption.
Qed.

(** X27: without [force], the first child whose deletion fails ends a
    recursive [_delete]: the error is thrown as it is, nothing is pushed
    for it, the children listed after it are not touched and [_rmdir] is
    not invoked. *)
Theorem unforced_delete_stops_at_first_failure options s stats done child
    rest e :
  Part007.force options = false ->
  Part007.recursive options = true ->
  fst (fs_head path options s) = Ok stats ->
  Part006.has_size stats = false ->
  fst (list_ options (snd (fs_head path options s)))
  = Ok (done ++ child :: rest) ->
  let s2 := snd (list_ options (snd (fs_head path options s))) in
  fst (for_of done (child_ options) s2) = Ok tt ->
  let s3 := snd (for_of done (child_ options) s2) in
  fst ((childEntry <- getEntry child ;; entry_delete childEntry options) s3)
  = Throw e ->
  delete_ options s
  = (Throw e,
     snd ((childEntry <- getEntry child ;;
           entry_delete childEntry options) s3)).
Proof.
  intros Hf Hr Hh Hs Hl s2 Hd s3 Hc. subst s3 s2.
  rewrite (delete_found options s Hh Hs), Hr.
  unfold bind at 1. unfold bind at 1.
  destruct (list_ options (snd (fs_head path options s))) as [o s2].
  simpl in Hl. subst o. simpl fst in *. simpl snd in *. cbv iota beta.
  rewrite (loop_stops options done child rest s2 Hf Hd Hc). reflexivity.
Qed.

End WithFileSystem.

(** X26 at a concrete input: [/d/e] cannot be deleted; [/d/f] and [/d]
    itself are deleted all the same and the refusal is in the array. *)
Lemma forced_delete_reaches_rmdir_witness :
  let options := {| Part007.force := true; Part007.recursive := true;
                    Part007.ignoreHook := false |} in
  let r := DirectoryInstances.mem_delete "/d/e" options (init_St MemFS.sample) in
  fst r = Ok tt
  /\ MemFS.exists_ "/d" (world (snd r)) = false
  /\ MemFS.exists_ "/d/f" (world (snd r)) = false
  /\ copyErrors (snd r) = [NoModificationAllowedError].
Proof.
  pose proof (@forced_delete_reaches_rmdir MemFS.World "/d"
    (fun p _ => prim (EvPrim P_head p) (_head MemFS.backend p no_HeadOptions))
    (fun p => ret (AbstractFile p))
    (fun entry _ =>
       if String.eqb (fso_path entry) "/d/e"
       then throw NoModificationAllowedError
       else prim (EvPrim P_delete (fso_path entry))
              (_delete MemFS.backend (fso_path entry)
                 no_DeleteOptions))
    (_list MemFS.backend "/d" no_ListOptions)
    (_delete MemFS.backend "/d" no_DeleteOptions)
    None None
    {| Part007.force := true; Part007.recursive := true;
       Part007.ignoreHook := false |}
    (init_St MemFS.sample)
    {| size := None; accessed := None; modified := None |}
    ["/d/e"; "/d/f"] eq_refl eq_refl eq_refl eq_refl eq_refl) as H.
  vm_compute in H. destruct H as (H1 & H2 & H3).
  cbv zeta. split; [ exact H1 | repeat split ].
Defined.

(** X27 at a concrete input: [/d/e] cannot be deleted; [/d/f] and [/d]
    stay. *)
Lemma unforced_delete_stops_at_first_failure_witness :
  let options := {| Part007.force := false; Part007.recursive := true;
                    Part007.ignoreHook := false |} in
  let r := DirectoryInstances.mem_delete "/d/e" options (init_St MemFS.sample) in
  fst r = Throw NoModificationAllowedError
  /\ MemFS.exists_ "/d/f" (world (snd r)) = true
  /\ MemFS.exists_ "/d" (world (snd r)) = true
  /\ copyErrors (snd r) = [].
Proof.
  pose proof (@unforced_delete_stops_at_first_failure MemFS.World "/d"
    (fun p _ => prim (EvPrim P_head p) (_head MemFS.backend p no_HeadOptions))
    (fun p => ret (AbstractFile p))
    (fun entry _ =>
       if String.eqb (fso_path entry) "/d/e"
       then throw NoModificationAllowedError
       else prim (EvPrim P_delete (fso_path entry))
              (_delete MemFS.backend (fso_path entry)
                 no_DeleteOptions))
    (_list MemFS.backend "/d" no_ListOptions)
    (_delete MemFS.backend "/d" no_DeleteOptions)
    None None
    {| Part007.force := false; Part007.recursive := true;
       Part007.ignoreHook := false |}
    (init_St MemFS.sample)
    {| size := None; accessed := None; modified := None |}
    [] "/d/e" ["/d/f"] NoModificationAllowedError
    eq_refl eq_refl eq_refl eq_refl eq_refl eq_refl eq_refl) as H.
  cbv zeta. split; [ exact (f_equal fst H) | repeat split ].
Defined.

End DirectoryDeleteProps.

(** ** Moving the children of a directory (core.ts) *)

Module MoveChildren.
Section WithBackend.
Context {W : Type} (B : Backend W) (hook : Hook).
Local Abbreviation FS := (@M (St W XmitError)).

(** X28: in a move, a child is deleted only after its own transfer has
    come back without an exception.  When the transfer of the child
    throws, the loop body records the error and does nothing else: no
    [delete] is attempted on the child.  When it returns, the deletion of
    the child is what follows, and a failure of that deletion is
    recorded, not thrown. *)
Theorem child_is_deleted_only_after_its_transfer
    (xmit : Fso -> Fso -> bool -> XmitOptions -> FS unit)
    toDir options child s stats name toPath :
  fst (Core.head B hook child no_HeadOptions s) = Ok stats ->
  Path.getName child = Ok name ->
  Path.joinPaths toDir name = Ok toPath ->
  let fromFso := Core.dispatch stats child in
  let toFso := Core.dispatch stats toPath in
  let s1 := snd (Core.head B hook child no_HeadOptions s) in
  let s2 := snd (xmit fromFso toFso true options s1) in
  let record e :=
    {| world := world s2; log := log s2;
       copyErrors := copyErrors s2
                     ++ [{| from := fromFso; to := toFso; error := e |}] |} in
  Core.dir_xmit_child B hook xmit toDir true options child s
  = match fst (xmit fromFso toFso true options s1) with
    | Ok _ =>
        match Core.fso_delete B hook fromFso s2 with
        | (Throw e, s3) =>
            (Ok tt,
             {| world := world s3; log := log s3;
                copyErrors :=
                  copyErrors s3
                  ++ [{| from := fromFso; to := toFso; error := e |}] |})
        | r => r
        end
    | Throw e => (Ok tt, record e)
    | Diverge => (Diverge, s2)
    end.
Proof.
  intros Hh Hn Hj fromFso toFso s1 s2 record.
  subst fromFso toFso s1 s2 record.
  unfold Core.dir_xmit_child, bind, await, try_catch, push.
  destruct (Core.head B hook child no_HeadOptions s) as [o s1].
  simpl in Hh. subst o. simpl. rewrite Hn. simpl. rewrite Hj. simpl.
  destruct (xmit (Core.dispatch stats child) (Core.dispatch stats toPath)
              true options s1) as [[[] | e |] s2]; simpl;
    try reflexivity.
  destruct (Core.fso_delete B hook (Core.dispatch stats child) s2)
    as [[[] | e |] s3]; reflexivity.
Qed.

End WithBackend.

(** X28 at a concrete input: the transfer of [/d/e] fails, [/d/e] stays. *)
Lemma child_is_deleted_only_after_its_transfer_witness :
  let r := Core.dir_xmit_child MemFS.backend no_hook
             (fun _ _ _ _ => throw NotReadableError)
             "/d2" true Instances.default_XmitOptions "/d/e"
             Instances.start in
  fst r = Ok tt
  /\ MemFS.exists_ "/d/e" (world (snd r)) = true
  /\ existsb is_delete (log (snd r)) = false.
Proof.
  pose proof (@child_is_deleted_only_after_its_transfer MemFS.World
                MemFS.backend no_hook
                (fun _ _ _ _ => throw NotReadableError)
                "/d2" Instances.default_XmitOptions "/d/e" Instances.start
                {| size := Some 0%Z; accessed := None; modified := None |}
                "e" "/d2/e" eq_refl eq_refl eq_refl) as H.
  cbv zeta in H. cbv zeta. rewrite H. repeat split.
Defined.

End MoveChildren.

(** ** The children a directory lists (NodeDirectory) *)

Module ListedChildren.
Import Segments.

(** X29: the paths [NodeDirectory._list] resolves with.  For a directory
    whose path is accepted and names as a directory holds them (not empty,
    not [.] or [..], no separator inside), there is one path per name, in
    the order read; each is in normal form, has that name as its name and
    the normalised directory as its parent. *)
Theorem listed_children_are_direct_children dir names :
  (exists parts, Path.getPathParts dir = Ok parts) ->
  Forall (fun n => is_name n = true) names ->
  exists children,
    NodeDirectory.listed dir names = Ok children
    /\ Forall2 (fun name child =>
                  Path.getName child = Ok name
                  /\ Path.getParentPath child = Path.normalizePath dir
                  /\ Path.normalizePath child = Ok child)
         names children.
Proof.
  intros [parts Hd] Hn. unfold NodeDirectory.listed.
  induction Hn as [| name names Hname Hn IH].
  - exists []. split; [ reflexivity | constructor ].
  - destruct IH as (children & Hc & HF).
    assert (Hj : Path.joinPaths dir name
                 = Ok (Path.absolute (parts ++ [name]))).
    { unfold Path.joinPaths. rewrite Hd. simpl.
      rewrite PathProps.getPathParts_name by exact Hname. reflexivity. }
    exists (Path.absolute (parts ++ [name]) :: children).
    split.
    + simpl. rewrite Hj. simpl. rewrite Hc. reflexivity.
    + constructor; [ | exact HF ].
      destruct (@PathProps.joined_child_name dir name
                  (Path.absolute (parts ++ [name])) Hname Hj) as [H1 H2].
      split; [ exact H1 | ]. split; [ exact H2 | ].
      unfold Path.normalizePath.
      rewrite PathProps.getPathParts_absolute; [ reflexivity | ].
      apply Forall_app. split.
      * eapply PathProps.getPathParts_names. exact Hd.
      * repeat constructor. exact Hname.
Qed.

(** X29 at a concrete input. *)
Lemma listed_children_are_direct_children_witness :
  exists children,
    NodeDirectory.listed "/d/" ["e"; "f"] = Ok children
    /\ Forall2 (fun name child =>
                  Path.getName child = Ok name
                  /\ Path.getParentPath child = Path.normalizePath "/d/"
                  /\ Path.normalizePath child = Ok child)
         ["e"; "f"] children.
Proof.
  apply (@listed_children_are_direct_children "/d/" ["e"; "f"]).
  - exists ["d"]. reflexivity.
  - repeat constructor.
Defined.

End ListedChildren.

(** ** Creating a directory that is already there (part_007) *)

Module DirectoryMkcolProps.
Section WithFileSystem.
Context {W : Type}.
Local Abbreviation FS := (@M (St W Err)).
Local Abbreviation Options := Part007.XmitOptions.
Context (path : string)
        (fs_head : string -> Options -> FS Stats)
        (parent_mkcol : Options -> FS unit)
        (_mkcol : W -> Outcome unit * W)
        (beforeMkcol : option (string -> Options -> Outcome bool))
        (afterMkcol : option (string -> Outcome unit)).

(** X30: [mkcol] on a path that exists.  With [force], [mkcol] of an
    existing directory is a no-op: it resolves without consulting
    [beforeMkcol], without invoking [_mkcol] and without looking at the
    parent; without [force] it rejects with the [SecurityError] it
    throws, passed through [createError] by its own [catch] clause.  A
    path that is a file is refused either way, with the
    [TypeMismatchError] of the check passed through [createError], and a
    stat that fails for another reason than absence is reported through
    [createError] as well.  Nothing runs after the stat in any of these
    cases. *)
Theorem mkcol_on_an_existing_path options s :
  let r := DirectoryMkcol.mkcol path true fs_head parent_mkcol _mkcol
             beforeMkcol afterMkcol options s in
  let after_stat := snd (fs_head path options s) in
  match fst (fs_head path options s) with
  | Ok stats =>
      r = (if Part006.has_size stats
           then Throw (createError NotReadableError
                         (Some (createError TypeMismatchError None)))
           else if Part007.force options then Ok tt
           else Throw (createError NotReadableError
                         (Some (createError SecurityError None))),
           after_stat)
  | Throw e =>
      if Err_eqb e NotFoundError then True
      else r = (Throw (createError NotReadableError (Some e)), after_stat)
  | Diverge => r = (Diverge, after_stat)
  end.
Proof.
  unfold DirectoryMkcol.mkcol, DirectoryDelete._checkDirectory, bind,
    try_catch, throw, ret. simpl.
  destruct (fs_head path options s) as [[stats | e |] s1]; simpl.
  - destruct (Part006.has_size stats); simpl; [ reflexivity | ].
    destruct (Part007.force options); reflexivity.
  - destruct (Err_eqb e NotFoundError); [ exact I | reflexivity ].
  - reflexivity.
Qed.

(** On a file system that cannot create directories nothing is even
    looked at. *)
Lemma mkcol_not_supported options s :
  DirectoryMkcol.mkcol path false fs_head parent_mkcol _mkcol beforeMkcol
    afterMkcol options s
  = (Throw NotSupportedError, s).
Proof. reflexivity. Qed.

End WithFileSystem.
End DirectoryMkcolProps.
